(** * PixelTree: a shallow embedding of the generation pipeline

    The development follows the headers of the repository one by one:
    [math_types.hpp], [random.hpp], [tree_parameters.hpp],
    [tree_structure.hpp], [lsystem.hpp], [pixel_buffer.hpp],
    [tree_renderer.hpp] and [tree_generator.hpp].  Every C++ struct becomes a
    module holding a record [t]; every member function becomes a function on
    that record.  The shared-pointer graph of branches is stored as an arena
    (the flat vector [all_branches]) with parent and child links as indices
    into it.

    Numbers.  [float] is IEEE-754 binary32, taken from the Standard Library's
    executable specification [SpecFloat] at precision 24; [int] is a
    mathematical integer and conversions that can leave the 32-bit range are
    written out with [wrap32]; [uint32_t] pixels are integers below 2^32.

    What is not part of the repository is a parameter: the <random> engine
    and distributions ([StdRandom]), the <cmath> trigonometry ([Libm]), the
    random device and the clock ([Env]). *)

From Stdlib Require Import ZArith List Bool Lia String Ascii.
From Stdlib Require Import Floats.SpecFloat.
Import ListNotations.
Open Scope Z_scope.

(* ================================================================== *)
(** * IEEE-754 arithmetic *)

Definition float := spec_float.

(** binary32, the C++ [float]. *)
Module F32.
Definition prec : Z := 24.
Definition emax : Z := 128.

Definition of_Z (z : Z) : float := binary_normalize prec emax z 0 false.
Definition add : float -> float -> float := SFadd prec emax.
Definition sub : float -> float -> float := SFsub prec emax.
Definition mul : float -> float -> float := SFmul prec emax.
Definition div : float -> float -> float := SFdiv prec emax.
Definition ltb : float -> float -> bool := SFltb.
Definition leb : float -> float -> bool := SFleb.
Definition eqb : float -> float -> bool := SFeqb.

(** [std::sqrt] on [float]: correctly rounded, as IEEE-754 requires. *)
Definition sqrt : float -> float := SFsqrt prec emax.

(** A decimal literal [n/d] with [n] and [d] exactly representable: the
    correctly rounded quotient is the nearest binary32, which is what the
    compiler stores for the literal. *)
Definition lit (n d : Z) : float := div (of_Z n) (of_Z d).

Definition zero : float := S754_zero false.
Definition one : float := of_Z 1.

(** [std::min], [std::max] and [std::clamp] as <algorithm> defines them. *)
Definition min (a b : float) : float := if ltb b a then b else a.
Definition max (a b : float) : float := if ltb a b then b else a.
Definition clamp (v lo hi : float) : float :=
  if ltb v lo then lo else if ltb hi v then hi else v.

Definition INT_MIN : Z := - 2 ^ 31.
Definition INT_MAX : Z := 2 ^ 31 - 1.

(** The conversion of an integral float value to [int].  Outside the range
    of [int] (and for NaN and the infinities) the C++ conversion has no
    defined result; the value the x86 conversion instruction leaves is
    taken. *)
Definition to_int (z : Z) : Z :=
  if (INT_MIN <=? z) && (z <=? INT_MAX) then z else INT_MIN.

(** Magnitude of a finite float split at the binary point: integer part
    and whether the fraction is >= 1/2 and > 0. *)
Definition split (m : positive) (e : Z) : Z * bool * bool :=
  match e with
  | Zneg p =>
      let d := 2 ^ Zpos p in
      let q := Zpos m / d in
      let r := Zpos m mod d in
      (q, d <=? 2 * r, 0 <? r)
  | _ => (Zpos m * 2 ^ e, false, false)
  end.

(** [static_cast<int>(std::round(v))]: halves away from zero. *)
Definition round_to_int (v : float) : Z :=
  match v with
  | S754_zero _ => 0
  | S754_finite s m e =>
      let '(q, half, _) := split m e in
      let a := if half then q + 1 else q in
      to_int (if s then - a else a)
  | _ => INT_MIN
  end.

(** [static_cast<int>(std::ceil(v))]. *)
Definition ceil_to_int (v : float) : Z :=
  match v with
  | S754_zero _ => 0
  | S754_finite s m e =>
      let '(q, _, frac) := split m e in
      to_int (if s then - q else if frac then q + 1 else q)
  | _ => INT_MIN
  end.

(** [static_cast<uint8_t>(v)]: truncation toward zero, then the low byte. *)
Definition to_uint8 (v : float) : Z :=
  match v with
  | S754_finite s m e =>
      let '(q, _, _) := split m e in
      (if s then - q else q) mod 256
  | _ => 0
  end.
End F32.

(** binary64, the C++ [double]; only [rotate_vector] computes in it. *)
Module F64.
Definition prec : Z := 53.
Definition emax : Z := 1024.

Definition of_Z (z : Z) : float := binary_normalize prec emax z 0 false.
Definition mul : float -> float -> float := SFmul prec emax.
Definition div : float -> float -> float := SFdiv prec emax.

(** Widening a [float] is exact. *)
Definition of_f32 (v : float) : float :=
  match v with
  | S754_finite s m e => binary_round prec emax s m e
  | _ => v
  end.

(** Narrowing rounds to the nearest binary32. *)
Definition to_f32 (v : float) : float :=
  match v with
  | S754_finite s m e => binary_round F32.prec F32.emax s m e
  | _ => v
  end.

(** [M_PI], 0x400921FB54442D18. *)
Definition M_PI : float := S754_finite false 7074237752028440 (-51).
End F64.

(** [std::cos] and [std::sin] on [float]: the C library's, not specified
    bit for bit by any standard. *)
Record Libm := {
  cosf : float -> float;
  sinf : float -> float
}.

(* ================================================================== *)
(** * math_types.hpp *)

Module Point2Df.
Record t := mk { x : float; y : float }.

Definition add (p q : t) : t := mk (F32.add (x p) (x q)) (F32.add (y p) (y q)).
Definition sub (p q : t) : t := mk (F32.sub (x p) (x q)) (F32.sub (y p) (y q)).
Definition scale (p : t) (k : float) : t := mk (F32.mul (x p) k) (F32.mul (y p) k).
End Point2Df.

Module Point2Di.
Record t := mk { x : Z; y : Z }.
End Point2Di.

Module Rect2Df.
Record t := mk { min : Point2Df.t; max : Point2Df.t }.
End Rect2Df.

Module Color.
(** Four [uint8_t] channels. *)
Record t := mk { r : Z; g : Z; b : Z; a : Z }.

(** The three-argument constructor: alpha defaults to 255. *)
Definition rgb (r g b : Z) : t := mk r g b 255.

Definition to_rgba (c : t) : Z :=
  Z.lor (Z.lor (Z.lor (Z.shiftl (r c) 24) (Z.shiftl (g c) 16)) (Z.shiftl (b c) 8)) (a c).

Definition from_rgba (rgba : Z) : t :=
  mk (Z.land (Z.shiftr rgba 24) 0xFF) (Z.land (Z.shiftr rgba 16) 0xFF)
     (Z.land (Z.shiftr rgba 8) 0xFF) (Z.land rgba 0xFF).

(** [lerp(other, t)]: every channel is [uint8_t(c * inv_t + other.c * t)]. *)
Definition lerp_channel (c other : Z) (inv_t t_ : float) : Z :=
  F32.to_uint8 (F32.add (F32.mul (F32.of_Z c) inv_t) (F32.mul (F32.of_Z other) t_)).

Definition lerp (c other : t) (t_ : float) : t :=
  let inv_t := F32.sub (F32.of_Z 1) t_ in
  mk (lerp_channel (r c) (r other) inv_t t_)
     (lerp_channel (g c) (g other) inv_t t_)
     (lerp_channel (b c) (b other) inv_t t_)
     (lerp_channel (a c) (a other) inv_t t_).
End Color.

(** [BoundedValue<T, Min, Max>]: the stored value is the clamped one, both
    at construction and at assignment. *)
Definition clampZ (v lo hi : Z) : Z :=
  if v <? lo then lo else if hi <? v then hi else v.

Definition BoundedFloat01 (v : float) : float := F32.clamp v F32.zero F32.one.
Definition BoundedFloat10 (v : float) : float := F32.clamp v (F32.lit 1 10) (F32.of_Z 10).
Definition BoundedAngle (v : float) : float := F32.clamp v F32.zero (F32.of_Z 360).
Definition BoundedInt (lo hi : Z) (v : Z) : Z := clampZ v lo hi.

(* ================================================================== *)
(** * random.hpp *)

(** The <random> facilities [Random] is built on: the engine
    [std::mt19937], [std::uniform_real_distribution<float>(0, 1)] and
    [std::uniform_int_distribution<int>(min, max)] drawing from it.  The
    distributions keep nothing from one draw to the next (the real one is a
    [static thread_local] of [next_float], the integer one is built anew in
    every [next_int]): a draw is a function of the engine alone. *)
Record StdRandom := {
  engine : Type;
  engine_seed : Z -> engine;
  uniform_real01 : engine -> float * engine;
  uniform_int : Z -> Z -> engine -> Z * engine
}.

Module Random.
Section WithStd.
Variable R : StdRandom.

(** The class holds one [std::mt19937 generator_]. *)
Definition t := engine R.

Definition make (seed : Z) : t := engine_seed R seed.

(** [next_float()]: a float in [0, 1). *)
Definition next_float (g : t) : float * t := uniform_real01 R g.

(** [next_float(min, max)]: [min + next_float() * (max - min)]. *)
Definition next_float_in (lo hi : float) (g : t) : float * t :=
  let '(u, g') := next_float g in
  (F32.add lo (F32.mul u (F32.sub hi lo)), g').

Definition next_int (lo hi : Z) (g : t) : Z * t := uniform_int R lo hi g.

Definition next_bool (probability : float) (g : t) : bool * t :=
  let '(u, g') := next_float g in (F32.ltb u probability, g').

Variable M : Libm.

(** [next_point_in_circle(radius)].  [2.0f * M_PI] is a [double] product,
    narrowed to the [float] parameter of [next_float]. *)
Definition next_point_in_circle (radius : float) (g : t) : Point2Df.t * t :=
  let two_pi := F64.to_f32 (F64.mul (F64.of_f32 (F32.of_Z 2)) F64.M_PI) in
  let '(angle, g) := next_float_in F32.zero two_pi g in
  let '(u, g) := next_float g in
  let r := F32.mul (F32.sqrt u) radius in
  (Point2Df.mk (F32.mul r (cosf M angle)) (F32.mul r (sinf M angle)), g).

Definition next_point_in_rect (rect : Rect2Df.t) (g : t) : Point2Df.t * t :=
  let '(px, g) :=
    next_float_in (Point2Df.x (Rect2Df.min rect)) (Point2Df.x (Rect2Df.max rect)) g in
  let '(py, g) :=
    next_float_in (Point2Df.y (Rect2Df.min rect)) (Point2Df.y (Rect2Df.max rect)) g in
  (Point2Df.mk px py, g).
End WithStd.
End Random.

(* ================================================================== *)
(** * tree_parameters.hpp *)

Inductive TreeType := Oak | Pine | Palm | Birch | Willow | Dead | Custom.

Module GrowthStage.
Inductive t := Seed | Sapling | Young | Mature | Old | Dead.

(** The underlying [uint8_t] of the enumerator. *)
Definition to_Z (s : t) : Z :=
  match s with
  | Seed => 0 | Sapling => 1 | Young => 2 | Mature => 3 | Old => 4 | Dead => 5
  end.
End GrowthStage.

Inductive Season := Spring | Summer | Autumn | Winter.

Module BranchParameters.
Record t := mk {
  base_thickness : float;          (* BoundedFloat10 *)
  thickness_decay : float;         (* BoundedFloat01 *)
  branch_probability : float;      (* BoundedFloat01 *)
  branch_angle_variation : float;  (* BoundedFloat01 *)
  max_depth : Z;                   (* BoundedValue<int, 1, 10> *)
  max_branches : Z;                (* BoundedValue<int, 8, 64> *)
  curvature : float;               (* BoundedFloat01 *)
  asymmetry : float                (* BoundedFloat01 *)
}.

Definition default : t :=
  mk (BoundedFloat10 (F32.of_Z 2))
     (BoundedFloat01 (F32.lit 8 10))
     (BoundedFloat01 (F32.lit 7 10))
     (BoundedFloat01 (F32.lit 3 10))
     (BoundedInt 1 10 5)
     (BoundedInt 8 64 32)
     (BoundedFloat01 (F32.lit 1 10))
     (BoundedFloat01 (F32.lit 2 10)).

Definition set_base_thickness (v : float) (p : t) : t :=
  mk (BoundedFloat10 v) (thickness_decay p) (branch_probability p)
     (branch_angle_variation p) (max_depth p) (max_branches p) (curvature p) (asymmetry p).
Definition set_branch_probability (v : float) (p : t) : t :=
  mk (base_thickness p) (thickness_decay p) (BoundedFloat01 v)
     (branch_angle_variation p) (max_depth p) (max_branches p) (curvature p) (asymmetry p).
Definition set_branch_angle_variation (v : float) (p : t) : t :=
  mk (base_thickness p) (thickness_decay p) (branch_probability p)
     (BoundedFloat01 v) (max_depth p) (max_branches p) (curvature p) (asymmetry p).
Definition set_max_depth (v : Z) (p : t) : t :=
  mk (base_thickness p) (thickness_decay p) (branch_probability p)
     (branch_angle_variation p) (BoundedInt 1 10 v) (max_branches p) (curvature p) (asymmetry p).
Definition set_curvature (v : float) (p : t) : t :=
  mk (base_thickness p) (thickness_decay p) (branch_probability p)
     (branch_angle_variation p) (max_depth p) (max_branches p) (BoundedFloat01 v) (asymmetry p).
End BranchParameters.

Module LeafParameters.
Record t := mk {
  density : float;                 (* BoundedFloat01 *)
  size_base : float;               (* BoundedFloat10 *)
  size_variation : float;          (* BoundedFloat01 *)
  color_variation : float;         (* BoundedFloat01 *)
  base_colors : list Color.t;      (* std::array<Color, 4> *)
  alpha_variation : float          (* BoundedFloat01 *)
}.

Definition default : t :=
  mk (BoundedFloat01 (F32.lit 8 10))
     (BoundedFloat10 (F32.of_Z 3))
     (BoundedFloat01 (F32.lit 3 10))
     (BoundedFloat01 (F32.lit 2 10))
     [Color.rgb 34 139 34; Color.rgb 50 205 50; Color.rgb 107 142 35; Color.rgb 85 107 47]
     (BoundedFloat01 (F32.lit 1 10)).

Definition set_density (v : float) (p : t) : t :=
  mk (BoundedFloat01 v) (size_base p) (size_variation p) (color_variation p)
     (base_colors p) (alpha_variation p).
Definition set_size_base (v : float) (p : t) : t :=
  mk (density p) (BoundedFloat10 v) (size_variation p) (color_variation p)
     (base_colors p) (alpha_variation p).
Definition set_base_colors (v : list Color.t) (p : t) : t :=
  mk (density p) (size_base p) (size_variation p) (color_variation p)
     v (alpha_variation p).
End LeafParameters.

Module TrunkParameters.
Record t := mk {
  base_color : Color.t;
  color_variation : float;         (* BoundedFloat01 *)
  texture_noise : float;           (* BoundedFloat01 *)
  bark_detail : float              (* BoundedFloat01 *)
}.

Definition default : t :=
  mk (Color.rgb 101 67 33)
     (BoundedFloat01 (F32.lit 15 100))
     (BoundedFloat01 (F32.lit 1 10))
     (BoundedFloat01 F32.zero).

Definition set_base_color (v : Color.t) (p : t) : t :=
  mk v (color_variation p) (texture_noise p) (bark_detail p).
Definition set_color_variation (v : float) (p : t) : t :=
  mk (base_color p) (BoundedFloat01 v) (texture_noise p) (bark_detail p).
End TrunkParameters.

Module TreeParameters.
Record t := mk {
  type : TreeType;
  growth_stage : GrowthStage.t;
  season : Season;
  canvas_width : Z;                (* BoundedValue<int, 16, 512> *)
  canvas_height : Z;               (* BoundedValue<int, 16, 512> *)
  overall_scale : float;           (* BoundedFloat10 *)
  branches : BranchParameters.t;
  leaves : LeafParameters.t;
  trunk : TrunkParameters.t;
  wind_direction : float;          (* BoundedAngle *)
  wind_strength : float;           (* BoundedFloat01 *)
  age_factor : float;              (* BoundedFloat01 *)
  random_seed : Z;                 (* uint32_t, 0 = use random seed *)
  determinism : float              (* BoundedFloat01 *)
}.

Definition default : t :=
  mk Oak GrowthStage.Mature Summer
     (BoundedInt 16 512 128) (BoundedInt 16 512 128)
     (BoundedFloat10 (F32.of_Z 1))
     BranchParameters.default LeafParameters.default TrunkParameters.default
     (BoundedAngle F32.zero) (BoundedFloat01 F32.zero) (BoundedFloat01 (F32.lit 5 10))
     0
     (BoundedFloat01 (F32.lit 8 10)).

Definition set_type (v : TreeType) (p : t) : t :=
  mk v (growth_stage p) (season p) (canvas_width p) (canvas_height p)
     (overall_scale p) (branches p) (leaves p) (trunk p)
     (wind_direction p) (wind_strength p) (age_factor p) (random_seed p) (determinism p).
Definition set_season (v : Season) (p : t) : t :=
  mk (type p) (growth_stage p) v (canvas_width p) (canvas_height p)
     (overall_scale p) (branches p) (leaves p) (trunk p)
     (wind_direction p) (wind_strength p) (age_factor p) (random_seed p) (determinism p).
Definition set_canvas_width (v : Z) (p : t) : t :=
  mk (type p) (growth_stage p) (season p) (BoundedInt 16 512 v) (canvas_height p)
     (overall_scale p) (branches p) (leaves p) (trunk p)
     (wind_direction p) (wind_strength p) (age_factor p) (random_seed p) (determinism p).
Definition set_canvas_height (v : Z) (p : t) : t :=
  mk (type p) (growth_stage p) (season p) (canvas_width p) (BoundedInt 16 512 v)
     (overall_scale p) (branches p) (leaves p) (trunk p)
     (wind_direction p) (wind_strength p) (age_factor p) (random_seed p) (determinism p).
Definition set_overall_scale (v : float) (p : t) : t :=
  mk (type p) (growth_stage p) (season p) (canvas_width p) (canvas_height p)
     (BoundedFloat10 v) (branches p) (leaves p) (trunk p)
     (wind_direction p) (wind_strength p) (age_factor p) (random_seed p) (determinism p).
Definition set_branches (v : BranchParameters.t) (p : t) : t :=
  mk (type p) (growth_stage p) (season p) (canvas_width p) (canvas_height p)
     (overall_scale p) v (leaves p) (trunk p)
     (wind_direction p) (wind_strength p) (age_factor p) (random_seed p) (determinism p).
Definition set_leaves (v : LeafParameters.t) (p : t) : t :=
  mk (type p) (growth_stage p) (season p) (canvas_width p) (canvas_height p)
     (overall_scale p) (branches p) v (trunk p)
     (wind_direction p) (wind_strength p) (age_factor p) (random_seed p) (determinism p).
Definition set_trunk (v : TrunkParameters.t) (p : t) : t :=
  mk (type p) (growth_stage p) (season p) (canvas_width p) (canvas_height p)
     (overall_scale p) (branches p) (leaves p) v
     (wind_direction p) (wind_strength p) (age_factor p) (random_seed p) (determinism p).
(** [random_seed] is a plain [uint32_t]: the assignment keeps 32 bits. *)
Definition set_random_seed (v : Z) (p : t) : t :=
  mk (type p) (growth_stage p) (season p) (canvas_width p) (canvas_height p)
     (overall_scale p) (branches p) (leaves p) (trunk p)
     (wind_direction p) (wind_strength p) (age_factor p) (v mod 2 ^ 32) (determinism p).

(** The [switch (type)] of [validate]. *)
Definition adjust_for_type (p : t) : t :=
  match type p with
  | Pine =>
      let p1 := set_branches
        (BranchParameters.set_branch_angle_variation
           (F32.min (BranchParameters.branch_angle_variation (branches p)) (F32.lit 2 10))
           (branches p)) p in
      set_leaves
        (LeafParameters.set_density
           (F32.min (LeafParameters.density (leaves p1)) (F32.lit 6 10)) (leaves p1)) p1
  | Palm =>
      let p1 := set_branches
        (BranchParameters.set_max_depth
           (Z.min (BranchParameters.max_depth (branches p)) 3) (branches p)) p in
      set_branches
        (BranchParameters.set_curvature
           (F32.max (BranchParameters.curvature (branches p1)) (F32.lit 3 10)) (branches p1)) p1
  | Willow =>
      set_branches
        (BranchParameters.set_curvature
           (F32.max (BranchParameters.curvature (branches p)) (F32.lit 4 10)) (branches p)) p
  | Dead =>
      let p1 := set_leaves (LeafParameters.set_density F32.zero (leaves p)) p in
      set_trunk
        (TrunkParameters.set_color_variation
           (F32.max (TrunkParameters.color_variation (trunk p1)) (F32.lit 3 10)) (trunk p1)) p1
  | _ => p
  end.

(** [overall_scale = overall_scale * (0.2f + 0.8f * growth_factor)]. *)
Definition adjust_for_growth (p : t) : t :=
  let growth_factor :=
    F32.div (F32.of_Z (GrowthStage.to_Z (growth_stage p)))
            (F32.of_Z (GrowthStage.to_Z GrowthStage.Mature)) in
  set_overall_scale
    (F32.mul (overall_scale p)
             (F32.add (F32.lit 2 10) (F32.mul (F32.lit 8 10) growth_factor))) p.

Definition adjust_for_season (p : t) : t :=
  match season p with
  | Autumn =>
      set_leaves
        (LeafParameters.set_base_colors
           [Color.rgb 255 140 0; Color.rgb 255 165 0; Color.rgb 255 69 0; Color.rgb 139 69 19]
           (leaves p)) p
  | Winter =>
      set_leaves
        (LeafParameters.set_density
           (F32.mul (LeafParameters.density (leaves p)) (F32.lit 3 10)) (leaves p)) p
  | _ => p
  end.

Definition validate (p : t) : t :=
  adjust_for_season (adjust_for_growth (adjust_for_type p)).
End TreeParameters.

(** [TreePresets]. *)
Module TreePresets.
Import TreeParameters.

Definition oak : TreeParameters.t :=
  let p := set_type Oak default in
  let p := set_branches (BranchParameters.set_branch_probability (F32.lit 8 10) (branches p)) p in
  let p := set_branches (BranchParameters.set_max_depth 5 (branches p)) p in
  let p := set_branches (BranchParameters.set_curvature (F32.lit 15 100) (branches p)) p in
  let p := set_leaves (LeafParameters.set_density (F32.lit 9 10) (leaves p)) p in
  set_leaves (LeafParameters.set_size_base (F32.of_Z 4) (leaves p)) p.

Definition pine : TreeParameters.t :=
  let p := set_type Pine default in
  let p := set_branches (BranchParameters.set_branch_probability (F32.lit 6 10) (branches p)) p in
  let p := set_branches (BranchParameters.set_branch_angle_variation (F32.lit 15 100) (branches p)) p in
  let p := set_branches (BranchParameters.set_max_depth 6 (branches p)) p in
  let p := set_leaves (LeafParameters.set_density (F32.lit 7 10) (leaves p)) p in
  set_leaves
    (LeafParameters.set_base_colors
       [Color.rgb 34 139 34; Color.rgb 0 100 0; Color.rgb 46 125 50; Color.rgb 27 94 32]
       (leaves p)) p.

Definition palm : TreeParameters.t :=
  let p := set_type Palm default in
  let p := set_branches (BranchParameters.set_max_depth 2 (branches p)) p in
  let p := set_branches (BranchParameters.set_curvature (F32.lit 4 10) (branches p)) p in
  let p := set_branches (BranchParameters.set_base_thickness (F32.lit 15 10) (branches p)) p in
  let p := set_leaves (LeafParameters.set_density (F32.lit 4 10) (leaves p)) p in
  set_leaves (LeafParameters.set_size_base (F32.of_Z 8) (leaves p)) p.

Definition dead : TreeParameters.t :=
  let p := set_type Dead default in
  let p := set_branches (BranchParameters.set_branch_probability (F32.lit 5 10) (branches p)) p in
  let p := set_leaves (LeafParameters.set_density F32.zero (leaves p)) p in
  let p := set_trunk (TrunkParameters.set_base_color (Color.rgb 101 67 33) (trunk p)) p in
  set_trunk (TrunkParameters.set_color_variation (F32.lit 4 10) (trunk p)) p.
End TreePresets.

(* ================================================================== *)
(** * tree_structure.hpp *)

(** A [std::shared_ptr<Branch>] is the index of the branch in the arena
    [all_branches]; a null pointer is [None].  Writing through a pointer
    (the [children.push_back] on the parent) is an update of the arena cell,
    so every holder of the index sees it. *)
Module Branch.
Record t := mk {
  parent : option nat;
  children : list nat;
  start_point : Point2Df.t;
  end_point : Point2Df.t;
  thickness : float;
  curvature : float;
  color : Color.t;
  depth_level : Z;
  generation_id : Z;
  growth_factor : float
}.

(** The constructor [Branch(start, end, thick, depth)]. *)
Definition make (start end_ : Point2Df.t) (thick : float) (depth : Z) : t :=
  mk None [] start end_ thick F32.zero (Color.rgb 101 67 33) depth 0 F32.one.

Definition set_color (c : Color.t) (b : t) : t :=
  mk (parent b) (children b) (start_point b) (end_point b) (thickness b)
     (curvature b) c (depth_level b) (generation_id b) (growth_factor b).
Definition set_parent (p : option nat) (b : t) : t :=
  mk p (children b) (start_point b) (end_point b) (thickness b)
     (curvature b) (color b) (depth_level b) (generation_id b) (growth_factor b).
Definition push_child (c : nat) (b : t) : t :=
  mk (parent b) (children b ++ [c]) (start_point b) (end_point b) (thickness b)
     (curvature b) (color b) (depth_level b) (generation_id b) (growth_factor b).

Definition is_leaf (b : t) : bool :=
  match children b with [] => true | _ => false end.

Definition bounding_box (b : t) : Rect2Df.t :=
  let half_thickness := F32.mul (thickness b) (F32.lit 5 10) in
  let s := start_point b in
  let e := end_point b in
  Rect2Df.mk
    (Point2Df.mk (F32.sub (F32.min (Point2Df.x s) (Point2Df.x e)) half_thickness)
                 (F32.sub (F32.min (Point2Df.y s) (Point2Df.y e)) half_thickness))
    (Point2Df.mk (F32.add (F32.max (Point2Df.x s) (Point2Df.x e)) half_thickness)
                 (F32.add (F32.max (Point2Df.y s) (Point2Df.y e)) half_thickness)).
End Branch.

Module LeafCluster.
Inductive Shape := Circle | Ellipse | Spiky | Scattered.

Record t := mk {
  position : Point2Df.t;
  size : float;
  color : Color.t;
  leaf_positions : list Point2Df.t;
  shape : Shape
}.

(** The constructor [LeafCluster(pos, sz, col)]; [shape] starts as [Circle]. *)
Definition make (pos : Point2Df.t) (sz : float) (col : Color.t) : t :=
  mk pos sz col [] Circle.

Definition set_shape (s : Shape) (c : t) : t :=
  mk (position c) (size c) (color c) (leaf_positions c) s.

Definition bounding_box (c : t) : Rect2Df.t :=
  let p := position c in
  Rect2Df.mk
    (Point2Df.mk (F32.sub (Point2Df.x p) (size c)) (F32.sub (Point2Df.y p) (size c)))
    (Point2Df.mk (F32.add (Point2Df.x p) (size c)) (F32.add (Point2Df.y p) (size c))).

Definition set_leaf_positions (ps : list Point2Df.t) (c : t) : t :=
  mk (position c) (size c) (color c) ps (shape c).

Section WithStd.
Variable R : StdRandom.
Variable M : Libm.

(** The [switch (shape)] of [generate_leaves]: the offset of one leaf. *)
Definition leaf_offset (c : t) (rng : Random.t R) : Point2Df.t * Random.t R :=
  match shape c with
  | Circle => Random.next_point_in_circle R M (size c) rng
  | Ellipse =>
      let '(leaf_pos, rng) := Random.next_point_in_circle R M (size c) rng in
      (Point2Df.mk (F32.mul (Point2Df.x leaf_pos) (F32.lit 15 10)) (Point2Df.y leaf_pos), rng)
  | Spiky =>
      let '(leaf_pos, rng) := Random.next_point_in_circle R M (size c) rng in
      let '(j, rng) := Random.next_float_in R (F32.lit (-3) 10) (F32.lit 5 10) rng in
      (Point2Df.scale leaf_pos (F32.add (F32.of_Z 1) j), rng)
  | Scattered =>
      Random.next_point_in_circle R M (F32.mul (size c) (F32.lit 15 10)) rng
  end.

(** The loop [for (int i = 0; i < leaf_count; ++i)], [n] rounds to go. *)
Fixpoint generate_leaves_loop (n : nat) (c : t) (rng : Random.t R) : t * Random.t R :=
  match n with
  | O => (c, rng)
  | S n' =>
      let '(leaf_pos, rng) := leaf_offset c rng in
      generate_leaves_loop n'
        (set_leaf_positions (leaf_positions c ++ [Point2Df.add (position c) leaf_pos]) c) rng
  end.

(** [generate_leaves(rng, leaf_count)].  [reserve] takes a [size_t]: a
    negative [leaf_count] becomes a size beyond [max_size()] and [reserve]
    throws [std::length_error], which is [None] here; the positions have
    been cleared by then. *)
Definition generate_leaves (c : t) (rng : Random.t R) (leaf_count : Z)
  : option (t * Random.t R) :=
  let c := set_leaf_positions [] c in
  if leaf_count <? 0 then None
  else Some (generate_leaves_loop (Z.to_nat leaf_count) c rng).
End WithStd.
End LeafCluster.

(** Replace the cell [i] of a vector (nothing happens out of range; the
    interpreter only writes to cells it has created). *)
Fixpoint update_nth {A : Type} (i : nat) (f : A -> A) (l : list A) : list A :=
  match l, i with
  | [], _ => []
  | h :: t, O => f h :: t
  | h :: t, S i' => h :: update_nth i' f t
  end.

Module TreeStructure.
Record t := mk {
  root : option nat;
  all_branches : list Branch.t;
  leaf_clusters : list LeafCluster.t;
  parameters : TreeParameters.t;
  bounding_box : Rect2Df.t;
  generation_id : Z
}.

Definition zero_rect : Rect2Df.t :=
  Rect2Df.mk (Point2Df.mk F32.zero F32.zero) (Point2Df.mk F32.zero F32.zero).

(** The constructor [TreeStructure(params)]. *)
Definition make (params : TreeParameters.t) : t :=
  mk None [] [] params zero_rect 0.

Definition set_root (r : option nat) (s : t) : t :=
  mk r (all_branches s) (leaf_clusters s) (parameters s) (bounding_box s) (generation_id s).
Definition set_all_branches (bs : list Branch.t) (s : t) : t :=
  mk (root s) bs (leaf_clusters s) (parameters s) (bounding_box s) (generation_id s).
Definition set_leaf_clusters (cs : list LeafCluster.t) (s : t) : t :=
  mk (root s) (all_branches s) cs (parameters s) (bounding_box s) (generation_id s).
Definition set_bounding_box (bb : Rect2Df.t) (s : t) : t :=
  mk (root s) (all_branches s) (leaf_clusters s) (parameters s) bb (generation_id s).

(** One step of the two expansion loops of [calculate_bounding_box]. *)
Definition expand (bb box : Rect2Df.t) : Rect2Df.t :=
  Rect2Df.mk
    (Point2Df.mk
       (F32.min (Point2Df.x (Rect2Df.min bb)) (Point2Df.x (Rect2Df.min box)))
       (F32.min (Point2Df.y (Rect2Df.min bb)) (Point2Df.y (Rect2Df.min box))))
    (Point2Df.mk
       (F32.max (Point2Df.x (Rect2Df.max bb)) (Point2Df.x (Rect2Df.max box)))
       (F32.max (Point2Df.y (Rect2Df.max bb)) (Point2Df.y (Rect2Df.max box)))).

Definition calculate_bounding_box (s : t) : t :=
  match all_branches s with
  | [] => set_bounding_box zero_rect s
  | first :: _ =>
      let bb := Branch.bounding_box first in
      let bb := fold_left (fun acc b => expand acc (Branch.bounding_box b)) (all_branches s) bb in
      let bb := fold_left (fun acc c => expand acc (LeafCluster.bounding_box c)) (leaf_clusters s) bb in
      set_bounding_box bb s
  end.

(** [Branch::get_leaf_branches], the recursion over [children]; a leaf
    branch contributes the pointer to itself, here its index.  The recursion
    follows arena indices, so it is bounded by a fuel; the number of
    branches is enough, see [get_leaf_branches_fuel]. *)
Fixpoint get_leaf_branches_from (fuel : nat) (arena : list Branch.t) (i : nat) : list nat :=
  match fuel with
  | O => []
  | S fuel' =>
      match nth_error arena i with
      | None => []
      | Some b =>
          if Branch.is_leaf b then [i]
          else flat_map (get_leaf_branches_from fuel' arena) (Branch.children b)
      end
  end.

Definition get_leaf_branches (s : t) : list nat :=
  match root s with
  | None => []
  | Some r => get_leaf_branches_from (List.length (all_branches s)) (all_branches s) r
  end.

Definition branch_count (s : t) : Z := Z.of_nat (List.length (all_branches s)).
Definition leaf_cluster_count (s : t) : Z := Z.of_nat (List.length (leaf_clusters s)).
Definition max_depth (s : t) : Z :=
  fold_left (fun max_d b => Z.max max_d (Branch.depth_level b)) (all_branches s) 0.
End TreeStructure.

(* ================================================================== *)
(** * lsystem.hpp *)

Inductive LSystemRule :=
| GrowthRule (length_factor thickness_factor angle_change : float)
| SplitRule (branch_count : Z) (angle_spread thickness_split : float)
| TerminateRule (probability : float).

Module LSystemState.
Record t := mk {
  position : Point2Df.t;
  direction : Point2Df.t;
  thickness : float;
  depth : Z;
  color : Color.t
}.

Definition set_position (p : Point2Df.t) (s : t) : t :=
  mk p (direction s) (thickness s) (depth s) (color s).
Definition set_direction (d : Point2Df.t) (s : t) : t :=
  mk (position s) d (thickness s) (depth s) (color s).
End LSystemState.

Module LSystemGenerator.
(** The member [rules_], a map from symbol to rule. *)
Definition t := list (ascii * LSystemRule).

Definition setup_rules (type : TreeType) : t :=
  match type with
  | Oak =>
      [("F"%char, GrowthRule (F32.of_Z 1) (F32.lit 9 10) F32.zero);
       ("["%char, SplitRule 2 (F32.of_Z 35) (F32.lit 7 10));
       ("]"%char, TerminateRule (F32.lit 1 10))]
  | Pine =>
      [("F"%char, GrowthRule (F32.lit 12 10) (F32.lit 8 10) F32.zero);
       ("["%char, SplitRule 3 (F32.of_Z 25) (F32.lit 6 10));
       ("]"%char, TerminateRule (F32.lit 2 10))]
  | Palm =>
      [("F"%char, GrowthRule (F32.lit 15 10) (F32.lit 9 10) (F32.of_Z 10));
       ("["%char, SplitRule 5 (F32.of_Z 60) (F32.lit 8 10));
       ("]"%char, TerminateRule (F32.lit 8 10))]
  | _ =>
      [("F"%char, GrowthRule (F32.of_Z 1) (F32.lit 9 10) F32.zero);
       ("["%char, SplitRule 2 (F32.of_Z 30) (F32.lit 7 10));
       ("]"%char, TerminateRule (F32.lit 1 10))]
  end.

Section WithStd.
Variable R : StdRandom.
Variable M : Libm.

(** The inner loop of [generate_string]: one left-to-right pass. *)
Fixpoint rewrite (probability : float) (result : string) (rng : Random.t R)
  : string * Random.t R :=
  match result with
  | EmptyString => (EmptyString, rng)
  | String c rest =>
      if Ascii.eqb c "F" then
        let '(u, rng) := Random.next_float R rng in
        let emitted := if F32.ltb u probability then "F[+F][-F]"%string else "F"%string in
        let '(next_result, rng) := rewrite probability rest rng in
        ((emitted ++ next_result)%string, rng)
      else
        let '(next_result, rng) := rewrite probability rest rng in
        (String c next_result, rng)
  end.

(** The outer loop: [iteration] counts the passes left. *)
Fixpoint iterate (iteration : nat) (probability : float) (result : string)
  (rng : Random.t R) : string * Random.t R :=
  match iteration with
  | O => (result, rng)
  | S iteration' =>
      let '(next_result, rng) := rewrite probability result rng in
      iterate iteration' probability next_result rng
  end.

Definition generate_string (params : TreeParameters.t) (rng : Random.t R)
  : string * Random.t R :=
  iterate (Z.to_nat (BranchParameters.max_depth (TreeParameters.branches params)))
          (BranchParameters.branch_probability (TreeParameters.branches params))
          "F"%string rng.

(** [angle_degrees * M_PI / 180.0f] is computed in [double] and stored in
    a [float]. *)
Definition rotate_vector (vec : Point2Df.t) (angle_degrees : float) : Point2Df.t :=
  let angle_rad :=
    F64.to_f32 (F64.div (F64.mul (F64.of_f32 angle_degrees) F64.M_PI)
                        (F64.of_f32 (F32.of_Z 180))) in
  let cos_a := cosf M angle_rad in
  let sin_a := sinf M angle_rad in
  Point2Df.mk
    (F32.sub (F32.mul (Point2Df.x vec) cos_a) (F32.mul (Point2Df.y vec) sin_a))
    (F32.add (F32.mul (Point2Df.x vec) sin_a) (F32.mul (Point2Df.y vec) cos_a)).

(** What the loop of [string_to_tree] carries from symbol to symbol. *)
Record interp := mk_interp {
  tree : TreeStructure.t;
  state_stack : list LSystemState.t;   (* the back of the vector is the head *)
  current_state : LSystemState.t;
  current_branch : option nat;
  rng_ : Random.t R
}.

(** The [switch (c)]. *)
Definition interpret (params : TreeParameters.t) (c : ascii) (i : interp) : interp :=
  let st := current_state i in
  if Ascii.eqb c "F" then
    let branch_length := F32.mul (F32.of_Z 15) (TreeParameters.overall_scale params) in
    let end_pos :=
      Point2Df.add (LSystemState.position st)
                   (Point2Df.scale (LSystemState.direction st) branch_length) in
    let branch :=
      Branch.set_color (LSystemState.color st)
        (Branch.make (LSystemState.position st) end_pos
                     (LSystemState.thickness st) (LSystemState.depth st)) in
    let id := List.length (TreeStructure.all_branches (tree i)) in
    let '(tr, branch) :=
      match TreeStructure.root (tree i), current_branch i with
      | None, _ => (TreeStructure.set_root (Some id) (tree i), branch)
      | Some _, Some cb =>
          (TreeStructure.set_all_branches
             (update_nth cb (Branch.push_child id) (TreeStructure.all_branches (tree i)))
             (tree i),
           Branch.set_parent (Some cb) branch)
      | Some _, None => (tree i, branch)
      end in
    let tr := TreeStructure.set_all_branches (TreeStructure.all_branches tr ++ [branch]) tr in
    mk_interp tr (state_stack i) (LSystemState.set_position end_pos st) (Some id) (rng_ i)
  else if Ascii.eqb c "[" then
    mk_interp (tree i) (st :: state_stack i) st (current_branch i) (rng_ i)
  else if Ascii.eqb c "]" then
    match state_stack i with
    | [] => i
    | top :: rest => mk_interp (tree i) rest top (current_branch i) (rng_ i)
    end
  else if Ascii.eqb c "+" then
    let '(u, rng) := Random.next_float_in R (F32.of_Z (-45)) (F32.of_Z 45) (rng_ i) in
    let angle :=
      F32.mul u (BranchParameters.branch_angle_variation (TreeParameters.branches params)) in
    mk_interp (tree i) (state_stack i)
              (LSystemState.set_direction (rotate_vector (LSystemState.direction st) angle) st)
              (current_branch i) rng
  else if Ascii.eqb c "-" then
    let '(u, rng) := Random.next_float_in R (F32.of_Z (-45)) (F32.of_Z 45) (rng_ i) in
    let angle :=
      F32.mul u (BranchParameters.branch_angle_variation (TreeParameters.branches params)) in
    mk_interp (tree i) (state_stack i)
              (LSystemState.set_direction
                 (rotate_vector (LSystemState.direction st) (SFopp angle)) st)
              (current_branch i) rng
  else i.

(** The two statements after the [switch]: decay and depth. *)
Definition decay (params : TreeParameters.t) (i : interp) : interp :=
  let st := current_state i in
  mk_interp (tree i) (state_stack i)
    (LSystemState.mk (LSystemState.position st) (LSystemState.direction st)
       (F32.mul (LSystemState.thickness st)
                (BranchParameters.thickness_decay (TreeParameters.branches params)))
       (LSystemState.depth st + 1)
       (LSystemState.color st))
    (current_branch i) (rng_ i).

Definition step (params : TreeParameters.t) (c : ascii) (i : interp) : interp :=
  decay params (interpret params c i).

Fixpoint run (params : TreeParameters.t) (lstring : string) (i : interp) : interp :=
  match lstring with
  | EmptyString => i
  | String c rest => run params rest (step params c i)
  end.

Definition start (params : TreeParameters.t) (rng : Random.t R) : interp :=
  let start_pos :=
    Point2Df.mk
      (F32.mul (F32.of_Z (TreeParameters.canvas_width params)) (F32.lit 5 10))
      (F32.mul (F32.of_Z (TreeParameters.canvas_height params)) (F32.lit 9 10)) in
  let start_dir := Point2Df.mk F32.zero (F32.of_Z (-1)) in
  mk_interp (TreeStructure.make params) []
    (LSystemState.mk start_pos start_dir
       (BranchParameters.base_thickness (TreeParameters.branches params))
       0 (TrunkParameters.base_color (TreeParameters.trunk params)))
    None rng.

Definition string_to_tree (lstring : string) (params : TreeParameters.t)
  (rng : Random.t R) : TreeStructure.t * Random.t R :=
  let i := run params lstring (start params rng) in
  (tree i, rng_ i).
End WithStd.
End LSystemGenerator.

(* ================================================================== *)
(** * pixel_buffer.hpp *)

(** [static_cast<int>] of a wider or unsigned value, and the value of an
    [int] sum that leaves the range: the low 32 bits, read as signed. *)
Definition wrap32 (z : Z) : Z := (z + 2 ^ 31) mod 2 ^ 32 - 2 ^ 31.

(** [for (int i = lo; i < hi; ++i)] *)
Fixpoint for_loop {A : Type} (n : nat) (i : Z) (body : Z -> A -> A) (acc : A) : A :=
  match n with
  | O => acc
  | S n' => for_loop n' (i + 1) body (body i acc)
  end.

Definition for_int {A : Type} (lo hi : Z) (body : Z -> A -> A) (acc : A) : A :=
  for_loop (Z.to_nat (hi - lo)) lo body acc.

(** [PixelBuffer<uint32_t>]: [width_] and [height_] are [size_t], the
    pixels are stored row by row. *)
Module PixelBuffer.
Record t := mk { data_ : list Z; width_ : Z; height_ : Z }.

Definition width (b : t) : Z := width_ b.
Definition height (b : t) : Z := height_ b.
(** [size()]: the [size_t] product [width_ * height_], taken in [Z].  The
    buffers modelled are those with fewer than 2^64 pixels, where the
    product does not wrap; a buffer such as [PixelBuffer(2^63, 2)], whose
    product wraps to 0, holds fewer pixels than its dimensions say and is
    outside the model.  The statement on [empty()] and on the pixels the
    constructor allocates carries this bound; a rendered canvas has [int]
    dimensions, whose product is below it. *)
Definition size (b : t) : Z := width_ b * height_ b.

(** [clear(value)]: [std::fill] over [size()] pixels. *)
Definition clear (value : Z) (b : t) : t :=
  mk (repeat value (Z.to_nat (size b))) (width_ b) (height_ b).

(** The constructor [PixelBuffer(width, height)]: [width * height] pixels,
    the product as in [size]. *)
Definition make (width height : Z) : t :=
  clear 0 (mk (repeat 0 (Z.to_nat (width * height))) width height).

(** The default constructor. *)
Definition empty_buffer : t := mk [] 0 0.

Definition empty (b : t) : bool := size b =? 0.

(** [clone()]: a buffer of the same dimensions, then [std::copy] of the
    [size()] pixels over its own. *)
Definition clone (b : t) : t :=
  let result := make (width_ b) (height_ b) in
  mk (firstn (Z.to_nat (size b)) (data_ b) ++ skipn (Z.to_nat (size b)) (data_ result))
     (width_ result) (height_ result).

(** [at(x, y)], with [size_t] arguments; [None] is the thrown
    [std::out_of_range]. *)
Definition at_ (b : t) (x y : Z) : option Z :=
  if (width_ b <=? x) || (height_ b <=? y) then None
  else Some (nth (Z.to_nat (y * width_ b + x)) (data_ b) 0).

(** [operator()(x, y)], reading and writing.  Outside the array the C++
    access is undefined; here a read gives 0 and a write is dropped. *)
Definition get (b : t) (x y : Z) : Z :=
  nth (Z.to_nat (y * width_ b + x)) (data_ b) 0.

Definition set (b : t) (x y : Z) (v : Z) : t :=
  mk (update_nth (Z.to_nat (y * width_ b + x)) (fun _ => v) (data_ b))
     (width_ b) (height_ b).

Definition contains (b : t) (x y : Z) : bool :=
  (0 <=? x) && (x <? wrap32 (width_ b)) && (0 <=? y) && (y <? wrap32 (height_ b)).

(** The two nested loops shared by [blit] and [blit_with_alpha].
    [source] reads the source pixel; it is given the destination as it is
    at that moment, so that a buffer blitted onto itself is covered.
    [combine dest_pixel src_pixel] is what is stored. *)
Definition blit_loop (source : t -> Z -> Z -> Z) (src_width src_height : Z)
  (combine : Z -> Z -> Z) (position : Point2Di.t) (dest : t) : t :=
  for_int 0 src_height (fun y dest =>
    for_int 0 src_width (fun x dest =>
      let dest_x := wrap32 (Point2Di.x position + x) in
      let dest_y := wrap32 (Point2Di.y position + y) in
      if contains dest dest_x dest_y
      then set dest dest_x dest_y (combine (get dest dest_x dest_y) (source dest x y))
      else dest) dest) dest.


(** [b.blit(b, position)]: the source is the destination itself. *)
Definition blit_self (dest : t) (position : Point2Di.t) : t :=
  blit_loop (fun current => get current) (wrap32 (width dest)) (wrap32 (height dest))
            (fun _ src_pixel => src_pixel) position dest.

Definition blend_pixels (background foreground : Z) : Z :=
  let alpha := Z.land foreground 0xFF in
  if alpha =? 0 then background
  else if alpha =? 255 then foreground
  else
    let a := F32.div (F32.of_Z alpha) (F32.of_Z 255) in
    let inv_a := F32.sub (F32.of_Z 1) a in
    let bg_r := Z.land (Z.shiftr background 24) 0xFF in
    let bg_g := Z.land (Z.shiftr background 16) 0xFF in
    let bg_b := Z.land (Z.shiftr background 8) 0xFF in
    let fg_r := Z.land (Z.shiftr foreground 24) 0xFF in
    let fg_g := Z.land (Z.shiftr foreground 16) 0xFF in
    let fg_b := Z.land (Z.shiftr foreground 8) 0xFF in
    let blend bg fg :=
      F32.to_uint8 (F32.add (F32.mul (F32.of_Z bg) inv_a) (F32.mul (F32.of_Z fg) a)) in
    let result_r := blend bg_r fg_r in
    let result_g := blend bg_g fg_g in
    let result_b := blend bg_b fg_b in
    (Z.lor (Z.lor (Z.lor (Z.shiftl result_r 24) (Z.shiftl result_g 16))
                  (Z.shiftl result_b 8)) 255) mod 2 ^ 32.

Definition blit_with_alpha (dest source : t) (position : Point2Di.t) : t :=
  blit_loop (fun _ => get source) (wrap32 (width source)) (wrap32 (height source))
            blend_pixels position dest.
End PixelBuffer.

(* ================================================================== *)
(** * simd_utils.hpp *)

(** [simd::PixelOperations].  An array is the list of its elements; an
    access beyond it, undefined in C++, reads 0 and writes nothing.  The
    SSE2 and AVX2 stores write 4 and 8 consecutive 32-bit lanes, each
    holding the fill value. *)
Module PixelOperations.
Definition store (i : Z) (value : Z) (data : list Z) : list Z :=
  update_nth (Z.to_nat i) (fun _ => value) data.

Definition clear_buffer_scalar (data : list Z) (count value : Z) : list Z :=
  for_int 0 count (fun i data => store i value data) data.

Definition blend_pixel_scalar (bg fg : Z) : Z :=
  let alpha := Z.land fg 0xFF in
  if alpha =? 0 then bg
  else if alpha =? 255 then fg
  else
    let a := F32.div (F32.of_Z alpha) (F32.of_Z 255) in
    let inv_a := F32.sub (F32.of_Z 1) a in
    let bg_r := Z.land (Z.shiftr bg 24) 0xFF in
    let bg_g := Z.land (Z.shiftr bg 16) 0xFF in
    let bg_b := Z.land (Z.shiftr bg 8) 0xFF in
    let fg_r := Z.land (Z.shiftr fg 24) 0xFF in
    let fg_g := Z.land (Z.shiftr fg 16) 0xFF in
    let fg_b := Z.land (Z.shiftr fg 8) 0xFF in
    let r := F32.to_uint8 (F32.add (F32.mul (F32.of_Z bg_r) inv_a) (F32.mul (F32.of_Z fg_r) a)) in
    let g := F32.to_uint8 (F32.add (F32.mul (F32.of_Z bg_g) inv_a) (F32.mul (F32.of_Z fg_g) a)) in
    let b := F32.to_uint8 (F32.add (F32.mul (F32.of_Z bg_b) inv_a) (F32.mul (F32.of_Z fg_b) a)) in
    (Z.lor (Z.lor (Z.lor (Z.shiftl r 24) (Z.shiftl g 16)) (Z.shiftl b 8)) 255) mod 2 ^ 32.

(** [dest[i] = blend_pixel_scalar(dest[i], src[i])]. *)
Definition blend_at (src : list Z) (i : Z) (dest : list Z) : list Z :=
  update_nth (Z.to_nat i) (fun d => blend_pixel_scalar d (nth (Z.to_nat i) src 0)) dest.

Definition alpha_blend_scalar (dest src : list Z) (count : Z) : list Z :=
  for_int 0 count (fun i dest => blend_at src i dest) dest.

(** [lanes] is 4 for SSE2 and 8 for AVX2. *)
Definition clear_buffer_lanes (lanes : Z) (data : list Z) (count value : Z) : list Z :=
  let simd_count := count / lanes in
  let data :=
    for_int 0 simd_count (fun i data =>
      for_int 0 lanes (fun j data => store (i * lanes + j) value data) data) data in
  for_int (simd_count * lanes) count (fun i data => store i value data) data.

Definition alpha_blend_lanes (lanes : Z) (dest src : list Z) (count : Z) : list Z :=
  let simd_count := count / lanes in
  let dest :=
    for_int 0 simd_count (fun i dest =>
      for_int 0 lanes (fun j dest => blend_at src (i * lanes + j) dest) dest) dest in
  for_int (simd_count * lanes) count (fun i dest => blend_at src i dest) dest.

Definition clear_buffer_sse2 : list Z -> Z -> Z -> list Z := clear_buffer_lanes 4.
Definition clear_buffer_avx2 : list Z -> Z -> Z -> list Z := clear_buffer_lanes 8.
Definition alpha_blend_sse2 : list Z -> list Z -> Z -> list Z := alpha_blend_lanes 4.
Definition alpha_blend_avx2 : list Z -> list Z -> Z -> list Z := alpha_blend_lanes 8.
End PixelOperations.

(* ================================================================== *)
(** * tree_renderer.hpp *)

Module TreeRenderer.
(** The [while (true)] of [draw_line].  Each round that does not break
    moves [x] or [y] one step towards the end point, so [dx + dy + 1]
    rounds are enough. *)
Fixpoint draw_line_loop (fuel : nat) (buffer : PixelBuffer.t)
  (x y err x1 y1 dx dy sx sy color : Z) : PixelBuffer.t :=
  match fuel with
  | O => buffer
  | S fuel' =>
      let buffer :=
        if PixelBuffer.contains buffer x y then PixelBuffer.set buffer x y color
        else buffer in
      if (x =? x1) && (y =? y1) then buffer
      else
        let e2 := 2 * err in
        let '(err, x) := if - dy <? e2 then (err - dy, x + sx) else (err, x) in
        let '(err, y) := if e2 <? dx then (err + dx, y + sy) else (err, y) in
        draw_line_loop fuel' buffer x y err x1 y1 dx dy sx sy color
  end.

Definition draw_line (buffer : PixelBuffer.t) (x0 y0 x1 y1 color : Z) : PixelBuffer.t :=
  let dx := Z.abs (x1 - x0) in
  let dy := Z.abs (y1 - y0) in
  let sx := if x0 <? x1 then 1 else -1 in
  let sy := if y0 <? y1 then 1 else -1 in
  draw_line_loop (Z.to_nat (dx + dy + 1)) buffer x0 y0 (dx - dy) x1 y1 dx dy sx sy color.

Definition draw_thick_line (buffer : PixelBuffer.t) (start end_ : Point2Df.t)
  (thickness : float) (color : Z) : PixelBuffer.t :=
  let x0 := F32.round_to_int (Point2Df.x start) in
  let y0 := F32.round_to_int (Point2Df.y start) in
  let x1 := F32.round_to_int (Point2Df.x end_) in
  let y1 := F32.round_to_int (Point2Df.y end_) in
  let half_thickness := F32.ceil_to_int (F32.mul thickness (F32.lit 5 10)) in
  for_int (- half_thickness) (half_thickness + 1) (fun offset buffer =>
    let buffer := draw_line buffer (x0 + offset) y0 (x1 + offset) y1 color in
    draw_line buffer x0 (y0 + offset) x1 (y1 + offset) color) buffer.

Definition draw_leaf_cluster (buffer : PixelBuffer.t) (cluster : LeafCluster.t)
  : PixelBuffer.t :=
  let center_x := F32.round_to_int (Point2Df.x (LeafCluster.position cluster)) in
  let center_y := F32.round_to_int (Point2Df.y (LeafCluster.position cluster)) in
  let radius := F32.ceil_to_int (LeafCluster.size cluster) in
  let color := Color.to_rgba (LeafCluster.color cluster) in
  for_int (- radius) (radius + 1) (fun y buffer =>
    for_int (- radius) (radius + 1) (fun x buffer =>
      if x * x + y * y <=? radius * radius then
        let pixel_x := center_x + x in
        let pixel_y := center_y + y in
        if PixelBuffer.contains buffer pixel_x pixel_y
        then PixelBuffer.set buffer pixel_x pixel_y color
        else buffer
      else buffer) buffer) buffer.

Definition render_branches (buffer : PixelBuffer.t) (tree : TreeStructure.t)
  : PixelBuffer.t :=
  fold_left (fun buffer branch =>
               draw_thick_line buffer (Branch.start_point branch) (Branch.end_point branch)
                               (Branch.thickness branch) (Color.to_rgba (Branch.color branch)))
            (TreeStructure.all_branches tree) buffer.

Definition render_leaves (buffer : PixelBuffer.t) (tree : TreeStructure.t)
  : PixelBuffer.t :=
  fold_left draw_leaf_cluster (TreeStructure.leaf_clusters tree) buffer.

Definition render (tree : TreeStructure.t) : PixelBuffer.t :=
  let params := TreeStructure.parameters tree in
  let buffer := PixelBuffer.make (TreeParameters.canvas_width params)
                                 (TreeParameters.canvas_height params) in
  let buffer := PixelBuffer.clear 0 buffer in
  let buffer := render_branches buffer tree in
  render_leaves buffer tree.
End TreeRenderer.

(* ================================================================== *)
(** * tree_generator.hpp *)

Module TreeMetadata.
Record t := mk {
  generation_id : Z;
  branch_count : Z;
  leaf_count : Z;
  max_depth : Z;
  generation_time_ms : float;
  bounding_box : Rect2Df.t;
  random_seed : Z
}.
End TreeMetadata.

(** What one call of [generate] observes of the outside world: the value
    [std::random_device{}()] would return, and the two readings of the
    clock, in microseconds. *)
Record Env := {
  random_device : Z;
  start_time : Z;
  end_time : Z
}.

(** [TreeGenerator<uint32_t, 64>]. *)
Module TreeGenerator.
Section WithStd.
Variable R : StdRandom.
Variable M : Libm.

(** The members; [renderer_] has no state. *)
Record t := mk {
  rng_ : Random.t R;
  lsystem_ : LSystemGenerator.t
}.

(** The constructor [TreeGenerator(seed)]. *)
Definition make (seed : Z) (env : Env) : t :=
  mk (Random.make R (if seed =? 0 then random_device env else seed)) [].

Definition cluster_shape (type : TreeType) : LeafCluster.Shape :=
  match type with
  | Pine => LeafCluster.Spiky
  | Palm => LeafCluster.Ellipse
  | Willow => LeafCluster.Scattered
  | _ => LeafCluster.Circle
  end.

(** One channel of [leaf_color]:
    [static_cast<uint8_t>(std::clamp(c * (1.0f + jitter), 0.0f, 255.0f))]. *)
Definition jitter_channel (c : Z) (color_var : float) (rng : Random.t R)
  : Z * Random.t R :=
  let '(j, rng) := Random.next_float_in R (SFopp color_var) color_var rng in
  (F32.to_uint8 (F32.clamp (F32.mul (F32.of_Z c) (F32.add (F32.of_Z 1) j))
                           F32.zero (F32.of_Z 255)),
   rng).

(** The body of the loop of [generate_leaf_clusters] for one leaf
    branch. *)
Definition leaf_cluster_for (tree : TreeStructure.t) (branch : Branch.t)
  (acc : list LeafCluster.t * Random.t R) : list LeafCluster.t * Random.t R :=
  let '(clusters, rng) := acc in
  let leaves := TreeParameters.leaves (TreeStructure.parameters tree) in
  let '(u, rng) := Random.next_float R rng in
  if F32.ltb u (LeafParameters.density leaves) then
    let base_size := LeafParameters.size_base leaves in
    let size_var := LeafParameters.size_variation leaves in
    let '(j, rng) := Random.next_float_in R (SFopp size_var) size_var rng in
    let cluster_size := F32.mul base_size (F32.add (F32.of_Z 1) j) in
    let '(k, rng) := Random.next_int R 0 3 rng in
    let base_color := nth (Z.to_nat k) (LeafParameters.base_colors leaves) (Color.rgb 0 0 0) in
    let color_var := LeafParameters.color_variation leaves in
    let '(cr, rng) := jitter_channel (Color.r base_color) color_var rng in
    let '(cg, rng) := jitter_channel (Color.g base_color) color_var rng in
    let '(cb, rng) := jitter_channel (Color.b base_color) color_var rng in
    let leaf_color := Color.mk cr cg cb (Color.a base_color) in
    let cluster := LeafCluster.make (Branch.end_point branch) cluster_size leaf_color in
    let cluster :=
      LeafCluster.set_shape
        (cluster_shape (TreeParameters.type (TreeStructure.parameters tree))) cluster in
    (clusters ++ [cluster], rng)
  else (clusters, rng).

Definition generate_leaf_clusters (tree : TreeStructure.t) (rng : Random.t R)
  : TreeStructure.t * Random.t R :=
  let leaves := TreeParameters.leaves (TreeStructure.parameters tree) in
  if F32.leb (LeafParameters.density leaves) F32.zero then (tree, rng)
  else
    let leaf_branches := TreeStructure.get_leaf_branches tree in
    let '(clusters, rng) :=
      fold_left (fun acc id =>
                   match nth_error (TreeStructure.all_branches tree) id with
                   | Some branch => leaf_cluster_for tree branch acc
                   | None => acc
                   end)
                leaf_branches (TreeStructure.leaf_clusters tree, rng) in
    (TreeStructure.set_leaf_clusters clusters tree, rng).

(** The seed a call really uses: [params.random_seed], or the random
    device when that is 0. *)
Definition actual_seed (env : Env) (params : TreeParameters.t) : Z :=
  if TreeParameters.random_seed params =? 0
  then random_device env
  else TreeParameters.random_seed params.

(** [generate_structure]: the pipeline up to the bounding box, with the
    generator's members as they are left. *)
Definition generate_structure (g : t) (env : Env) (params : TreeParameters.t)
  : TreeStructure.t * t :=
  let rng := Random.make R (actual_seed env params) in
  let normalized_params := TreeParameters.validate params in
  let lsystem := LSystemGenerator.setup_rules (TreeParameters.type normalized_params) in
  let '(lstring, rng) := LSystemGenerator.generate_string R normalized_params rng in
  let '(tree_structure, rng) :=
    LSystemGenerator.string_to_tree R M lstring normalized_params rng in
  let '(tree_structure, rng) := generate_leaf_clusters tree_structure rng in
  let tree_structure := TreeStructure.calculate_bounding_box tree_structure in
  (tree_structure, mk rng lsystem).

(** [generate]: its statements up to the bounding box are, one for one,
    the body of [generate_structure]; then the renderer, the elapsed time
    and the metadata.  [PixelType] is [uint32_t], so the rendered buffer is
    returned as it is. *)
Definition generate (g : t) (env : Env) (params : TreeParameters.t)
  : (PixelBuffer.t * TreeMetadata.t) * t :=
  let '(tree_structure, g') := generate_structure g env params in
  let pixel_buffer := TreeRenderer.render tree_structure in
  let generation_time :=
    F32.div (F32.of_Z (end_time env - start_time env)) (F32.of_Z 1000) in
  let metadata :=
    TreeMetadata.mk
      (TreeStructure.generation_id tree_structure)
      (TreeStructure.branch_count tree_structure)
      (TreeStructure.leaf_cluster_count tree_structure)
      (TreeStructure.max_depth tree_structure)
      generation_time
      (TreeStructure.bounding_box tree_structure)
      (actual_seed env params) in
  ((pixel_buffer, metadata), g').

(** [generate_batch]: the loop over [params_list]; [envs] gives what each
    call observes, in call order. *)
Fixpoint generate_batch_loop (g : t) (envs : nat -> Env) (call : nat)
  (params_list : list TreeParameters.t)
  (results : list (PixelBuffer.t * TreeMetadata.t))
  : list (PixelBuffer.t * TreeMetadata.t) * t :=
  match params_list with
  | [] => (results, g)
  | params :: rest =>
      let '(result, g) := generate g (envs call) params in
      generate_batch_loop g envs (S call) rest (results ++ [result])
  end.

Definition generate_batch (g : t) (envs : nat -> Env)
  (params_list : list TreeParameters.t)
  : list (PixelBuffer.t * TreeMetadata.t) * t :=
  generate_batch_loop g envs 0 params_list [].
End WithStd.
End TreeGenerator.

(* ================================================================== *)
(** * pixeltree.hpp *)

(** The quick generation functions: a generator built from [seed], a
    preset with the canvas set, one call of [generate].  The constructor
    and the call each observe the outside world once. *)
Section QuickGeneration.
Variable R : StdRandom.
Variable M : Libm.

Definition generate_preset (preset : TreeParameters.t) (width height seed : Z)
  (env_constructor env : Env) : (PixelBuffer.t * TreeMetadata.t) * TreeGenerator.t R :=
  let generator := TreeGenerator.make R seed env_constructor in
  let params := preset in
  let params := TreeParameters.set_canvas_width width params in
  let params := TreeParameters.set_canvas_height height params in
  TreeGenerator.generate R M generator env params.

Definition generate_oak_tree := generate_preset TreePresets.oak.
Definition generate_pine_tree := generate_preset TreePresets.pine.
Definition generate_palm_tree := generate_preset TreePresets.palm.
End QuickGeneration.

(* ================================================================== *)
(** * The standard library's generator, for running the pipeline *)

(** [std::mt19937], as the C++ standard fixes it: the 32-bit Mersenne
    twister with the parameters of [rand.predef]. *)
Module MT19937.
Definition n : nat := 624.
Definition m : nat := 397.
Definition matrix_a : Z := 0x9908b0df.
Definition upper_mask : Z := 0x80000000.
Definition lower_mask : Z := 0x7fffffff.
Definition w32 (z : Z) : Z := z mod 2 ^ 32.

Record state := mk { words : list Z; index : nat }.

Fixpoint init_loop (k : nat) (i : Z) (prev : Z) : list Z :=
  match k with
  | O => []
  | S k' =>
      let x := w32 (1812433253 * Z.lxor prev (Z.shiftr prev 30) + i) in
      x :: init_loop k' (i + 1) x
  end.

Definition seed (s : Z) : state :=
  let x0 := w32 s in
  mk (x0 :: init_loop (n - 1) 1 x0) n.

(** The in-place regeneration of the 624 words. *)
Fixpoint twist_loop (k : nat) (i : nat) (st : list Z) : list Z :=
  match k with
  | O => st
  | S k' =>
      let y := Z.lor (Z.land (nth i st 0) upper_mask)
                     (Z.land (nth ((i + 1) mod n) st 0) lower_mask) in
      let v := Z.lxor (Z.lxor (nth ((i + m) mod n) st 0) (Z.shiftr y 1))
                      (if Z.odd y then matrix_a else 0) in
      twist_loop k' (S i) (update_nth i (fun _ => v) st)
  end.

Definition temper (y : Z) : Z :=
  let y := Z.lxor y (Z.shiftr y 11) in
  let y := Z.lxor y (Z.land (w32 (Z.shiftl y 7)) 0x9d2c5680) in
  let y := Z.lxor y (Z.land (w32 (Z.shiftl y 15)) 0xefc60000) in
  Z.lxor y (Z.shiftr y 18).

Definition next (s : state) : Z * state :=
  let s' := if Nat.leb n (index s) then mk (twist_loop n 0 (words s)) 0 else s in
  (temper (nth (index s') (words s') 0), mk (words s') (S (index s'))).

(** [std::generate_canonical<float, 24>] over this engine: one draw,
    converted to [float] and divided by 2^32; a quotient that rounds up to
    1 is replaced by the largest [float] below 1. *)
Definition canonical (s : state) : float * state :=
  let '(v, s) := next s in
  let ret := F32.div (F32.of_Z v) (F32.of_Z (2 ^ 32)) in
  (if F32.leb F32.one ret then SFpred F32.prec F32.emax F32.one else ret, s).

(** [std::uniform_int_distribution<int>(lo, hi)] by multiply-and-shift
    with rejection of the biased low products; the rejection is retried a
    bounded number of times. *)
Fixpoint bounded (tries : nat) (range : Z) (s : state) : Z * state :=
  let '(v, s) := next s in
  let product := v * range in
  let low := w32 product in
  match tries with
  | O => (Z.shiftr product 32, s)
  | S tries' =>
      if (low <? range) && (low <? (2 ^ 32 - range) mod range)
      then bounded tries' range s
      else (Z.shiftr product 32, s)
  end.

Definition uniform (lo hi : Z) (s : state) : Z * state :=
  let '(v, s) := bounded 64 (hi - lo + 1) s in (lo + v, s).
End MT19937.

Definition std_random : StdRandom :=
  {| engine := MT19937.state;
     engine_seed := MT19937.seed;
     uniform_real01 := MT19937.canonical;
     uniform_int := MT19937.uniform |}.

(** A cosine and sine to run the pipeline with: the Taylor polynomials up to
    degree 17, evaluated in [double] and rounded to [float].  For the angles
    [rotate_vector] receives (at most 45 degrees) the truncation error is
    far below one unit in the last place of a [float]. *)
Module RefLibm.
Definition add64 : float -> float -> float := SFadd F64.prec F64.emax.
Definition sub64 : float -> float -> float := SFsub F64.prec F64.emax.

(** [1 - y/d1 * (1 - y/d2 * (... ))] for the denominators [ds]. *)
Fixpoint horner (y : float) (ds : list Z) : float :=
  match ds with
  | [] => F64.of_Z 1
  | d :: ds' =>
      sub64 (F64.of_Z 1) (F64.mul (F64.div y (F64.of_Z d)) (horner y ds'))
  end.

Definition cos (v : float) : float :=
  let x := F64.of_f32 v in
  F64.to_f32 (horner (F64.mul x x) [2; 12; 30; 56; 90; 132; 182; 240]).

Definition sin (v : float) : float :=
  let x := F64.of_f32 v in
  F64.to_f32 (F64.mul x (horner (F64.mul x x) [6; 20; 42; 72; 110; 156; 210; 272])).
End RefLibm.

Definition ref_libm : Libm := {| cosf := RefLibm.cos; sinf := RefLibm.sin |}.

(* ================================================================== *)
(** * Predicates of the statements *)

(** A buffer as the constructor leaves it: [size()] pixels. *)
Definition well_formed (b : PixelBuffer.t) : Prop :=
  0 <= PixelBuffer.width b /\ 0 <= PixelBuffer.height b
  /\ Z.of_nat (List.length (PixelBuffer.data_ b)) = PixelBuffer.size b.

(** What every round of the two loops of [blit_loop] keeps, for a pixel
    [(X, Y)] of [dest] outside the source rectangle. *)
Definition framed (dest : PixelBuffer.t) (X Y : Z) (b : PixelBuffer.t) : Prop :=
  well_formed b
  /\ PixelBuffer.width b = PixelBuffer.width dest
  /\ PixelBuffer.height b = PixelBuffer.height dest
  /\ PixelBuffer.get b X Y = PixelBuffer.get dest X Y.

(** The state of a covered pixel [(X, Y)] when the loops stand at source
    coordinates [(x, y)]: it holds [stored] once its turn has passed. *)
Definition visited (position : Point2Di.t) (dest : PixelBuffer.t) (X Y stored : Z)
  (x y : Z) (b : PixelBuffer.t) : Prop :=
  well_formed b
  /\ PixelBuffer.width b = PixelBuffer.width dest
  /\ PixelBuffer.height b = PixelBuffer.height dest
  /\ PixelBuffer.get b X Y =
       if (Y - Point2Di.y position <? y)
          || ((Y - Point2Di.y position =? y) && (X - Point2Di.x position <? x))
       then stored else PixelBuffer.get dest X Y.

(** Two results of [generate] that agree on the pixels and on every field
    of the metadata except the elapsed time. *)
Definition same_output (r1 r2 : PixelBuffer.t * TreeMetadata.t) : Prop :=
  fst r1 = fst r2
  /\ TreeMetadata.generation_id (snd r1) = TreeMetadata.generation_id (snd r2)
  /\ TreeMetadata.branch_count (snd r1) = TreeMetadata.branch_count (snd r2)
  /\ TreeMetadata.leaf_count (snd r1) = TreeMetadata.leaf_count (snd r2)
  /\ TreeMetadata.max_depth (snd r1) = TreeMetadata.max_depth (snd r2)
  /\ TreeMetadata.bounding_box (snd r1) = TreeMetadata.bounding_box (snd r2)
  /\ TreeMetadata.random_seed (snd r1) = TreeMetadata.random_seed (snd r2).

(** A call of [generate] with everything but the pixels and the metadata
    dropped. *)
Definition output (R : StdRandom) (M : Libm) (g : TreeGenerator.t R) (env : Env)
  (params : TreeParameters.t) : PixelBuffer.t * TreeMetadata.t :=
  fst (TreeGenerator.generate R M g env params).

(** A float that is a zero of either sign. *)
Definition is_zero (v : float) : Prop := exists s : bool, v = S754_zero s.

(** How often the symbol [c] occurs in an L-system string. *)
Fixpoint count (c : ascii) (s : string) : nat :=
  match s with
  | EmptyString => O
  | String c' rest => ((if Ascii.eqb c' c then 1 else 0) + count c rest)%nat
  end.

(** The parent a chain gives the branch [k]: the branch created before it. *)
Definition previous (k : nat) : option nat :=
  match k with O => None | S k' => Some k' end.

(** The links of the branch [k] in a chain of [n] branches. *)
Definition linked (n k : nat) (b : Branch.t) : Prop :=
  Branch.parent b = previous k
  /\ Branch.children b = if (S k <? n)%nat then [S k] else [].

(** The shape of every arena the interpreter builds: the branches form one
    chain in creation order, the root is the first and the current branch
    the last. *)
Definition chain (root current : option nat) (bs : list Branch.t) : Prop :=
  root = match bs with [] => None | _ => Some O end
  /\ current = previous (List.length bs)
  /\ (forall k b, nth_error bs k = Some b -> linked (List.length bs) k b).

(** C3 as a predicate: every child of a branch is one level below it. *)
Definition depth_rule (t : TreeStructure.t) : Prop :=
  forall p parent c child,
    nth_error (TreeStructure.all_branches t) p = Some parent ->
    In c (Branch.children parent) ->
    nth_error (TreeStructure.all_branches t) c = Some child ->
    Branch.depth_level child = Branch.depth_level parent + 1.

(** C2 as a predicate: no child of a branch is thicker than it. *)
Definition thickness_rule (t : TreeStructure.t) : Prop :=
  forall p parent c child,
    nth_error (TreeStructure.all_branches t) p = Some parent ->
    In c (Branch.children parent) ->
    nth_error (TreeStructure.all_branches t) c = Some child ->
    F32.leb (Branch.thickness child) (Branch.thickness parent) = true.

(** [thickness] multiplied [k] times by the decay factor. *)
Fixpoint decayed (decay : float) (k : nat) (thickness : float) : float :=
  match k with
  | O => thickness
  | S k' => decayed decay k' (F32.mul thickness decay)
  end.

(** The two rules, decided for the children of the branch [p]. *)
Definition with_children (t : TreeStructure.t) (p : nat)
  (ok : Branch.t -> Branch.t -> bool) : bool :=
  match nth_error (TreeStructure.all_branches t) p with
  | Some parent =>
      forallb (fun c =>
                 match nth_error (TreeStructure.all_branches t) c with
                 | Some child => ok child parent
                 | None => true
                 end)
              (Branch.children parent)
  | None => true
  end.

Definition depth_rule_at (t : TreeStructure.t) (p : nat) : bool :=
  with_children t p (fun child parent =>
    Branch.depth_level child =? Branch.depth_level parent + 1).

Definition thickness_rule_at (t : TreeStructure.t) (p : nat) : bool :=
  with_children t p (fun child parent =>
    F32.leb (Branch.thickness child) (Branch.thickness parent)).

(** The presets with a seed of one's own. *)
Definition seeded (seed : Z) (preset : TreeParameters.t) : TreeParameters.t :=
  TreeParameters.set_random_seed seed preset.

(** The number of binary digits of a mantissa. *)
Definition digits (m : positive) : Z := Zpos (digits2_pos m).

(** What the shift register of the rounding holds after [k] places: the
    quotient, and a round or sticky bit only if something was shifted
    out. *)
Definition shifted (M k : Z) (rec : shr_record) : Prop :=
  shr_m rec = M / 2 ^ k
  /\ (shr_r rec = true \/ shr_s rec = true -> M mod 2 ^ k <> 0).

(** A [float] that is a zero or a positive number of binary32 (no NaN, no
    infinity, nothing negative). *)
Definition nonneg_finite (v : float) : Prop :=
  is_zero v
  \/ (exists (m : positive) (e : Z),
        v = S754_finite false m e /\ bounded F32.prec F32.emax m e = true).

(** A decay factor: such a number, and at most 1. *)
Definition decay_factor (d : float) : Prop :=
  nonneg_finite d /\ F32.leb d F32.one = true.

(** The thickness in the current state and in every saved state is such a
    number. *)
Definition sound_thickness (R : StdRandom) (i : LSystemGenerator.interp R) : Prop :=
  nonneg_finite (LSystemState.thickness (LSystemGenerator.current_state R i))
  /\ Forall (fun s => nonneg_finite (LSystemState.thickness s))
            (LSystemGenerator.state_stack R i).

(** The case analysis of one interpreter step: which symbol, what the
    generator returns, what the stack holds. *)
Ltac symbol_cases c :=
  unfold LSystemGenerator.step, LSystemGenerator.interpret, LSystemGenerator.decay;
  repeat match goal with
         | |- context [Ascii.eqb c ?k] => destruct (Ascii.eqb_spec c k)
         end;
  repeat match goal with
         | |- context [Random.next_float_in ?r ?lo ?hi ?g] =>
             destruct (Random.next_float_in r lo hi g)
         | |- context [LSystemGenerator.state_stack ?r ?i] =>
             destruct (LSystemGenerator.state_stack r i)
         end;
  cbn; try congruence.

(* ================================================================== *)
(** * Predicates of the further properties *)

(** The translated rectangle of the source [S] placed at [p] covers the
    pixel [(x, y)]. *)
Definition covered (p : Point2Di.t) (S : PixelBuffer.t) (x y : Z) : bool :=
  (Point2Di.x p <=? x) && (x <? Point2Di.x p + PixelBuffer.width S)
  && (Point2Di.y p <=? y) && (y <? Point2Di.y p + PixelBuffer.height S).


(** A [uint8_t]. *)
Definition byte (c : Z) : Prop := 0 <= c <= 255.
Definition valid_color (c : Color.t) : Prop :=
  byte (Color.r c) /\ byte (Color.g c) /\ byte (Color.b c) /\ byte (Color.a c).

(** The place of a number in the order of [float]: its class (negative
    infinity, negative, zero, positive, positive infinity), then exponent
    and mantissa, mirrored for the negative ones.  [SFcompare] compares
    ranks. *)
Definition rank (v : float) : Z * Z * Z :=
  match v with
  | S754_zero _ => (0, 0, 0)
  | S754_infinity s => (if s then -2 else 2, 0, 0)
  | S754_nan => (3, 0, 0)
  | S754_finite s m e => if s then (-1, - e, - Zpos m) else (1, e, Zpos m)
  end.

(** The lexicographic order of ranks. *)
Definition lex_le (a b : Z * Z * Z) : Prop :=
  let '(c1, e1, m1) := a in
  let '(c2, e2, m2) := b in
  c1 < c2 \/ (c1 = c2 /\ (e1 < e2 \/ (e1 = e2 /\ m1 <= m2))).

(** A [float] that is not a NaN. *)
Definition number (v : float) : Prop := v <> S754_nan.

(** The 256 values of a byte. *)
Definition bytes : list Z := map Z.of_nat (seq 0 256).

(** The symbols of a string with [k] branching patterns around its first
    F. *)
Definition grown (k : nat) (s : string) : Prop :=
  count "F" s = (2 * k + 1)%nat
  /\ count "[" s = (2 * k)%nat /\ count "]" s = (2 * k)%nat
  /\ count "+" s = k /\ count "-" s = k
  /\ String.length s = (8 * k + 1)%nat.

(** The number of pushes still open after [s], starting from [open] of
    them; [None] when a pop finds none. *)
Fixpoint nesting (s : string) (open : nat) : option nat :=
  match s with
  | EmptyString => Some open
  | String c rest =>
      if Ascii.eqb c "[" then nesting rest (S open)
      else if Ascii.eqb c "]" then
        match open with
        | O => None
        | S open' => nesting rest open'
        end
      else nesting rest open
  end.

(** A rectangle whose four coordinates are numbers. *)
Definition rect_numbers (r : Rect2Df.t) : Prop :=
  number (Point2Df.x (Rect2Df.min r)) /\ number (Point2Df.y (Rect2Df.min r))
  /\ number (Point2Df.x (Rect2Df.max r)) /\ number (Point2Df.y (Rect2Df.max r)).

(** [outer] reaches at least as far as [inner] on all four sides. *)
Definition encloses (outer inner : Rect2Df.t) : Prop :=
  F32.leb (Point2Df.x (Rect2Df.min outer)) (Point2Df.x (Rect2Df.min inner)) = true
  /\ F32.leb (Point2Df.y (Rect2Df.min outer)) (Point2Df.y (Rect2Df.min inner)) = true
  /\ F32.leb (Point2Df.x (Rect2Df.max inner)) (Point2Df.x (Rect2Df.max outer)) = true
  /\ F32.leb (Point2Df.y (Rect2Df.max inner)) (Point2Df.y (Rect2Df.max outer)) = true.

(** [b] has the shape of [b0]: as many pixels, in rows as wide. *)
Definition same_shape (b0 b : PixelBuffer.t) : Prop :=
  well_formed b
  /\ PixelBuffer.width b = PixelBuffer.width b0
  /\ PixelBuffer.height b = PixelBuffer.height b0.

(** Every pixel of [b] holds one of [colors]. *)
Definition painted_from (colors : list Z) (b : PixelBuffer.t) : Prop :=
  Forall (fun v => In v colors) (PixelBuffer.data_ b).

(** What a rendered pixel can hold: nothing, or the colour of a branch or
    of a leaf cluster. *)
Definition palette (t : TreeStructure.t) : list Z :=
  0 :: map (fun b => Color.to_rgba (Branch.color b)) (TreeStructure.all_branches t)
    ++ map (fun c => Color.to_rgba (LeafCluster.color c)) (TreeStructure.leaf_clusters t).

(** The write every drawing loop makes: [if (buffer.contains(x, y))
    buffer(x, y) = color]. *)
Definition plot (b : PixelBuffer.t) (x y color : Z) : PixelBuffer.t :=
  if PixelBuffer.contains b x y then PixelBuffer.set b x y color else b.

(** A coordinate far enough from the ends of [int] for the arithmetic of
    the drawing loops: the differences of two of them, the error term of
    [draw_line] and its double stay within [int]. *)
Definition small (v : Z) : Prop := - 2 ^ 26 <= v <= 2 ^ 26.


(** What the drawing loops keep of a buffer: the shape of [b0] and pixels
    from [colors]. *)
Definition kept (b0 : PixelBuffer.t) (colors : list Z) (b : PixelBuffer.t) : Prop :=
  same_shape b0 b /\ painted_from colors b.

(** The structure [t] with another seed in its parameters. *)
Definition reseed (seed : Z) (t : TreeStructure.t) : TreeStructure.t :=
  TreeStructure.mk (TreeStructure.root t) (TreeStructure.all_branches t)
    (TreeStructure.leaf_clusters t)
    (TreeParameters.set_random_seed seed (TreeStructure.parameters t))
    (TreeStructure.bounding_box t) (TreeStructure.generation_id t).

Definition reseed_interp (R : StdRandom) (seed : Z) (i : LSystemGenerator.interp R)
  : LSystemGenerator.interp R :=
  LSystemGenerator.mk_interp R (reseed seed (LSystemGenerator.tree R i))
    (LSystemGenerator.state_stack R i) (LSystemGenerator.current_state R i)
    (LSystemGenerator.current_branch R i) (LSystemGenerator.rng_ R i).

(** The colour in the current state, in every saved state and of every
    branch is [c]. *)
Definition one_color (R : StdRandom) (c : Color.t) (i : LSystemGenerator.interp R) : Prop :=
  LSystemState.color (LSystemGenerator.current_state R i) = c
  /\ Forall (fun s => LSystemState.color s = c) (LSystemGenerator.state_stack R i)
  /\ Forall (fun b => Branch.color b = c)
            (TreeStructure.all_branches (LSystemGenerator.tree R i)).

(** A string that is the single F, or starts with the F and the first
    branch of a branching pattern. *)
Definition sprouted (s : string) : Prop :=
  s = "F"%string \/ exists rest : string, s = ("F[+F" ++ rest)%string.

(** The cluster [c'] is [c] with other leaf positions. *)
Definition same_cluster (c c' : LeafCluster.t) : Prop :=
  LeafCluster.position c' = LeafCluster.position c
  /\ LeafCluster.size c' = LeafCluster.size c
  /\ LeafCluster.color c' = LeafCluster.color c
  /\ LeafCluster.shape c' = LeafCluster.shape c.

(* ================================================================== *)
(** * Properties of the pixel buffer *)

Lemma wrap32_small (z : Z) : F32.INT_MIN <= z <= F32.INT_MAX -> wrap32 z = z.
Proof.
  unfold wrap32, F32.INT_MIN, F32.INT_MAX. intros H.
  rewrite Z.mod_small; lia.
Qed.

Lemma wrap32_range (z : Z) : F32.INT_MIN <= wrap32 z <= F32.INT_MAX.
Proof.
  unfold wrap32, F32.INT_MIN, F32.INT_MAX.
  pose proof (Z.mod_pos_bound (z + 2 ^ 31) (2 ^ 32) ltac:(lia)). lia.
Qed.

(** A [size_t] cast to [int] never grows. *)
Lemma wrap32_le (z : Z) : 0 <= z -> wrap32 z <= z.
Proof.
  unfold wrap32. intros H.
  pose proof (Z.mod_le (z + 2 ^ 31) (2 ^ 32) ltac:(lia) ltac:(lia)). lia.
Qed.

(** [contains] is sound for every buffer: what it accepts is inside. *)
Lemma contains_sound (b : PixelBuffer.t) (x y : Z) :
  0 <= PixelBuffer.width b -> 0 <= PixelBuffer.height b ->
  PixelBuffer.contains b x y = true ->
  0 <= x < PixelBuffer.width b /\ 0 <= y < PixelBuffer.height b.
Proof.
  unfold PixelBuffer.contains, PixelBuffer.width, PixelBuffer.height.
  intros Hw Hh H.
  pose proof (wrap32_le _ Hw). pose proof (wrap32_le _ Hh).
  repeat (apply andb_prop in H; destruct H as [H ?]).
  lia.
Qed.

(** For dimensions that fit an [int], [contains] accepts every pixel. *)
Lemma contains_inside (b : PixelBuffer.t) (x y : Z) :
  PixelBuffer.width b <= F32.INT_MAX -> PixelBuffer.height b <= F32.INT_MAX ->
  0 <= x < PixelBuffer.width b -> 0 <= y < PixelBuffer.height b ->
  PixelBuffer.contains b x y = true.
Proof.
  intros Hw Hh Hx Hy. unfold PixelBuffer.contains, PixelBuffer.width, PixelBuffer.height in *.
  rewrite !wrap32_small by (unfold F32.INT_MIN; lia).
  repeat (apply andb_true_intro; split); lia.
Qed.

(** C8 fails on a buffer 2^31 pixels wide: the pixel (0, 0) lies inside
    and the checked accessor [at] returns it, but [contains], which
    compares with the width cast to [int], a negative number here, refuses
    it. *)
Theorem contains_wide_buffer :
  let b := PixelBuffer.make (2 ^ 31) 1 in
  (0 <= 0 < PixelBuffer.width b /\ 0 <= 0 < PixelBuffer.height b)
  /\ PixelBuffer.at_ b 0 0 = Some 0
  /\ PixelBuffer.contains b 0 0 = false.
Proof.
  cbv zeta. unfold PixelBuffer.make, PixelBuffer.clear, PixelBuffer.contains,
    PixelBuffer.at_, PixelBuffer.width, PixelBuffer.height.
  cbn [PixelBuffer.width_ PixelBuffer.height_ PixelBuffer.data_].
  rewrite nth_repeat.
  split; [lia | split; reflexivity].
Qed.

(** Where the bounds test is right: [at], called with [size_t]
    coordinates, throws exactly outside the buffer, whatever its size; and
    for a buffer whose width and height fit an [int], [contains x y] holds
    exactly when [0 <= x < W] and [0 <= y < H]. *)
Lemma contains_at_bounds (b : PixelBuffer.t) (x y : Z) :
  (0 <= x -> 0 <= y ->
   (PixelBuffer.at_ b x y = None
    <-> ~ (0 <= x < PixelBuffer.width b /\ 0 <= y < PixelBuffer.height b)))
  /\ (0 <= PixelBuffer.width b <= F32.INT_MAX ->
      0 <= PixelBuffer.height b <= F32.INT_MAX ->
      (PixelBuffer.contains b x y = true
       <-> 0 <= x < PixelBuffer.width b /\ 0 <= y < PixelBuffer.height b)).
Proof.
  split.
  - intros Hx Hy. unfold PixelBuffer.at_, PixelBuffer.width, PixelBuffer.height in *.
    destruct (PixelBuffer.width_ b <=? x) eqn:Ex;
      destruct (PixelBuffer.height_ b <=? y) eqn:Ey; cbn [orb];
      split; intros H; try reflexivity; try discriminate; lia.
  - intros Hw Hh. split.
    + apply contains_sound; lia.
    + intros [Hx Hy]. apply contains_inside; lia.
Qed.

(** ** The loops and the pixel accessors *)

Lemma for_loop_ind {A : Type} (P : Z -> A -> Prop) (body : Z -> A -> A) :
  forall (n : nat) (lo : Z) (acc : A),
    P lo acc ->
    (forall i a, lo <= i < lo + Z.of_nat n -> P i a -> P (i + 1) (body i a)) ->
    P (lo + Z.of_nat n) (for_loop n lo body acc).
Proof.
  induction n as [| n IH]; intros lo acc H0 Hstep.
  - cbn. replace (lo + 0) with lo by lia. exact H0.
  - cbn [for_loop].
    replace (lo + Z.of_nat (S n)) with (lo + 1 + Z.of_nat n) by lia.
    apply IH.
    + apply Hstep; [lia | exact H0].
    + intros i a Hi. apply Hstep. lia.
Qed.

(** The same for a property that does not mention the counter. *)
Lemma for_int_inv {A : Type} (P : A -> Prop) (body : Z -> A -> A) (lo hi : Z) (acc : A) :
  P acc ->
  (forall i a, lo <= i < hi -> P a -> P (body i a)) ->
  P (for_int lo hi body acc).
Proof.
  intros H0 Hstep. unfold for_int.
  apply (for_loop_ind (fun _ a => P a)); [exact H0 |].
  intros i a Hi. apply Hstep. lia.
Qed.

Lemma update_nth_length {A : Type} (f : A -> A) :
  forall (l : list A) (i : nat), List.length (update_nth i f l) = List.length l.
Proof.
  induction l as [| h t IH]; intros [| i]; cbn; auto.
Qed.

Lemma nth_update_nth_neq {A : Type} (f : A -> A) (d : A) :
  forall (l : list A) (i j : nat), i <> j -> nth j (update_nth i f l) d = nth j l d.
Proof.
  induction l as [| h t IH]; intros [| i] [| j] Hij; cbn; auto; try congruence.
Qed.

Lemma nth_update_nth_eq {A : Type} (f : A -> A) (d : A) :
  forall (l : list A) (i : nat),
    (i < List.length l)%nat -> nth i (update_nth i f l) d = f (nth i l d).
Proof.
  induction l as [| h t IH]; intros [| i] Hi; cbn in *; auto; try lia.
  apply IH. lia.
Qed.

Lemma set_width (b : PixelBuffer.t) (x y v : Z) :
  PixelBuffer.width (PixelBuffer.set b x y v) = PixelBuffer.width b.
Proof. reflexivity. Qed.

Lemma set_height (b : PixelBuffer.t) (x y v : Z) :
  PixelBuffer.height (PixelBuffer.set b x y v) = PixelBuffer.height b.
Proof. reflexivity. Qed.

Lemma set_well_formed (b : PixelBuffer.t) (x y v : Z) :
  well_formed b -> well_formed (PixelBuffer.set b x y v).
Proof.
  unfold well_formed, PixelBuffer.set, PixelBuffer.size, PixelBuffer.width,
    PixelBuffer.height. cbn. rewrite update_nth_length. auto.
Qed.

(** Row-major indices of two different pixels of a row-wide grid differ. *)
Lemma index_injective (w x y x' y' : Z) :
  0 <= x < w -> 0 <= x' < w -> 0 <= y -> 0 <= y' ->
  (x, y) <> (x', y') ->
  Z.to_nat (y * w + x) <> Z.to_nat (y' * w + x').
Proof.
  intros Hx Hx' Hy Hy' Hne Heq.
  apply Z2Nat.inj in Heq; try nia.
  apply Hne.
  assert (y = y') by nia. subst y'.
  f_equal. lia.
Qed.

Lemma get_set_other (b : PixelBuffer.t) (x y v x' y' : Z) :
  0 <= x < PixelBuffer.width b -> 0 <= y ->
  0 <= x' < PixelBuffer.width b -> 0 <= y' ->
  (x, y) <> (x', y') ->
  PixelBuffer.get (PixelBuffer.set b x y v) x' y' = PixelBuffer.get b x' y'.
Proof.
  intros Hx Hy Hx' Hy' Hne.
  unfold PixelBuffer.get, PixelBuffer.set, PixelBuffer.width in *. cbn.
  apply nth_update_nth_neq. apply index_injective; auto.
Qed.

Lemma get_set_same (b : PixelBuffer.t) (x y v : Z) :
  well_formed b ->
  0 <= x < PixelBuffer.width b -> 0 <= y < PixelBuffer.height b ->
  PixelBuffer.get (PixelBuffer.set b x y v) x y = v.
Proof.
  intros (Hw & Hh & Hlen) Hx Hy.
  unfold PixelBuffer.get, PixelBuffer.set, PixelBuffer.size, PixelBuffer.width,
    PixelBuffer.height in *. cbn.
  rewrite nth_update_nth_eq; [reflexivity |].
  apply Nat2Z.inj_lt. rewrite Hlen, Z2Nat.id by nia. nia.
Qed.

(** A destination coordinate that [contains] accepts did not wrap. *)
Lemma wrap32_sum_nonneg (p i : Z) :
  F32.INT_MIN <= p <= F32.INT_MAX -> 0 <= i <= F32.INT_MAX ->
  0 <= wrap32 (p + i) -> wrap32 (p + i) = p + i.
Proof.
  unfold F32.INT_MIN, F32.INT_MAX, wrap32. intros Hp Hi Hw.
  destruct (Z_le_gt_dec (p + i) (2 ^ 31 - 1)) as [Hle | Hgt].
  - rewrite Z.mod_small; lia.
  - exfalso.
    replace (p + i + 2 ^ 31) with ((p + i - 2 ^ 31) + 1 * 2 ^ 32) in Hw by lia.
    rewrite Z.mod_add in Hw by lia.
    rewrite Z.mod_small in Hw; lia.
Qed.

(** ** The frame of [blit_loop] *)

Section BlitFrame.
Variable source : PixelBuffer.t -> Z -> Z -> Z.
Variable combine : Z -> Z -> Z.
Variables src_width src_height : Z.
Variable position : Point2Di.t.
Variable dest : PixelBuffer.t.
Variables X Y : Z.

Hypothesis dest_wf : well_formed dest.
Hypothesis position_x_int : F32.INT_MIN <= Point2Di.x position <= F32.INT_MAX.
Hypothesis position_y_int : F32.INT_MIN <= Point2Di.y position <= F32.INT_MAX.
Hypothesis src_width_int : src_width <= F32.INT_MAX.
Hypothesis src_height_int : src_height <= F32.INT_MAX.
Hypothesis X_inside : 0 <= X < PixelBuffer.width dest.
Hypothesis Y_inside : 0 <= Y < PixelBuffer.height dest.
Hypothesis outside :
  ~ (Point2Di.x position <= X < Point2Di.x position + src_width
     /\ Point2Di.y position <= Y < Point2Di.y position + src_height).

Local Abbreviation framed := (framed dest X Y).

Lemma blit_loop_framed :
  framed (PixelBuffer.blit_loop source src_width src_height combine position dest).
Proof.
  unfold PixelBuffer.blit_loop.
  apply for_int_inv.
  - unfold framed. auto.
  - intros y b Hy Hb.
    apply for_int_inv; [exact Hb |].
    intros x b' Hx (Hwf & Hw & Hh & Hget).
    destruct (PixelBuffer.contains b' _ _) eqn:Hc; [| unfold framed; auto].
    destruct Hwf as (Hw0 & Hh0 & Hlen).
    apply contains_sound in Hc; try assumption.
    destruct Hc as [Hcx Hcy].
    assert (Ex : wrap32 (Point2Di.x position + x) = Point2Di.x position + x)
      by (apply wrap32_sum_nonneg; lia).
    assert (Ey : wrap32 (Point2Di.y position + y) = Point2Di.y position + y)
      by (apply wrap32_sum_nonneg; lia).
    unfold framed. rewrite set_width, set_height.
    split; [apply set_well_formed; unfold well_formed; auto |].
    split; [exact Hw |]. split; [exact Hh |].
    rewrite get_set_other; [exact Hget | lia | lia | lia | lia |].
    intros Heq. inversion Heq as [[E1 E2]].
    apply outside. lia.
Qed.
End BlitFrame.



(** The same frame when a buffer is blitted onto itself. *)
Lemma blit_self_frame (D : PixelBuffer.t) (p : Point2Di.t) (x y : Z) :
  well_formed D ->
  F32.INT_MIN <= Point2Di.x p <= F32.INT_MAX ->
  F32.INT_MIN <= Point2Di.y p <= F32.INT_MAX ->
  0 <= x < PixelBuffer.width D -> 0 <= y < PixelBuffer.height D ->
  ~ (Point2Di.x p <= x < Point2Di.x p + PixelBuffer.width D
     /\ Point2Di.y p <= y < Point2Di.y p + PixelBuffer.height D) ->
  PixelBuffer.get (PixelBuffer.blit_self D p) x y = PixelBuffer.get D x y
  /\ PixelBuffer.width (PixelBuffer.blit_self D p) = PixelBuffer.width D
  /\ PixelBuffer.height (PixelBuffer.blit_self D p) = PixelBuffer.height D.
Proof.
  intros HD Hpx Hpy Hx Hy Hout.
  pose proof HD as (HDw & HDh & _).
  destruct (blit_loop_framed (fun current => PixelBuffer.get current) (fun _ s => s)
              (wrap32 (PixelBuffer.width D)) (wrap32 (PixelBuffer.height D))
              p D x y HD Hpx Hpy) as (_ & Hw & Hh & Hget).
  - apply wrap32_range.
  - apply wrap32_range.
  - exact Hx.
  - exact Hy.
  - pose proof (wrap32_le _ HDw). pose proof (wrap32_le _ HDh). lia.
  - auto.
Qed.

(** ** What [blit_loop] stores in the pixels it writes *)

Section BlitWritten.
Variable source : Z -> Z -> Z.
Variable combine : Z -> Z -> Z.
Variables src_width src_height : Z.
Variable position : Point2Di.t.
Variable dest : PixelBuffer.t.
Variables X Y : Z.

Hypothesis dest_wf : well_formed dest.
Hypothesis XY_contained : PixelBuffer.contains dest X Y = true.
Hypothesis position_x_int : F32.INT_MIN <= Point2Di.x position <= F32.INT_MAX.
Hypothesis position_y_int : F32.INT_MIN <= Point2Di.y position <= F32.INT_MAX.
Hypothesis src_width_int : src_width <= F32.INT_MAX.
Hypothesis src_height_int : src_height <= F32.INT_MAX.
Hypothesis X_inside : 0 <= X < PixelBuffer.width dest.
Hypothesis Y_inside : 0 <= Y < PixelBuffer.height dest.
Hypothesis X_covered : Point2Di.x position <= X < Point2Di.x position + src_width.
Hypothesis Y_covered : Point2Di.y position <= Y < Point2Di.y position + src_height.

Local Abbreviation stored :=
  (combine (PixelBuffer.get dest X Y)
           (source (X - Point2Di.x position) (Y - Point2Di.y position))).
Local Abbreviation visited := (visited position dest X Y stored).

Lemma blit_loop_written :
  PixelBuffer.get
    (PixelBuffer.blit_loop (fun _ => source) src_width src_height combine position dest)
    X Y = stored.
Proof.
  assert (HXY : X <= F32.INT_MAX /\ Y <= F32.INT_MAX).
  { pose proof XY_contained as H. unfold PixelBuffer.contains in H.
    repeat (apply andb_prop in H; destruct H as [H ?]).
    pose proof (wrap32_range (PixelBuffer.width_ dest)).
    pose proof (wrap32_range (PixelBuffer.height_ dest)). lia. }
  destruct HXY as [HXint HYint].
  unfold PixelBuffer.blit_loop, for_int.
  assert (Hrows : visited 0 (0 + Z.of_nat (Z.to_nat (src_height - 0)))
            (for_loop (Z.to_nat (src_height - 0)) 0
               (fun y d =>
                  for_loop (Z.to_nat (src_width - 0)) 0
                    (fun x d0 =>
                       let dest_x := wrap32 (Point2Di.x position + x) in
                       let dest_y := wrap32 (Point2Di.y position + y) in
                       if PixelBuffer.contains d0 dest_x dest_y
                       then PixelBuffer.set d0 dest_x dest_y
                              (combine (PixelBuffer.get d0 dest_x dest_y) (source x y))
                       else d0) d) dest)).
  { apply (for_loop_ind (fun y b => visited 0 y b)).
    - unfold visited. repeat split; try apply dest_wf.
      replace (Y - Point2Di.y position <? 0) with false by (symmetry; apply Z.ltb_ge; lia).
      replace (X - Point2Di.x position <? 0) with false by (symmetry; apply Z.ltb_ge; lia).
      rewrite andb_false_r. reflexivity.
    - intros y b Hy Hb.
      assert (Hcols : visited (0 + Z.of_nat (Z.to_nat (src_width - 0))) y
                (for_loop (Z.to_nat (src_width - 0)) 0
                   (fun x d0 =>
                      let dest_x := wrap32 (Point2Di.x position + x) in
                      let dest_y := wrap32 (Point2Di.y position + y) in
                      if PixelBuffer.contains d0 dest_x dest_y
                      then PixelBuffer.set d0 dest_x dest_y
                             (combine (PixelBuffer.get d0 dest_x dest_y) (source x y))
                      else d0) b)).
      { apply (for_loop_ind (fun x b' => visited x y b')); [exact Hb |].
        intros x b' Hx (Hwf & Hw & Hh & Hget). cbv zeta.
        destruct (Z.eq_dec (Y - Point2Di.y position) y) as [Eqy | Ney];
          [destruct (Z.eq_dec (X - Point2Di.x position) x) as [Eqx | Nex] |].
        - (* the turn of (X, Y) *)
          replace (Point2Di.x position + x) with X by lia.
          replace (Point2Di.y position + y) with Y by lia.
          rewrite !wrap32_small by (unfold F32.INT_MIN; lia).
          assert (Hc : PixelBuffer.contains b' X Y = true).
          { unfold PixelBuffer.contains. fold (PixelBuffer.width b') (PixelBuffer.height b').
            rewrite Hw, Hh. exact XY_contained. }
          rewrite Hc. unfold visited. rewrite set_width, set_height.
          split; [apply set_well_formed, Hwf |]. split; [exact Hw |]. split; [exact Hh |].
          rewrite get_set_same by (auto; lia).
          rewrite Hget.
          replace (Y - Point2Di.y position <? y) with false by (symmetry; apply Z.ltb_ge; lia).
          replace (X - Point2Di.x position <? x) with false by (symmetry; apply Z.ltb_ge; lia).
          replace (Y - Point2Di.y position =? y) with true by (symmetry; apply Z.eqb_eq; lia).
          replace (X - Point2Di.x position <? x + 1) with true by (symmetry; apply Z.ltb_lt; lia).
          cbn. subst x y. reflexivity.
        - (* same row, another column *)
          assert (Hflag : (X - Point2Di.x position <? x + 1) = (X - Point2Di.x position <? x)).
          { destruct (X - Point2Di.x position <? x) eqn:E.
            - apply Z.ltb_lt. apply Z.ltb_lt in E. lia.
            - apply Z.ltb_ge. apply Z.ltb_ge in E. lia. }
          unfold visited. rewrite Hflag.
          destruct (PixelBuffer.contains b' _ _) eqn:Hc;
            [| unfold visited in *; auto].
          destruct Hwf as (Hw0 & Hh0 & Hlen).
          apply contains_sound in Hc; try assumption. destruct Hc as [Hcx Hcy].
          assert (Ex : wrap32 (Point2Di.x position + x) = Point2Di.x position + x)
            by (apply wrap32_sum_nonneg; lia).
          rewrite set_width, set_height.
          split; [apply set_well_formed; unfold well_formed; auto |].
          split; [exact Hw |]. split; [exact Hh |].
          rewrite get_set_other; [exact Hget | lia | lia | lia | lia |].
          intros Heq. inversion Heq. lia.
        - (* another row *)
          unfold visited.
          replace (Y - Point2Di.y position =? y) with false
            by (symmetry; apply Z.eqb_neq; lia).
          destruct (PixelBuffer.contains b' _ _) eqn:Hc.
          + destruct Hwf as (Hw0 & Hh0 & Hlen).
            apply contains_sound in Hc; try assumption. destruct Hc as [Hcx Hcy].
            assert (Ey : wrap32 (Point2Di.y position + y) = Point2Di.y position + y)
              by (apply wrap32_sum_nonneg; lia).
            rewrite set_width, set_height.
            split; [apply set_well_formed; unfold well_formed; auto |].
            split; [exact Hw |]. split; [exact Hh |].
            rewrite get_set_other; [| lia | lia | lia | lia |].
            * rewrite Hget.
              replace (Y - Point2Di.y position =? y) with false
                by (symmetry; apply Z.eqb_neq; lia).
              reflexivity.
            * intros Heq. inversion Heq. lia.
          + split; [exact Hwf |]. split; [exact Hw |]. split; [exact Hh |].
            rewrite Hget.
            replace (Y - Point2Di.y position =? y) with false
              by (symmetry; apply Z.eqb_neq; lia).
            reflexivity. }
      destruct Hcols as (Hwf & Hw & Hh & Hget).
      unfold visited. cbv beta. split; [exact Hwf |]. split; [exact Hw |]. split; [exact Hh |].
      cbv zeta in Hget. rewrite Hget.
      destruct (Z.lt_trichotomy (Y - Point2Di.y position) y) as [Hlt | [Heq | Hgt]].
      + replace (Y - Point2Di.y position <? y) with true by (symmetry; apply Z.ltb_lt; lia).
        replace (Y - Point2Di.y position <? y + 1) with true by (symmetry; apply Z.ltb_lt; lia).
        reflexivity.
      + replace (Y - Point2Di.y position <? y) with false by (symmetry; apply Z.ltb_ge; lia).
        replace (Y - Point2Di.y position <? y + 1) with true by (symmetry; apply Z.ltb_lt; lia).
        replace (Y - Point2Di.y position =? y) with true by (symmetry; apply Z.eqb_eq; lia).
        replace (X - Point2Di.x position <? 0 + Z.of_nat (Z.to_nat (src_width - 0)))
          with true by (symmetry; apply Z.ltb_lt; lia).
        reflexivity.
      + replace (Y - Point2Di.y position <? y) with false by (symmetry; apply Z.ltb_ge; lia).
        replace (Y - Point2Di.y position <? y + 1) with false by (symmetry; apply Z.ltb_ge; lia).
        replace (Y - Point2Di.y position =? y) with false by (symmetry; apply Z.eqb_neq; lia).
        replace (X - Point2Di.x position <? 0) with false by (symmetry; apply Z.ltb_ge; lia).
        rewrite andb_false_r. reflexivity. }
  destruct Hrows as (_ & _ & _ & Hget).
  cbv beta zeta in Hget |- *. rewrite Hget.
  replace (Y - Point2Di.y position <? 0 + Z.of_nat (Z.to_nat (src_height - 0)))
    with true by (symmetry; apply Z.ltb_lt; lia).
  reflexivity.
Qed.
End BlitWritten.


(** For dimensions that fit an [int], every covered pixel of the
    destination is written. *)
Lemma blit_loop_inside (source : Z -> Z -> Z) (combine : Z -> Z -> Z)
  (src_width src_height : Z) (position : Point2Di.t) (dest : PixelBuffer.t) (X Y : Z) :
  well_formed dest ->
  PixelBuffer.width dest <= F32.INT_MAX -> PixelBuffer.height dest <= F32.INT_MAX ->
  F32.INT_MIN <= Point2Di.x position <= F32.INT_MAX ->
  F32.INT_MIN <= Point2Di.y position <= F32.INT_MAX ->
  src_width <= F32.INT_MAX -> src_height <= F32.INT_MAX ->
  0 <= X < PixelBuffer.width dest -> 0 <= Y < PixelBuffer.height dest ->
  Point2Di.x position <= X < Point2Di.x position + src_width ->
  Point2Di.y position <= Y < Point2Di.y position + src_height ->
  PixelBuffer.get
    (PixelBuffer.blit_loop (fun _ => source) src_width src_height combine position dest)
    X Y
  = combine (PixelBuffer.get dest X Y)
            (source (X - Point2Di.x position) (Y - Point2Di.y position)).
Proof.
  intros Hwf Hw Hh Hpx Hpy Hsw Hsh HX HY HcX HcY.
  apply blit_loop_written; auto. apply contains_inside; assumption.
Qed.


(** ** Alpha blending *)

Lemma land_lor_mask (a mask : Z) : Z.land (Z.lor a mask) mask = mask.
Proof.
  apply Z.bits_inj'. intros n _.
  rewrite Z.land_spec, Z.lor_spec.
  destruct (Z.testbit mask n);
    [rewrite orb_true_r; reflexivity | apply andb_false_r].
Qed.

Lemma low_byte_forced (a : Z) : Z.land (Z.lor a 255 mod 2 ^ 32) 0xFF = 255.
Proof.
  rewrite <- Z.land_ones by lia.
  rewrite <- Z.land_assoc.
  change (Z.land (Z.ones 32) 255) with 255.
  apply land_lor_mask.
Qed.

(** C7, as stated, fails: a foreground pixel with alpha 0 blitted onto a
    transparent destination pixel leaves that pixel as it was, and so with
    alpha 0, not 255. *)
Lemma blit_with_alpha_keeps_transparent :
  let D := PixelBuffer.mk [0] 1 1 in
  let S := PixelBuffer.mk [0x11223300] 1 1 in
  PixelBuffer.blend_pixels 0 0x11223300 = 0
  /\ Z.land (PixelBuffer.get (PixelBuffer.blit_with_alpha D S (Point2Di.mk 0 0)) 0 0) 0xFF = 0.
Proof. split; reflexivity. Qed.

(** C7 (amended): a foreground alpha of 0 leaves the destination pixel
    unchanged, a foreground alpha of 255 replaces it with the foreground,
    and whenever the foreground alpha is not 0 the pixel written back has
    its alpha channel at 255. *)
Theorem blend_pixels_alpha (background foreground : Z) :
  (Z.land foreground 0xFF = 0 ->
   PixelBuffer.blend_pixels background foreground = background)
  /\ (Z.land foreground 0xFF = 255 ->
      PixelBuffer.blend_pixels background foreground = foreground)
  /\ (Z.land foreground 0xFF <> 0 ->
      Z.land (PixelBuffer.blend_pixels background foreground) 0xFF = 255).
Proof.
  unfold PixelBuffer.blend_pixels.
  destruct (Z.land foreground 255 =? 0) eqn:E0.
  - apply Z.eqb_eq in E0. repeat split; intros H; auto; congruence.
  - apply Z.eqb_neq in E0.
    destruct (Z.land foreground 255 =? 255) eqn:E255.
    + apply Z.eqb_eq in E255. repeat split; intros H; auto; congruence.
    + apply Z.eqb_neq in E255. repeat split; intros H; try congruence.
      apply low_byte_forced.
Qed.

(** The three cases on an opaque red background: a foreground with alpha 0,
    one with alpha 255, one with alpha 128. *)
Lemma blend_pixels_alpha_witness :
  PixelBuffer.blend_pixels 0xFF0000FF 0x11223300 = 0xFF0000FF
  /\ PixelBuffer.blend_pixels 0xFF0000FF 0x112233FF = 0x112233FF
  /\ Z.land (PixelBuffer.blend_pixels 0xFF0000FF 0x0000FF80) 0xFF = 255.
Proof.
  split; [| split].
  - apply (proj1 (blend_pixels_alpha 0xFF0000FF 0x11223300)). reflexivity.
  - apply (proj1 (proj2 (blend_pixels_alpha 0xFF0000FF 0x112233FF))). reflexivity.
  - apply (proj2 (proj2 (blend_pixels_alpha 0xFF0000FF 0x0000FF80))). discriminate.
Defined.

(** [blit_with_alpha] stores [blend_pixels dest src] at every destination
    pixel the source covers. *)
Lemma blit_with_alpha_inside (D S : PixelBuffer.t) (p : Point2Di.t) (x y : Z) :
  well_formed D ->
  PixelBuffer.width D <= F32.INT_MAX -> PixelBuffer.height D <= F32.INT_MAX ->
  0 <= PixelBuffer.width S <= F32.INT_MAX -> 0 <= PixelBuffer.height S <= F32.INT_MAX ->
  F32.INT_MIN <= Point2Di.x p <= F32.INT_MAX ->
  F32.INT_MIN <= Point2Di.y p <= F32.INT_MAX ->
  0 <= x < PixelBuffer.width D -> 0 <= y < PixelBuffer.height D ->
  Point2Di.x p <= x < Point2Di.x p + PixelBuffer.width S ->
  Point2Di.y p <= y < Point2Di.y p + PixelBuffer.height S ->
  PixelBuffer.get (PixelBuffer.blit_with_alpha D S p) x y =
  PixelBuffer.blend_pixels (PixelBuffer.get D x y)
                           (PixelBuffer.get S (x - Point2Di.x p) (y - Point2Di.y p)).
Proof.
  intros HD HDw HDh HSw HSh Hpx Hpy Hx Hy Hcx Hcy.
  unfold PixelBuffer.blit_with_alpha.
  rewrite !wrap32_small by (unfold F32.INT_MIN; lia).
  apply blit_loop_inside; auto; lia.
Qed.

(* ================================================================== *)
(** * Properties of the generator *)

Section GeneratorProperties.
Variable R : StdRandom.
Variable M : Libm.

(** ** Determinism *)

(** With a non-zero seed, nothing a call observes of the generator or of the
    outside world reaches the structure it builds. *)
Lemma generate_structure_seeded (g1 g2 : TreeGenerator.t R) (env1 env2 : Env)
  (P : TreeParameters.t) :
  TreeGenerator.actual_seed env1 P = TreeGenerator.actual_seed env2 P ->
  TreeGenerator.generate_structure R M g1 env1 P
  = TreeGenerator.generate_structure R M g2 env2 P.
Proof.
  intros Hseed. unfold TreeGenerator.generate_structure. rewrite Hseed. reflexivity.
Qed.

Lemma actual_seed_nonzero (env : Env) (P : TreeParameters.t) :
  TreeParameters.random_seed P <> 0 ->
  TreeGenerator.actual_seed env P = TreeParameters.random_seed P.
Proof.
  intros H. unfold TreeGenerator.actual_seed.
  destruct (Z.eqb_spec (TreeParameters.random_seed P) 0); congruence.
Qed.

Lemma output_same_seed (g1 g2 : TreeGenerator.t R) (env1 env2 : Env)
  (P : TreeParameters.t) :
  TreeGenerator.actual_seed env1 P = TreeGenerator.actual_seed env2 P ->
  same_output (output R M g1 env1 P) (output R M g2 env2 P).
Proof.
  intros Hseed. unfold output, TreeGenerator.generate.
  rewrite (generate_structure_seeded g1 g2 env1 env2 P Hseed), Hseed.
  destruct (TreeGenerator.generate_structure R M g2 env2 P) as [tree g'].
  cbn. unfold same_output. cbn. repeat split; reflexivity.
Qed.

(** C1: for a parameter set with a non-zero [random_seed], two calls of
    [generate] give the same branch count, leaf count and maximal depth and
    the same pixels, whatever the state of the generator they start from
    (in particular the state the first call leaves) and whatever the random
    device and the clock give them. *)
Theorem generate_deterministic (g1 g2 : TreeGenerator.t R) (env1 env2 : Env)
  (P : TreeParameters.t) :
  TreeParameters.random_seed P <> 0 ->
  let r1 := fst (TreeGenerator.generate R M g1 env1 P) in
  let r2 := fst (TreeGenerator.generate R M g2 env2 P) in
  TreeMetadata.branch_count (snd r1) = TreeMetadata.branch_count (snd r2)
  /\ TreeMetadata.leaf_count (snd r1) = TreeMetadata.leaf_count (snd r2)
  /\ TreeMetadata.max_depth (snd r1) = TreeMetadata.max_depth (snd r2)
  /\ fst r1 = fst r2.
Proof.
  intros Hseed r1 r2.
  destruct (output_same_seed g1 g2 env1 env2 P) as (Hpix & _ & Hb & Hl & Hd & _).
  - rewrite !actual_seed_nonzero by exact Hseed. reflexivity.
  - unfold output in *. subst r1 r2. auto.
Qed.

(** The second of two calls in a row on one generator. *)
Corollary generate_twice (g : TreeGenerator.t R) (env1 env2 : Env)
  (P : TreeParameters.t) :
  TreeParameters.random_seed P <> 0 ->
  let '(r1, g') := TreeGenerator.generate R M g env1 P in
  let '(r2, _) := TreeGenerator.generate R M g' env2 P in
  same_output r1 r2.
Proof.
  intros Hseed.
  destruct (TreeGenerator.generate R M g env1 P) as [r1 g'] eqn:E1.
  destruct (TreeGenerator.generate R M g' env2 P) as [r2 g''] eqn:E2.
  replace r1 with (output R M g env1 P) by (unfold output; rewrite E1; reflexivity).
  replace r2 with (output R M g' env2 P) by (unfold output; rewrite E2; reflexivity).
  apply output_same_seed. rewrite !actual_seed_nonzero by exact Hseed. reflexivity.
Qed.

(** ** The batch *)

Lemma generate_batch_loop_nth :
  forall (ps : list TreeParameters.t) (g : TreeGenerator.t R) (envs : nat -> Env)
         (call : nat) (results : list (PixelBuffer.t * TreeMetadata.t)),
    let out := fst (TreeGenerator.generate_batch_loop R M g envs call ps results) in
    List.length out = (List.length results + List.length ps)%nat
    /\ (forall i r, nth_error results i = Some r -> nth_error out i = Some r)
    /\ (forall i P, nth_error ps i = Some P ->
          exists g' : TreeGenerator.t R,
            nth_error out (List.length results + i)
            = Some (output R M g' (envs (call + i)%nat) P)).
Proof.
  induction ps as [| P ps IH]; intros g envs call results out.
  - subst out. cbn. repeat split.
    + lia.
    + auto.
    + intros [| i] P' H; discriminate.
  - subst out. cbn [TreeGenerator.generate_batch_loop].
    destruct (TreeGenerator.generate R M g (envs call) P) as [result g'] eqn:E.
    destruct (IH g' envs (S call) (results ++ [result])) as (Hlen & Hpre & Hnth).
    rewrite length_app in Hlen, Hnth. cbn [List.length] in *.
    repeat split.
    + lia.
    + intros i r Hi. apply Hpre. rewrite nth_error_app1; [exact Hi |].
      apply nth_error_Some. congruence.
    + intros [| i] P' HP'.
      * cbn in HP'. injection HP' as <-. exists g.
        rewrite !Nat.add_0_r. unfold output. rewrite E. cbn [fst].
        apply Hpre. rewrite nth_error_app2 by lia.
        rewrite Nat.sub_diag. reflexivity.
      * cbn in HP'. destruct (Hnth i P' HP') as [g'' Hg''].
        exists g''.
        replace (List.length results + S i)%nat with (List.length results + 1 + i)%nat by lia.
        replace (call + S i)%nat with (S call + i)%nat by lia.
        exact Hg''.
Qed.

(** C9 (amended): [generate_batch] returns one result per parameter set,
    in the same order, and the i-th result has the pixels and the metadata,
    the elapsed time apart, of a call [generate(Pi)] on its own, whenever
    [Pi] has a non-zero seed (or the random device answers both calls
    alike). *)
Theorem generate_batch_in_order (g : TreeGenerator.t R) (envs : nat -> Env)
  (ps : list TreeParameters.t) :
  let results := fst (TreeGenerator.generate_batch R M g envs ps) in
  List.length results = List.length ps
  /\ (forall i P, nth_error ps i = Some P ->
        exists r, nth_error results i = Some r
                  /\ (forall (g' : TreeGenerator.t R) (env' : Env),
                        TreeParameters.random_seed P <> 0
                        \/ random_device env' = random_device (envs i) ->
                        same_output r (output R M g' env' P))).
Proof.
  intros results.
  destruct (generate_batch_loop_nth ps g envs 0 []) as (Hlen & _ & Hnth).
  fold (TreeGenerator.generate_batch R M g envs ps) in Hlen, Hnth.
  fold results in Hlen, Hnth. cbn [List.length Nat.add] in Hlen, Hnth.
  split; [exact Hlen |].
  intros i P HP. destruct (Hnth i P HP) as [gi Hgi].
  eexists. split; [exact Hgi |].
  intros g' env' Hseed. apply output_same_seed.
  destruct Hseed as [Hseed | Hdev].
  - rewrite !actual_seed_nonzero by exact Hseed. reflexivity.
  - unfold TreeGenerator.actual_seed. rewrite Hdev. reflexivity.
Qed.
End GeneratorProperties.

(** C9, as stated, fails in two ways.  A parameter set with seed 0 takes
    its seed from the random device, so the batch and the single call build
    different trees (here 83 branches against 151); and the elapsed time in
    the metadata is what the clock gave each call. *)
Lemma generate_batch_differs :
  let g := TreeGenerator.make std_random 1 (Build_Env 1 0 0) in
  let P0 := TreePresets.oak in
  let P1 := TreeParameters.set_random_seed 1 TreePresets.oak in
  (map (fun r => TreeMetadata.branch_count (snd r))
       (fst (TreeGenerator.generate_batch std_random ref_libm g (fun _ => Build_Env 1 0 0) [P0]))
   = [83]
   /\ TreeMetadata.branch_count (snd (output std_random ref_libm g (Build_Env 2 0 0) P0)) = 151)
  /\ (map (fun r => TreeMetadata.generation_time_ms (snd r))
          (fst (TreeGenerator.generate_batch std_random ref_libm g (fun _ => Build_Env 1 0 1000) [P1]))
      = [F32.of_Z 1]
      /\ TreeMetadata.generation_time_ms (snd (output std_random ref_libm g (Build_Env 1 0 2000) P1))
         = F32.of_Z 2).
Proof.
  cbv zeta. split; split; lazy; reflexivity.
Qed.


(** The oak preset with seed 12345, from two generators constructed
    differently and under different clocks. *)
Lemma generate_deterministic_witness :
  let g1 := TreeGenerator.make std_random 12345 (Build_Env 7 0 0) in
  let g2 := TreeGenerator.make std_random 0 (Build_Env 8 0 0) in
  let P := TreeParameters.set_random_seed 12345 TreePresets.oak in
  let r1 := fst (TreeGenerator.generate std_random ref_libm g1 (Build_Env 7 10 250) P) in
  let r2 := fst (TreeGenerator.generate std_random ref_libm g2 (Build_Env 8 300 900) P) in
  TreeMetadata.branch_count (snd r1) = TreeMetadata.branch_count (snd r2)
  /\ TreeMetadata.leaf_count (snd r1) = TreeMetadata.leaf_count (snd r2)
  /\ TreeMetadata.max_depth (snd r1) = TreeMetadata.max_depth (snd r2)
  /\ fst r1 = fst r2.
Proof.
  apply (generate_deterministic std_random ref_libm
           (TreeGenerator.make std_random 12345 (Build_Env 7 0 0))
           (TreeGenerator.make std_random 0 (Build_Env 8 0 0))
           (Build_Env 7 10 250) (Build_Env 8 300 900)
           (TreeParameters.set_random_seed 12345 TreePresets.oak)).
  cbn. lia.
Defined.

(** A batch of two seeded oaks: the second result against a single call. *)
Lemma generate_batch_in_order_witness :
  let g := TreeGenerator.make std_random 12345 (Build_Env 7 0 0) in
  let ps := [TreeParameters.set_random_seed 1000 TreePresets.oak;
             TreeParameters.set_random_seed 1001 TreePresets.oak] in
  let results :=
    fst (TreeGenerator.generate_batch std_random ref_libm g (fun _ => Build_Env 7 0 0) ps) in
  List.length results = List.length ps
  /\ exists r, nth_error results 1 = Some r
               /\ same_output r (output std_random ref_libm g (Build_Env 9 5 6)
                                        (TreeParameters.set_random_seed 1001 TreePresets.oak)).
Proof.
  cbv zeta.
  destruct (generate_batch_in_order std_random ref_libm
              (TreeGenerator.make std_random 12345 (Build_Env 7 0 0))
              (fun _ => Build_Env 7 0 0)
              [TreeParameters.set_random_seed 1000 TreePresets.oak;
               TreeParameters.set_random_seed 1001 TreePresets.oak]) as [Hlen Hnth].
  split; [exact Hlen |].
  destruct (Hnth 1%nat (TreeParameters.set_random_seed 1001 TreePresets.oak) eq_refl)
    as [r [Hr Hsame]].
  exists r. split; [exact Hr |].
  apply Hsame. left. cbn. lia.
Defined.

(* ================================================================== *)
(** * Multiplying a thickness by the decay factor *)

Lemma pow2_succ (d : positive) : 2 ^ Zpos d = 2 * 2 ^ (Zpos d - 1).
Proof.
  replace (Zpos d) with (Z.succ (Zpos d - 1)) at 1 by lia.
  apply Z.pow_succ_r. lia.
Qed.

Lemma digits_bounds (m : positive) :
  2 ^ (digits m - 1) <= Zpos m < 2 ^ digits m.
Proof.
  unfold digits. induction m as [m IH | m IH |]; cbn [digits2_pos].
  - rewrite Pos2Z.inj_succ, Pos2Z.inj_xI.
    replace (Z.succ (Zpos (digits2_pos m)) - 1) with (Zpos (digits2_pos m)) by lia.
    rewrite Z.pow_succ_r by lia. rewrite pow2_succ in *. lia.
  - rewrite Pos2Z.inj_succ, Pos2Z.inj_xO.
    replace (Z.succ (Zpos (digits2_pos m)) - 1) with (Zpos (digits2_pos m)) by lia.
    rewrite Z.pow_succ_r by lia. rewrite pow2_succ in *. lia.
  - cbn. lia.
Qed.

Lemma digits_pos (m : positive) : 1 <= digits m.
Proof. unfold digits. lia. Qed.

Lemma pow2_lt_mono (a b : Z) : 0 <= a -> 2 ^ a < 2 ^ b -> a < b.
Proof.
  intros Ha H. destruct (Z_lt_ge_dec a b) as [|Hge]; [assumption|].
  exfalso. assert (2 ^ b <= 2 ^ a).
  { destruct (Z_lt_ge_dec b 0).
    - rewrite (Z.pow_neg_r 2 b) by lia. apply Z.pow_nonneg. lia.
    - apply Z.pow_le_mono_r; lia. }
  lia.
Qed.

(** The value bounds the digits from both sides. *)
Lemma digits_le (m : positive) (k : Z) : 0 <= k -> Zpos m < 2 ^ k -> digits m <= k.
Proof.
  intros Hk H. pose proof (digits_bounds m) as [Hlo _]. pose proof (digits_pos m).
  assert (2 ^ (digits m - 1) < 2 ^ k) by lia.
  apply pow2_lt_mono in H1; lia.
Qed.

Lemma digits_ge (m : positive) (k : Z) : 2 ^ (k - 1) <= Zpos m -> k <= digits m.
Proof.
  intros H. pose proof (digits_bounds m) as [_ Hhi]. pose proof (digits_pos m).
  destruct (Z_le_gt_dec k 0); [lia|].
  assert (2 ^ (k - 1) < 2 ^ digits m) by lia.
  apply pow2_lt_mono in H1; lia.
Qed.

(** ** The shift register *)

Lemma shr_1_shifted (M k : Z) (rec : shr_record) :
  0 <= M -> 0 <= k -> shifted M k rec -> shifted M (k + 1) (shr_1 rec).
Proof.
  intros HM Hk [Hm Hrs]. destruct rec as [m r s]. cbn [shr_m shr_r shr_s] in *.
  assert (Ha : 0 < 2 ^ k) by (apply Z.pow_pos_nonneg; lia).
  assert (Hpow : 2 ^ (k + 1) = 2 ^ k * 2) by (rewrite Z.pow_add_r by lia; reflexivity).
  assert (Hdiv : M / 2 ^ (k + 1) = m / 2)
    by (rewrite Hpow, <- Z.div_div by lia; rewrite Hm; reflexivity).
  assert (Hmod : M mod 2 ^ (k + 1) = 0 -> M mod 2 ^ k = 0 /\ m mod 2 = 0).
  { intros H0. pose proof (Z.div_mod M (2 ^ (k + 1)) ltac:(lia)) as E1.
    rewrite H0, Hdiv, Hpow in E1.
    assert (M = 2 ^ k * (2 * (m / 2))) by lia.
    split.
    - rewrite H, Z.mul_comm. apply Z.mod_mul. lia.
    - assert (m = 2 * (m / 2)).
      { rewrite Hm, H at 1. rewrite Z.mul_comm, Z.div_mul by lia. reflexivity. }
      rewrite H1, Z.mul_comm. apply Z.mod_mul. lia. }
  unfold shifted. rewrite Hdiv.
  assert (Hnn : 0 <= m) by (rewrite Hm; apply Z.div_pos; lia).
  unfold shr_1.
  destruct m as [| [p | p |] | p]; cbn [shr_m shr_r shr_s]; try lia.
  - split; [reflexivity |]. intros [Hf | Hs]; [discriminate |].
    intros H0. apply Hmod in H0. destruct H0 as [H0 _].
    apply orb_true_iff in Hs. tauto.
  - split.
    + rewrite Pos2Z.inj_xI. apply Z.div_unique with (r := 1); lia.
    + intros _ H0. apply Hmod in H0. destruct H0 as [_ H0].
      rewrite Pos2Z.inj_xI in H0.
      rewrite Z.add_comm, Z.mul_comm, Z.mod_add in H0 by lia. discriminate.
  - split.
    + rewrite Pos2Z.inj_xO. symmetry. rewrite Z.mul_comm. apply Z.div_mul. lia.
    + intros [Hf | Hs]; [discriminate |].
      intros H0. apply Hmod in H0. destruct H0 as [H0 _].
      apply orb_true_iff in Hs. tauto.
  - split; [reflexivity |]. intros _ H0. apply Hmod in H0. destruct H0 as [_ H0].
    discriminate.
Qed.

Lemma iter_shr_shifted (M : Z) (p : positive) :
  0 <= M ->
  forall (k : Z) (rec : shr_record),
    0 <= k -> shifted M k rec -> shifted M (k + Zpos p) (iter_pos shr_1 p rec).
Proof.
  intros HM. induction p as [p IH | p IH |]; intros k rec Hk H; cbn [iter_pos].
  - replace (k + Zpos p~1) with (k + 1 + Zpos p + Zpos p) by lia.
    apply IH; [lia |]. apply IH; [lia |]. apply shr_1_shifted; assumption.
  - replace (k + Zpos p~0) with (k + Zpos p + Zpos p) by lia.
    apply IH; [lia |]. apply IH; assumption.
  - apply shr_1_shifted; assumption.
Qed.

Lemma shr_shifted (M E n : Z) :
  0 <= M -> 0 <= n ->
  shifted M n (fst (shr (Build_shr_record M false false) E n))
  /\ snd (shr (Build_shr_record M false false) E n) = E + n.
Proof.
  intros HM Hn. unfold shr. destruct n as [| p | p]; try lia; cbn [fst snd].
  - split; [| lia]. split; cbn.
    + rewrite Z.div_1_r. reflexivity.
    + intros [H | H]; discriminate.
  - split; [| reflexivity].
    replace (Zpos p) with (0 + Zpos p) at 1 by lia.
    apply iter_shr_shifted; [assumption | lia |].
    split; cbn.
    + rewrite Z.div_1_r. reflexivity.
    + intros [H | H]; discriminate.
Qed.

(** Rounding to nearest even moves up by at most one, and only from an
    inexact position. *)
Lemma round_nearest_even_bounds (rec : shr_record) :
  let m1 := round_nearest_even (shr_m rec) (loc_of_shr_record rec) in
  m1 = shr_m rec \/ (m1 = shr_m rec + 1 /\ (shr_r rec = true \/ shr_s rec = true)).
Proof.
  destruct rec as [m [|] [|]]; cbn; auto.
  destruct (Z.even m); auto.
Qed.


Lemma fexp_eq (e : Z) : fexp F32.prec F32.emax e = Z.max (e - 24) (-149).
Proof. reflexivity. Qed.

Lemma bounded_inv (m : positive) (e : Z) :
  bounded F32.prec F32.emax m e = true ->
  e = Z.max (digits m + e - 24) (-149) /\ e <= 104.
Proof.
  unfold bounded, canonical_mantissa. intros H.
  apply andb_prop in H. destruct H as [H1 H2].
  apply Z.eqb_eq in H1. apply Z.leb_le in H2.
  rewrite fexp_eq in H1. unfold digits. change (F32.emax - F32.prec) with 104 in H2. lia.
Qed.

Lemma bounded_intro (m : positive) (e : Z) :
  e = Z.max (digits m + e - 24) (-149) -> e <= 104 ->
  bounded F32.prec F32.emax m e = true.
Proof.
  intros H1 H2. unfold bounded, canonical_mantissa.
  apply andb_true_intro. split.
  - apply Z.eqb_eq. rewrite fexp_eq. unfold digits in H1. lia.
  - apply Z.leb_le. change (F32.emax - F32.prec) with 104. lia.
Qed.

(** ** Quotients by a power of two, the order on positive numbers *)

Lemma div_pow2_lt (M n d : Z) :
  0 <= M -> 0 <= n -> n <= d -> M < 2 ^ d -> M / 2 ^ n < 2 ^ (d - n).
Proof.
  intros HM Hn Hd H.
  apply Z.div_lt_upper_bound; [apply Z.pow_pos_nonneg; lia |].
  rewrite <- Z.pow_add_r by lia. replace (n + (d - n)) with d by lia. exact H.
Qed.

Lemma div_pow2_ge (M n d : Z) :
  0 <= n -> n <= d -> 2 ^ d <= M -> 2 ^ (d - n) <= M / 2 ^ n.
Proof.
  intros Hn Hd H.
  apply Z.div_le_lower_bound; [apply Z.pow_pos_nonneg; lia |].
  rewrite <- Z.pow_add_r by lia. replace (n + (d - n)) with d by lia. exact H.
Qed.

Lemma leb_finite (q mx : positive) (e ex : Z) :
  e < ex \/ (e = ex /\ Zpos q <= Zpos mx) ->
  SFleb (S754_finite false q e) (S754_finite false mx ex) = true.
Proof.
  intros H. unfold SFleb, SFcompare.
  destruct H as [H | [-> H]].
  - apply Z.compare_lt_iff in H. rewrite H. reflexivity.
  - rewrite Z.compare_refl. change (Pos.compare_cont Eq q mx) with (Pos.compare q mx).
    destruct (Pos.compare_spec q mx) as [E | E | E]; try reflexivity.
    exfalso. apply Pos2Z.pos_lt_pos in E. lia.
Qed.

Lemma pow2_le_mono (a b : Z) : 0 <= a <= b -> 2 ^ a <= 2 ^ b.
Proof. intros H. apply Z.pow_le_mono_r; lia. Qed.

(** ** The product of a positive number and a factor of at most 1

    [SFmul] rounds the exact product to nearest even; the exact product is
    at most [x], and [x] is representable, so the rounded product is at
    most [x] too.  The product may underflow to zero; it never
    overflows. *)
Lemma mul_decay (mx md : positive) (ex ed : Z) :
  bounded F32.prec F32.emax mx ex = true ->
  bounded F32.prec F32.emax md ed = true ->
  ed <= 0 -> Zpos md <= 2 ^ (- ed) ->
  let x := S754_finite false mx ex in
  let r := SFmul F32.prec F32.emax x (S754_finite false md ed) in
  (r = S754_zero false
   \/ exists m e, r = S754_finite false m e /\ bounded F32.prec F32.emax m e = true)
  /\ SFleb r x = true.
Proof.
  intros Hx Hd Hed Hle. cbv zeta.
  apply bounded_inv in Hx. destruct Hx as [Hcx Hbx].
  apply bounded_inv in Hd. destruct Hd as [Hcd Hbd].
  pose proof (digits_bounds mx) as [Hmx_lo Hmx_hi].
  pose proof (digits_bounds md) as [Hmd_lo Hmd_hi].
  pose proof (digits_bounds (mx * md)) as [HM_lo HM_hi].
  pose proof (digits_pos mx) as Hdmx. pose proof (digits_pos md) as Hdmd.
  pose proof (digits_pos (mx * md)) as HdM.
  set (dmx := digits mx) in *. set (dmd := digits md) in *.
  set (dM := digits (mx * md)) in *.
  set (M := Zpos (mx * md)) in *.
  assert (HM : M = Zpos mx * Zpos md) by apply Pos2Z.inj_mul.
  set (E := ex + ed).
  (* the number of digits of the product *)
  assert (Hp_ed : 0 < 2 ^ (- ed)) by (apply Z.pow_pos_nonneg; lia).
  assert (HdM_hi : dM <= dmx - ed).
  { apply digits_le; [lia |]. fold M. rewrite HM.
    replace (dmx - ed) with (dmx + - ed) by lia. rewrite Z.pow_add_r by lia. nia. }
  assert (HdM_lo : dmx + dmd - 1 <= dM).
  { apply digits_ge. fold M. rewrite HM.
    replace (dmx + dmd - 1 - 1) with ((dmx - 1) + (dmd - 1)) by lia.
    rewrite Z.pow_add_r by lia.
    assert (0 < 2 ^ (dmx - 1)) by (apply Z.pow_pos_nonneg; lia).
    assert (0 < 2 ^ (dmd - 1)) by (apply Z.pow_pos_nonneg; lia).
    nia. }
  (* the first shift *)
  set (n := fexp F32.prec F32.emax (dM + E) - E).
  assert (Hn_eq : n = Z.max (dM + E - 24) (-149) - E) by (unfold n; rewrite fexp_eq; reflexivity).
  assert (Hn : 0 <= n) by (unfold E in *; lia).
  set (e1 := E + n).
  assert (He1 : e1 = Z.max (dM + E - 24) (-149)) by (unfold e1; lia).
  assert (He1_ex : e1 <= ex) by (unfold E in *; lia).
  assert (HMnn : 0 <= M) by (unfold M; lia).
  pose proof (shr_shifted M E n HMnn Hn) as [[Hm_n Hrs] He'].
  unfold SFmul. cbn [xorb]. unfold binary_round_aux, shr_fexp.
  cbn [shr_record_of_loc Zdigits2].
  fold M. fold dM in n |- *. change (Z.pos (digits2_pos (mx * md))) with dM.
  fold E. fold n.
  destruct (shr (Build_shr_record M false false) E n) as [rec1 e1'] eqn:Eshr1.
  cbn [fst snd] in Hm_n, Hrs, He'. subst e1'. fold e1.
  (* rounding *)
  set (m_n := M / 2 ^ n) in *.
  assert (Hp_n : 0 < 2 ^ n) by (apply Z.pow_pos_nonneg; lia).
  assert (Hm_n_nn : 0 <= m_n) by (apply Z.div_pos; lia).
  set (K := Zpos mx * 2 ^ (ex - e1)).
  assert (Hp_K : 0 < 2 ^ (ex - e1)) by (apply Z.pow_pos_nonneg; lia).
  assert (HK : 2 ^ n * K = Zpos mx * 2 ^ (- ed)).
  { unfold K. replace (- ed) with (n + (ex - e1)) by (unfold e1, E; lia).
    rewrite Z.pow_add_r by lia. ring. }
  assert (HMK : M <= 2 ^ n * K) by (rewrite HK, HM; nia).
  assert (Hm_n_K : m_n <= K).
  { unfold m_n. apply Z.div_le_upper_bound; [lia | exact HMK]. }
  pose proof (round_nearest_even_bounds rec1) as Hround. cbv zeta in Hround.
  set (m1 := round_nearest_even (shr_m rec1) (loc_of_shr_record rec1)) in *.
  rewrite Hm_n in Hround.
  assert (Hm1_K : m1 <= K).
  { destruct Hround as [-> | [-> Hinexact]]; [exact Hm_n_K |].
    apply Hrs in Hinexact.
    destruct (Z.eq_dec m_n K) as [Heq | Hne]; [| lia].
    exfalso. apply Hinexact.
    pose proof (Z.div_mod M (2 ^ n) ltac:(lia)) as Hdm. fold m_n in Hdm.
    pose proof (Z.mod_pos_bound M (2 ^ n) Hp_n).
    rewrite Heq in Hdm. lia. }
  assert (Hm1_lo : m_n <= m1) by (destruct Hround as [-> | [-> _]]; lia).
  assert (Hm_n_hi : m_n < 2 ^ 24).
  { unfold m_n.
    assert (Hd : M < 2 ^ (Z.max dM n)).
    { eapply Z.lt_le_trans; [exact HM_hi |]. apply pow2_le_mono. lia. }
    apply div_pow2_lt with (n := n) in Hd; try lia.
    eapply Z.lt_le_trans; [exact Hd |]. apply pow2_le_mono. lia. }
  assert (Hm1_hi : m1 <= 2 ^ 24) by (destruct Hround as [-> | [-> _]]; lia).
  (* the second shift *)
  destruct m1 as [| q | q] eqn:Em1; [| | lia].
  - (* the product rounds to zero *)
    cbn [Zdigits2].
    assert (Hn2 : fexp F32.prec F32.emax (0 + e1) - e1 <= 0) by (rewrite fexp_eq; lia).
    unfold shr.
    destruct (fexp F32.prec F32.emax (0 + e1) - e1) as [| p | p] eqn:En2; [| lia |];
      cbn [shr_m]; split; auto.
  - cbn [Zdigits2]. change (Z.pos (digits2_pos q)) with (digits q).
    pose proof (digits_bounds q) as [Hq_lo Hq_hi]. pose proof (digits_pos q) as Hdq.
    set (d1 := digits q) in *.
    destruct (Z_lt_ge_dec (Zpos q) (2 ^ 24)) as [Hsmall | Hbig].
    + (* no carry out of the mantissa *)
      assert (Hd1 : d1 <= 24) by (apply digits_le; [lia | exact Hsmall]).
      assert (Hn2 : fexp F32.prec F32.emax (d1 + e1) - e1 <= 0) by (rewrite fexp_eq; lia).
      unfold shr.
      assert (Hres :
        (let '(mrs'', e'') :=
           match fexp F32.prec F32.emax (d1 + e1) - e1 with
           | Z.pos p => (iter_pos shr_1 p (Build_shr_record (Z.pos q) false false),
                         e1 + (fexp F32.prec F32.emax (d1 + e1) - e1))
           | _ => (Build_shr_record (Z.pos q) false false, e1)
           end in
         match shr_m mrs'' with
         | 0 => S754_zero false
         | Z.pos m => if e'' <=? F32.emax - F32.prec then S754_finite false m e'' else S754_infinity false
         | Z.neg _ => S754_nan
         end) = S754_finite false q e1).
      { destruct (fexp F32.prec F32.emax (d1 + e1) - e1) as [| p | p] eqn:En2; [| lia |];
          cbn [shr_m]; change (F32.emax - F32.prec) with 104;
          (replace (e1 <=? 104) with true by (symmetry; apply Z.leb_le; lia)); reflexivity. }
      rewrite Hres. split.
      * right. exists q, e1. split; [reflexivity |].
        apply bounded_intro; [| lia]. fold d1.
        destruct (Z.eq_dec e1 (-149)) as [Hsub | Hnorm]; [lia |].
        assert (Hn_dM : n = dM - 24) by lia.
        assert (2 ^ 23 <= m_n).
        { unfold m_n. replace 23 with (dM - 1 - n) by lia.
          apply div_pow2_ge; lia. }
        assert (24 <= d1) by (apply digits_ge; change (24 - 1) with 23; lia).
        lia.
      * apply leb_finite.
        destruct (Z.eq_dec e1 ex) as [Heq | Hne]; [right | left; lia].
        split; [exact Heq |]. unfold K in Hm1_K. rewrite Heq, Z.sub_diag in Hm1_K.
        change (2 ^ 0) with 1 in Hm1_K. lia.
    + (* the mantissa carries: 2^24, one more shift *)
      assert (Hq : q = 16777216%positive).
      { apply Pos2Z.inj. change (Z.pos 16777216) with (2 ^ 24). lia. }
      subst q. change (digits 16777216) with 25 in d1. subst d1.
      assert (Hn2 : fexp F32.prec F32.emax (25 + e1) - e1 = 1) by (rewrite fexp_eq; lia).
      rewrite Hn2. cbn. change (F32.emax - F32.prec) with 104.
      assert (He1_lt : e1 < ex).
      { destruct (Z.eq_dec e1 ex) as [Heq | Hne]; [| lia].
        exfalso. unfold K in Hm1_K. rewrite Heq, Z.sub_diag in Hm1_K.
        change (2 ^ 0) with 1 in Hm1_K. change (Z.pos 16777216) with (2 ^ 24) in Hm1_K.
        assert (dmx <= 24) by lia.
        assert (2 ^ dmx <= 2 ^ 24) by (apply pow2_le_mono; lia). lia. }
      replace (e1 + 1 <=? 104) with true by (symmetry; apply Z.leb_le; lia).
      split.
      * right. exists 8388608%positive, (e1 + 1). split; [reflexivity |].
        apply bounded_intro; [| lia]. change (digits 8388608) with 24. lia.
      * apply leb_finite.
        destruct (Z.eq_dec (e1 + 1) ex) as [Heq | Hne]; [right | left; lia].
        split; [exact Heq |]. unfold K in Hm1_K.
        replace (ex - e1) with 1 in Hm1_K by lia.
        change (2 ^ 1) with 2 in Hm1_K. change (Z.pos 16777216) with 16777216 in Hm1_K.
        lia.
Qed.


(** ** Zeros included *)

Lemma leb_finite_inv (q mx : positive) (e ex : Z) :
  SFleb (S754_finite false q e) (S754_finite false mx ex) = true ->
  e < ex \/ (e = ex /\ Zpos q <= Zpos mx).
Proof.
  unfold SFleb, SFcompare. destruct (Z.compare_spec e ex) as [-> | H | H].
  - change (Pos.compare_cont Eq q mx) with (Pos.compare q mx).
    destruct (Pos.compare_spec q mx) as [E | E | E]; intros H; try discriminate; right.
    + subst. split; lia.
    + apply Pos2Z.pos_lt_pos in E. split; lia.
  - intros _. left. exact H.
  - discriminate.
Qed.

Lemma leb_refl (v : float) : nonneg_finite v -> F32.leb v v = true.
Proof.
  intros [[s ->] | (m & e & -> & _)]; [reflexivity |].
  apply leb_finite. right. split; lia.
Qed.

Lemma leb_trans (a b c : float) :
  nonneg_finite a -> nonneg_finite b -> nonneg_finite c ->
  F32.leb a b = true -> F32.leb b c = true -> F32.leb a c = true.
Proof.
  intros [[sa ->] | (ma & ea & -> & _)] [[sb ->] | (mb & eb & -> & _)]
         [[sc ->] | (mc & ec & -> & _)] Hab Hbc;
    try reflexivity; try discriminate.
  apply leb_finite_inv in Hab, Hbc. apply leb_finite. lia.
Qed.

Lemma decay_factor_inv (md : positive) (ed : Z) :
  bounded F32.prec F32.emax md ed = true ->
  F32.leb (S754_finite false md ed) F32.one = true ->
  ed <= 0 /\ Zpos md <= 2 ^ (- ed).
Proof.
  intros Hb Hle. apply bounded_inv in Hb. destruct Hb as [Hc _].
  change F32.one with (S754_finite false 8388608 (-23)) in Hle.
  apply leb_finite_inv in Hle.
  pose proof (digits_bounds md) as [_ Hhi]. pose proof (digits_pos md).
  destruct Hle as [Hlt | [-> Hm]].
  - split; [lia |].
    assert (2 ^ digits md <= 2 ^ (- ed)) by (apply pow2_le_mono; lia). lia.
  - split; [lia |]. exact Hm.
Qed.

Lemma mul_decay_le (x d : float) :
  nonneg_finite x -> decay_factor d ->
  nonneg_finite (F32.mul x d) /\ F32.leb (F32.mul x d) x = true.
Proof.
  intros [[sx ->] | (mx & ex & -> & Hx)] [[[sd ->] | (md & ed & -> & Hd)] Hle].
  - split; [left; eexists; reflexivity | reflexivity].
  - split; [left; eexists; reflexivity | reflexivity].
  - split; [left; eexists; reflexivity | reflexivity].
  - destruct (decay_factor_inv md ed Hd Hle) as [Hed Hmd].
    destruct (mul_decay mx md ex ed Hx Hd Hed Hmd) as [Hvalid Hleb].
    split; [| exact Hleb].
    destruct Hvalid as [Hz | Hf]; [left; eexists; exact Hz | right; exact Hf].
Qed.

Lemma decayed_le (d : float) :
  decay_factor d ->
  forall (k : nat) (x : float),
    nonneg_finite x ->
    nonneg_finite (decayed d k x) /\ F32.leb (decayed d k x) x = true.
Proof.
  intros Hd. induction k as [| k IH]; intros x Hx; cbn [decayed].
  - split; [exact Hx | apply leb_refl, Hx].
  - destruct (mul_decay_le x d Hx Hd) as [Hv Hle].
    destruct (IH (F32.mul x d) Hv) as [Hv' Hle'].
    split; [exact Hv' |].
    apply (leb_trans _ (F32.mul x d)); assumption.
Qed.

(* ================================================================== *)
(** * Properties of the L-system interpreter *)

Lemma nth_error_update_nth {A : Type} (f : A -> A) :
  forall (l : list A) (i k : nat),
    nth_error (update_nth i f l) k
    = if (k =? i)%nat then option_map f (nth_error l k) else nth_error l k.
Proof.
  induction l as [| h t IH]; intros [| i] [| k]; cbn; auto;
    destruct (k =? i)%nat; reflexivity.
Qed.

Lemma string_app_assoc (a b c : string) : ((a ++ b) ++ c = a ++ (b ++ c))%string.
Proof. induction a as [| x a IH]; cbn; [reflexivity | rewrite IH; reflexivity]. Qed.

Lemma count_app (c : ascii) (a b : string) :
  count c (a ++ b) = (count c a + count c b)%nat.
Proof. induction a as [| x a IH]; cbn; [reflexivity | rewrite IH; lia]. Qed.

Section LSystemProperties.
Variable R : StdRandom.
Variable M : Libm.
Variable params : TreeParameters.t.

Local Abbreviation interp := (LSystemGenerator.interp R).
Local Abbreviation step := (LSystemGenerator.step R M params).
Local Abbreviation run := (LSystemGenerator.run R M params).
Local Abbreviation tree := (LSystemGenerator.tree R).
Local Abbreviation current_state := (LSystemGenerator.current_state R).
Local Abbreviation current_branch := (LSystemGenerator.current_branch R).
Local Abbreviation branches := (fun i => TreeStructure.all_branches (LSystemGenerator.tree R i)).
Local Abbreviation decay :=
  (BranchParameters.thickness_decay (TreeParameters.branches params)).

Lemma run_app (a b : string) (i : interp) :
  run (a ++ b) i = run b (run a i).
Proof.
  revert i. induction a as [| c a IH]; intros i; cbn; [reflexivity | apply IH].
Qed.

(** *** Symbols that grow nothing *)

Lemma step_other_tree (c : ascii) (i : interp) :
  c <> "F"%char ->
  tree (step c i) = tree i /\ current_branch (step c i) = current_branch i.
Proof. intros Hc. symbol_cases c; auto. Qed.

Lemma step_depth (c : ascii) (i : interp) :
  c <> "]"%char ->
  LSystemState.depth (current_state (step c i))
  = LSystemState.depth (current_state i) + 1.
Proof.
  intros Hc. symbol_cases c; auto.
  all: destruct (TreeStructure.root _); try destruct (LSystemGenerator.current_branch _ _);
    reflexivity.
Qed.

Lemma step_thickness (c : ascii) (i : interp) :
  c <> "]"%char ->
  LSystemState.thickness (current_state (step c i))
  = F32.mul (LSystemState.thickness (current_state i)) decay.
Proof.
  intros Hc. symbol_cases c; auto.
  all: destruct (TreeStructure.root _); try destruct (LSystemGenerator.current_branch _ _);
    reflexivity.
Qed.

(** A stretch without growth and without a pop: the tree stands still while
    depth and thickness move on by one step per symbol. *)
Lemma run_quiet (s : string) :
  forall i : interp,
    count "F" s = O -> count "]" s = O ->
    tree (run s i) = tree i
    /\ current_branch (run s i) = current_branch i
    /\ LSystemState.depth (current_state (run s i))
       = LSystemState.depth (current_state i) + Z.of_nat (String.length s)
    /\ LSystemState.thickness (current_state (run s i))
       = decayed decay (String.length s) (LSystemState.thickness (current_state i)).
Proof.
  induction s as [| c s IH]; intros i HF Hpop.
  - cbn. repeat split; try reflexivity. lia.
  - cbn [count] in HF, Hpop.
    destruct (Ascii.eqb_spec c "F"); [discriminate |].
    destruct (Ascii.eqb_spec c "]"); [discriminate |].
    cbn [LSystemGenerator.run String.length decayed].
    destruct (IH (step c i) HF Hpop) as (Ht & Hc & Hd & Hth).
    destruct (step_other_tree c i) as [Ht' Hc']; [assumption |].
    rewrite Ht, Hc, Hd, Hth, Ht', Hc', step_depth, step_thickness by assumption.
    repeat split; try reflexivity. lia.
Qed.

(** *** The symbol F *)

Lemma step_grow (i : interp) :
  let bs := branches i in
  let n := List.length bs in
  let linked_to :=
    match TreeStructure.root (tree i), current_branch i with
    | Some _, Some cb => Some cb
    | _, _ => None
    end in
  exists b : Branch.t,
    branches (step "F" i)
    = match linked_to with
      | Some cb => update_nth cb (Branch.push_child n) bs
      | None => bs
      end ++ [b]
    /\ Branch.depth_level b = LSystemState.depth (current_state i)
    /\ Branch.thickness b = LSystemState.thickness (current_state i)
    /\ Branch.parent b = linked_to
    /\ Branch.children b = []
    /\ TreeStructure.root (tree (step "F" i))
       = match TreeStructure.root (tree i) with None => Some n | r => r end
    /\ current_branch (step "F" i) = Some n.
Proof.
  unfold LSystemGenerator.step, LSystemGenerator.interpret, LSystemGenerator.decay.
  cbn [Ascii.eqb Bool.eqb].
  destruct (TreeStructure.root (tree i)) as [r |] eqn:Er;
    [destruct (current_branch i) as [cb |] eqn:Ec |];
    cbn; rewrite ?Er, ?Ec; cbn; eexists; repeat split; reflexivity.
Qed.

Lemma step_length (c : ascii) (i : interp) :
  List.length (branches (step c i))
  = (List.length (branches i) + if Ascii.eqb c "F" then 1 else 0)%nat.
Proof.
  destruct (Ascii.eqb_spec c "F") as [-> | Hc].
  - destruct (step_grow i) as (b & Hbs & _). rewrite Hbs, length_app.
    destruct (TreeStructure.root (tree i)); [destruct (current_branch i) |];
      rewrite ?update_nth_length; reflexivity.
  - destruct (step_other_tree c i Hc) as [Ht _]. rewrite Ht. lia.
Qed.

Lemma run_length (s : string) :
  forall i : interp,
    List.length (branches (run s i)) = (List.length (branches i) + count "F" s)%nat.
Proof.
  induction s as [| c s IH]; intros i; cbn [LSystemGenerator.run count].
  - lia.
  - rewrite IH, step_length. lia.
Qed.

(** *** What a later symbol leaves of a branch: everything but its
    children *)

Lemma step_keeps (c : ascii) (i : interp) (k : nat) (b : Branch.t) :
  nth_error (branches i) k = Some b ->
  exists b' : Branch.t,
    nth_error (branches (step c i)) k = Some b'
    /\ Branch.parent b' = Branch.parent b
    /\ Branch.depth_level b' = Branch.depth_level b
    /\ Branch.thickness b' = Branch.thickness b.
Proof.
  intros Hk.
  destruct (Ascii.eqb_spec c "F") as [-> | Hc].
  - destruct (step_grow i) as (bn & Hbs & _). rewrite Hbs.
    assert (Hlt : (k < List.length (branches i))%nat)
      by (apply nth_error_Some; congruence).
    destruct (TreeStructure.root (tree i)); [destruct (current_branch i) as [cb |] |].
    + rewrite nth_error_app1 by (rewrite update_nth_length; exact Hlt).
      rewrite nth_error_update_nth, Hk.
      destruct (k =? cb)%nat; eexists; (split; [reflexivity |]); auto.
    + rewrite nth_error_app1 by exact Hlt. eauto.
    + rewrite nth_error_app1 by exact Hlt. eauto.
  - destruct (step_other_tree c i Hc) as [Ht _]. rewrite Ht. eauto.
Qed.

Lemma run_keeps (s : string) :
  forall (i : interp) (k : nat) (b : Branch.t),
    nth_error (branches i) k = Some b ->
    exists b' : Branch.t,
      nth_error (branches (run s i)) k = Some b'
      /\ Branch.parent b' = Branch.parent b
      /\ Branch.depth_level b' = Branch.depth_level b
      /\ Branch.thickness b' = Branch.thickness b.
Proof.
  induction s as [| c s IH]; intros i k b Hk; cbn [LSystemGenerator.run].
  - eauto.
  - destruct (step_keeps c i k b Hk) as (b1 & H1 & Hp1 & Hd1 & Ht1).
    destruct (IH (step c i) k b1 H1) as (b2 & H2 & Hp2 & Hd2 & Ht2).
    exists b2. repeat split; congruence.
Qed.

(** *** The arena is a chain *)

Lemma step_chain (c : ascii) (i : interp) :
  chain (TreeStructure.root (tree i)) (current_branch i) (branches i) ->
  chain (TreeStructure.root (tree (step c i))) (current_branch (step c i))
        (branches (step c i)).
Proof.
  intros (Hroot & Hcur & Hlink).
  destruct (Ascii.eqb_spec c "F") as [-> | Hc].
  2: { destruct (step_other_tree c i Hc) as [Ht Hcb]. rewrite Ht, Hcb.
       unfold chain. auto. }
  destruct (step_grow i) as (bn & Hbs & _ & _ & Hpar & Hch & Hroot' & Hcur').
  rewrite Hroot', Hcur', Hbs. rewrite Hroot, Hcur in *.
  destruct (branches i) as [| h t] eqn:Ebs.
  - (* the first branch *)
    cbn in *. split; [reflexivity |]. split; [reflexivity |].
    intros [| k] b Hk; cbn in Hk; [| destruct k; discriminate].
    injection Hk as <-. split; [exact Hpar | exact Hch].
  - (* a further branch: linked to the last *)
    cbn [List.length previous] in *.
    set (m := List.length t) in *.
    assert (Hlen : List.length (update_nth m (Branch.push_child (S m)) (h :: t) ++ [bn])
                   = S (S m)).
    { rewrite length_app, update_nth_length. cbn. lia. }
    unfold chain. rewrite Hlen. split; [| split; [reflexivity |]].
    + destruct (update_nth m (Branch.push_child (S m)) (h :: t)); reflexivity.
    + intros k b Hk.
      destruct (Nat.lt_ge_cases k (S m)) as [Hlt | Hge].
      * rewrite nth_error_app1 in Hk by (rewrite update_nth_length; exact Hlt).
        rewrite nth_error_update_nth in Hk.
        destruct (Nat.eqb_spec k m) as [-> | Hne].
        -- destruct (nth_error (h :: t) m) as [b0 |] eqn:E0; [| discriminate].
           cbn in Hk. injection Hk as <-.
           destruct (Hlink m b0 E0) as [Hp0 Hc0].
           rewrite Nat.ltb_irrefl in Hc0.
           split; [exact Hp0 |].
           cbn [Branch.children Branch.push_child]. rewrite Hc0.
           replace (S m <? S (S m))%nat with true by (symmetry; apply Nat.ltb_lt; lia).
           reflexivity.
        -- destruct (Hlink k b Hk) as [Hp0 Hc0].
           split; [exact Hp0 |]. rewrite Hc0.
           replace (S k <? S m)%nat with true by (symmetry; apply Nat.ltb_lt; lia).
           replace (S k <? S (S m))%nat with true by (symmetry; apply Nat.ltb_lt; lia).
           reflexivity.
      * rewrite nth_error_app2 in Hk by (rewrite update_nth_length; exact Hge).
        rewrite update_nth_length in Hk. cbn [List.length] in Hk. fold m in Hk.
        destruct (k - S m)%nat as [| d] eqn:Ed; [| destruct d; discriminate].
        cbn in Hk. injection Hk as <-.
        assert (k = S m) by lia. subst k.
        split; [exact Hpar |]. rewrite Hch.
        rewrite Nat.ltb_irrefl. reflexivity.
Qed.

Lemma run_chain (s : string) :
  forall i : interp,
    chain (TreeStructure.root (tree i)) (current_branch i) (branches i) ->
    chain (TreeStructure.root (tree (run s i))) (current_branch (run s i))
          (branches (run s i)).
Proof.
  induction s as [| c s IH]; intros i Hi; cbn [LSystemGenerator.run];
    [exact Hi | apply IH, step_chain, Hi].
Qed.

Lemma start_chain (rng : Random.t R) :
  let i := LSystemGenerator.start R params rng in
  chain (TreeStructure.root (tree i)) (current_branch i) (branches i).
Proof.
  cbn. split; [reflexivity |]. split; [reflexivity |].
  intros [| k] b Hk; discriminate.
Qed.

(** *** A child and its parent *)

(** The branch an F creates: where it lands in the arena and what it
    carries. *)
Lemma step_grow_new (i : interp) :
  chain (TreeStructure.root (tree i)) (current_branch i) (branches i) ->
  exists b : Branch.t,
    nth_error (branches (step "F" i)) (List.length (branches i)) = Some b
    /\ Branch.parent b = previous (List.length (branches i))
    /\ Branch.depth_level b = LSystemState.depth (current_state i)
    /\ Branch.thickness b = LSystemState.thickness (current_state i).
Proof.
  intros (Hroot & Hcur & _).
  destruct (step_grow i) as (b & Hbs & Hd & Ht & Hp & _).
  exists b. rewrite Hbs, Hp, Hroot, Hcur.
  destruct (branches i) as [| h t]; cbn [List.length previous].
  - cbn. auto.
  - rewrite nth_error_app2 by (rewrite update_nth_length; cbn; lia).
    rewrite update_nth_length. cbn [List.length]. rewrite Nat.sub_diag. cbn. auto.
Qed.

(** Two branches whose F are separated by a stretch without growth and
    without a pop: the later one is the child (the only one) of the earlier
    one; depth and thickness have moved on by one step per symbol from the
    state the parent was created in. *)
Lemma child_after_stretch (pre mid post : string) (rng : Random.t R) :
  count "F" mid = O -> count "]" mid = O ->
  let t :=
    fst (LSystemGenerator.string_to_tree R M
           (pre ++ String "F" (mid ++ String "F" post)) params rng) in
  let n := count "F" pre in
  exists parent child : Branch.t,
    nth_error (TreeStructure.all_branches t) n = Some parent
    /\ nth_error (TreeStructure.all_branches t) (S n) = Some child
    /\ Branch.children parent = [S n]
    /\ Branch.parent child = Some n
    /\ Branch.depth_level child
       = Branch.depth_level parent + 1 + Z.of_nat (String.length mid)
    /\ Branch.thickness child
       = decayed decay (S (String.length mid)) (Branch.thickness parent)
    /\ Branch.thickness parent
       = LSystemState.thickness
           (current_state (run pre (LSystemGenerator.start R params rng))).
Proof.
  intros HF Hpop t n. subst t.
  unfold LSystemGenerator.string_to_tree. cbn [fst].
  rewrite run_app. cbn [LSystemGenerator.run]. rewrite run_app.
  cbn [LSystemGenerator.run].
  set (i1 := run pre (LSystemGenerator.start R params rng)).
  assert (Hchain1 : chain (TreeStructure.root (tree i1)) (current_branch i1) (branches i1))
    by (apply run_chain, start_chain).
  assert (Hlen1 : List.length (branches i1) = n)
    by (unfold i1; rewrite run_length; reflexivity).
  (* the parent *)
  destruct (step_grow_new i1 Hchain1) as (b1 & Hb1 & _ & Hd1 & Ht1).
  rewrite Hlen1 in Hb1.
  set (i2 := step "F" i1) in *.
  assert (Hchain2 : chain (TreeStructure.root (tree i2)) (current_branch i2) (branches i2))
    by (apply step_chain, Hchain1).
  assert (Hlen2 : List.length (branches i2) = S n)
    by (unfold i2; rewrite step_length, Hlen1; cbn; lia).
  (* the stretch between *)
  destruct (run_quiet mid i2 HF Hpop) as (Htree3 & Hcur3 & Hd3 & Ht3).
  set (i3 := run mid i2) in *.
  assert (Hchain3 : chain (TreeStructure.root (tree i3)) (current_branch i3) (branches i3))
    by (apply run_chain, Hchain2).
  assert (Hlen3 : List.length (branches i3) = S n) by (rewrite Htree3; exact Hlen2).
  (* the child *)
  destruct (step_grow_new i3 Hchain3) as (b2 & Hb2 & Hp2 & Hd2 & Ht2).
  rewrite Hlen3 in Hb2, Hp2. cbn [previous] in Hp2.
  assert (Hb1' : nth_error (branches i3) n = Some b1) by (rewrite Htree3; exact Hb1).
  destruct (step_keeps "F" i3 n b1 Hb1') as (b1' & Hb1'' & _ & Hd1' & Ht1').
  set (i4 := step "F" i3) in *.
  (* what follows keeps both *)
  destruct (run_keeps post i4 n b1' Hb1'') as (p & Hp & _ & Hdp & Htp).
  destruct (run_keeps post i4 (S n) b2 Hb2) as (c & Hc & Hpc & Hdc & Htc).
  exists p, c. split; [exact Hp |]. split; [exact Hc |].
  split.
  { assert (Hchain5 : chain (TreeStructure.root (tree (run post i4)))
                            (current_branch (run post i4)) (branches (run post i4)))
      by (apply run_chain, step_chain, Hchain3).
    destruct Hchain5 as (_ & _ & Hlink).
    destruct (Hlink n p Hp) as [_ Hch]. rewrite Hch.
    rewrite run_length. unfold i4. rewrite step_length, Hlen3. cbn [Ascii.eqb Bool.eqb].
    replace (S n <? S n + 1 + count "F" post)%nat with true
      by (symmetry; apply Nat.ltb_lt; lia).
    reflexivity. }
  split; [congruence |].
  assert (Hstep_d : LSystemState.depth (current_state i2)
                    = LSystemState.depth (current_state i1) + 1)
    by (apply step_depth; discriminate).
  assert (Hstep_t : LSystemState.thickness (current_state i2)
                    = F32.mul (LSystemState.thickness (current_state i1)) decay)
    by (apply step_thickness; discriminate).
  split; [rewrite Hdc, Hd2, Hd3, Hstep_d, Hdp, Hd1', Hd1; lia |].
  split.
  - rewrite Htc, Ht2, Ht3, Hstep_t, Htp, Ht1', Ht1. reflexivity.
  - rewrite Htp, Ht1', Ht1. reflexivity.
Qed.

(** C3 (amended): when the F of a branch follows the F of the branch
    created before it with [k] symbols in between, none of them a pop, the
    later branch is the child (the only one) of the earlier one and its
    depth level is the parent's plus 1 plus [k]: the parent's plus 1 exactly
    when the two F stand side by side.  The thickness has then decayed
    [k + 1] times. *)
Theorem child_depth_level (pre mid post : string) (rng : Random.t R) :
  count "F" mid = O -> count "]" mid = O ->
  let t :=
    fst (LSystemGenerator.string_to_tree R M
           (pre ++ String "F" (mid ++ String "F" post)) params rng) in
  let n := count "F" pre in
  exists parent child : Branch.t,
    nth_error (TreeStructure.all_branches t) n = Some parent
    /\ nth_error (TreeStructure.all_branches t) (S n) = Some child
    /\ Branch.children parent = [S n]
    /\ Branch.parent child = Some n
    /\ Branch.depth_level child
       = Branch.depth_level parent + 1 + Z.of_nat (String.length mid)
    /\ Branch.thickness child
       = decayed decay (S (String.length mid)) (Branch.thickness parent).
Proof.
  intros HF Hpop t n.
  destruct (child_after_stretch pre mid post rng HF Hpop)
    as (parent & child & Hp & Hc & Hch & Hpar & Hd & Ht & _).
  exists parent, child. repeat split; assumption.
Qed.

(** *** The thickness along a stretch without a pop *)

Lemma interpret_sound_thickness (c : ascii) (i : interp) :
  sound_thickness R i -> sound_thickness R (LSystemGenerator.interpret R M params c i).
Proof.
  intros [Hcur Hstack]. unfold LSystemGenerator.interpret.
  destruct (Ascii.eqb c "F").
  { destruct (TreeStructure.root (tree i)); [destruct (current_branch i) |];
      split; assumption. }
  destruct (Ascii.eqb c "[").
  { split; [assumption | constructor; assumption]. }
  destruct (Ascii.eqb c "]").
  { destruct (LSystemGenerator.state_stack R i) as [| top rest] eqn:E;
      [split; [assumption | rewrite E; constructor] |].
    inversion Hstack; subst. split; assumption. }
  destruct (Ascii.eqb c "+").
  { destruct (Random.next_float_in R _ _ _). split; assumption. }
  destruct (Ascii.eqb c "-").
  { destruct (Random.next_float_in R _ _ _). split; assumption. }
  split; assumption.
Qed.

Lemma step_sound_thickness (c : ascii) (i : interp) :
  decay_factor decay -> sound_thickness R i -> sound_thickness R (step c i).
Proof.
  intros Hdecay Hi. apply (interpret_sound_thickness c) in Hi.
  destruct Hi as [Hcur Hstack]. split; [| exact Hstack].
  exact (proj1 (mul_decay_le _ _ Hcur Hdecay)).
Qed.

Lemma run_sound_thickness (s : string) :
  decay_factor decay ->
  forall i : interp, sound_thickness R i -> sound_thickness R (run s i).
Proof.
  intros Hdecay. induction s as [| c s IH]; intros i Hi; cbn [LSystemGenerator.run];
    [exact Hi | apply IH, step_sound_thickness; assumption].
Qed.

(** X29 (C2 where it holds).  With a base thickness that is a number and
    a decay factor of at most 1, a branch created without a pop since its
    parent's F is not thicker than its parent, rounding included. *)
Theorem child_not_thicker_without_pop (pre mid post : string) (rng : Random.t R) :
  nonneg_finite (BranchParameters.base_thickness (TreeParameters.branches params)) ->
  decay_factor decay ->
  count "F" mid = O -> count "]" mid = O ->
  let t :=
    fst (LSystemGenerator.string_to_tree R M
           (pre ++ String "F" (mid ++ String "F" post)) params rng) in
  let n := count "F" pre in
  exists parent child : Branch.t,
    nth_error (TreeStructure.all_branches t) n = Some parent
    /\ nth_error (TreeStructure.all_branches t) (S n) = Some child
    /\ Branch.children parent = [S n]
    /\ Branch.parent child = Some n
    /\ F32.leb (Branch.thickness child) (Branch.thickness parent) = true.
Proof.
  intros Hbase Hdecay HF Hpop t n.
  destruct (child_after_stretch pre mid post rng HF Hpop)
    as (parent & child & Hp & Hc & Hch & Hpar & _ & Ht & Hstate).
  exists parent, child. repeat split; try assumption.
  assert (Hsound : sound_thickness R (run pre (LSystemGenerator.start R params rng))).
  { apply run_sound_thickness; [exact Hdecay |]. split; [exact Hbase | constructor]. }
  destruct Hsound as [Hcur _]. rewrite <- Hstate in Hcur.
  rewrite Ht. exact (proj2 (decayed_le _ Hdecay _ _ Hcur)).
Qed.

(** *** What the interpreter never touches *)

Lemma step_static (c : ascii) (i : interp) :
  TreeStructure.leaf_clusters (tree (step c i)) = TreeStructure.leaf_clusters (tree i)
  /\ TreeStructure.parameters (tree (step c i)) = TreeStructure.parameters (tree i).
Proof.
  destruct (Ascii.eqb_spec c "F") as [-> | Hc].
  - unfold LSystemGenerator.step, LSystemGenerator.interpret, LSystemGenerator.decay.
    cbn [Ascii.eqb Bool.eqb].
    destruct (TreeStructure.root (tree i)) as [r |] eqn:Er;
      [destruct (current_branch i) as [cb |] eqn:Ec |];
      cbn; rewrite ?Er, ?Ec; cbn; auto.
  - destruct (step_other_tree c i Hc) as [Ht _]. rewrite Ht. auto.
Qed.

Lemma run_static (s : string) :
  forall i : interp,
    TreeStructure.leaf_clusters (tree (run s i)) = TreeStructure.leaf_clusters (tree i)
    /\ TreeStructure.parameters (tree (run s i)) = TreeStructure.parameters (tree i).
Proof.
  induction s as [| c s IH]; intros i; cbn [LSystemGenerator.run]; [auto |].
  destruct (IH (step c i)) as [H1 H2]. destruct (step_static c i) as [H3 H4].
  split; congruence.
Qed.

(** The structure [string_to_tree] returns: no leaf clusters yet, the
    parameters it was given, one branch per F, and the branches in a
    chain. *)
Lemma string_to_tree_shape (lstring : string) (rng : Random.t R) :
  let t := fst (LSystemGenerator.string_to_tree R M lstring params rng) in
  TreeStructure.leaf_clusters t = []
  /\ TreeStructure.parameters t = params
  /\ List.length (TreeStructure.all_branches t) = count "F" lstring
  /\ chain (TreeStructure.root t) (previous (count "F" lstring))
           (TreeStructure.all_branches t).
Proof.
  unfold LSystemGenerator.string_to_tree. cbn [fst].
  destruct (run_static lstring (LSystemGenerator.start R params rng)) as [Hl Hp].
  pose proof (run_length lstring (LSystemGenerator.start R params rng)) as Hlen.
  pose proof (run_chain lstring _ (start_chain rng)) as Hchain.
  cbn in Hl, Hp, Hlen.
  split; [exact Hl |]. split; [exact Hp |]. split; [exact Hlen |].
  destruct Hchain as (Hr & _ & Hk). unfold chain.
  split; [exact Hr |]. split; [rewrite <- Hlen; reflexivity | exact Hk].
Qed.
End LSystemProperties.

(* ================================================================== *)
(** * Branches and leaves of a generated tree *)

(** In a chain the recursion of [get_leaf_branches] walks from branch to
    branch down to the last one, which is the only leaf branch; a fuel of
    the number of branches still ahead is enough. *)
Lemma get_leaf_branches_fuel (bs : list Branch.t) :
  (forall k b, nth_error bs k = Some b -> linked (List.length bs) k b) ->
  forall (fuel k : nat),
    (k < List.length bs)%nat -> (List.length bs - k <= fuel)%nat ->
    TreeStructure.get_leaf_branches_from fuel bs k = [(List.length bs - 1)%nat].
Proof.
  intros Hlink. induction fuel as [| fuel IH]; intros k Hk Hfuel; [lia |].
  cbn [TreeStructure.get_leaf_branches_from].
  destruct (nth_error bs k) as [b |] eqn:Eb;
    [| apply nth_error_None in Eb; lia].
  destruct (Hlink k b Eb) as [_ Hch]. unfold Branch.is_leaf. rewrite Hch.
  destruct (Nat.ltb_spec (S k) (List.length bs)) as [Hlt | Hge].
  - cbn [flat_map]. rewrite app_nil_r. apply IH; lia.
  - f_equal. lia.
Qed.

Lemma get_leaf_branches_chain (t : TreeStructure.t) (current : option nat) :
  chain (TreeStructure.root t) current (TreeStructure.all_branches t) ->
  TreeStructure.get_leaf_branches t
  = match TreeStructure.all_branches t with
    | [] => []
    | _ => [(List.length (TreeStructure.all_branches t) - 1)%nat]
    end.
Proof.
  intros (Hroot & _ & Hlink). unfold TreeStructure.get_leaf_branches. rewrite Hroot.
  destruct (TreeStructure.all_branches t) as [| h bs] eqn:E; [reflexivity |].
  apply (get_leaf_branches_fuel (h :: bs) Hlink); cbn; lia.
Qed.

Lemma calculate_bounding_box_keeps (t : TreeStructure.t) :
  TreeStructure.all_branches (TreeStructure.calculate_bounding_box t)
  = TreeStructure.all_branches t
  /\ TreeStructure.leaf_clusters (TreeStructure.calculate_bounding_box t)
     = TreeStructure.leaf_clusters t.
Proof.
  unfold TreeStructure.calculate_bounding_box.
  destruct (TreeStructure.all_branches t) eqn:E; cbn; rewrite ?E; auto.
Qed.

Section Counts.
Variable R : StdRandom.
Variable M : Libm.

(** *** The string always keeps its F *)

Lemma rewrite_count (probability : float) (s : string) :
  forall rng : Random.t R,
    (count "F" s <= count "F" (fst (LSystemGenerator.rewrite R probability s rng)))%nat.
Proof.
  induction s as [| c s IH]; intros rng; cbn [LSystemGenerator.rewrite count fst]; [lia |].
  destruct (Ascii.eqb c "F") eqn:Ec.
  - destruct (Random.next_float R rng) as [u rng1].
    specialize (IH rng1).
    destruct (LSystemGenerator.rewrite R probability s rng1) as [next_result rng2].
    cbn [fst] in *. rewrite count_app.
    destruct (F32.ltb u probability); cbn; lia.
  - specialize (IH rng).
    destruct (LSystemGenerator.rewrite R probability s rng) as [next_result rng2].
    cbn [fst count] in *. rewrite Ec. lia.
Qed.

Lemma iterate_count (probability : float) (iteration : nat) :
  forall (s : string) (rng : Random.t R),
    (count "F" s
     <= count "F" (fst (LSystemGenerator.iterate R iteration probability s rng)))%nat.
Proof.
  induction iteration as [| k IH]; intros s rng; cbn [LSystemGenerator.iterate fst]; [lia |].
  pose proof (rewrite_count probability s rng) as H1.
  destruct (LSystemGenerator.rewrite R probability s rng) as [next_result rng1].
  cbn [fst] in H1. specialize (IH next_result rng1). lia.
Qed.

Lemma generate_string_count (P : TreeParameters.t) (rng : Random.t R) :
  (1 <= count "F" (fst (LSystemGenerator.generate_string R P rng)))%nat.
Proof.
  unfold LSystemGenerator.generate_string.
  eapply Nat.le_trans; [| apply iterate_count]. cbn. lia.
Qed.

(** *** The leaf clusters: one Bernoulli trial, for the last branch *)

Lemma leaf_cluster_for_count (t : TreeStructure.t) (b : Branch.t)
  (clusters : list LeafCluster.t) (rng : Random.t R) :
  List.length (fst (TreeGenerator.leaf_cluster_for R t b (clusters, rng)))
  = (List.length clusters
     + if F32.ltb (fst (Random.next_float R rng))
                  (LeafParameters.density (TreeParameters.leaves (TreeStructure.parameters t)))
       then 1 else 0)%nat.
Proof.
  unfold TreeGenerator.leaf_cluster_for.
  destruct (Random.next_float R rng) as [u rng1]. cbn [fst].
  destruct (F32.ltb u _); cbn [fst]; [| lia].
  destruct (Random.next_float_in R _ _ rng1) as [j rng2].
  destruct (Random.next_int R 0 3 rng2) as [k rng3].
  destruct (TreeGenerator.jitter_channel R _ _ rng3) as [cr rng4].
  destruct (TreeGenerator.jitter_channel R _ _ rng4) as [cg rng5].
  destruct (TreeGenerator.jitter_channel R _ _ rng5) as [cb rng6].
  cbn [fst]. rewrite length_app. reflexivity.
Qed.

Lemma generate_leaf_clusters_count (t : TreeStructure.t) (current : option nat)
  (rng : Random.t R) :
  chain (TreeStructure.root t) current (TreeStructure.all_branches t) ->
  TreeStructure.leaf_clusters t = [] ->
  let density := LeafParameters.density (TreeParameters.leaves (TreeStructure.parameters t)) in
  List.length (TreeStructure.leaf_clusters (fst (TreeGenerator.generate_leaf_clusters R t rng)))
  = if F32.leb density F32.zero then O
    else match TreeStructure.all_branches t with
         | [] => O
         | _ => if F32.ltb (fst (Random.next_float R rng)) density then 1%nat else O
         end.
Proof.
  intros Hchain Hnone density. unfold TreeGenerator.generate_leaf_clusters.
  fold density. destruct (F32.leb density F32.zero); cbn [fst]; [rewrite Hnone; reflexivity |].
  rewrite (get_leaf_branches_chain t current Hchain), Hnone.
  destruct (TreeStructure.all_branches t) as [| h bs] eqn:E; [reflexivity |].
  rewrite <- E. cbn [fold_left].
  destruct (nth_error (TreeStructure.all_branches t)
              (List.length (TreeStructure.all_branches t) - 1)) as [b |] eqn:Eb.
  - pose proof (leaf_cluster_for_count t b [] rng) as Hcount.
    destruct (TreeGenerator.leaf_cluster_for R t b ([], rng)) as [clusters rng'].
    cbn [fst TreeStructure.leaf_clusters TreeStructure.set_leaf_clusters] in *.
    rewrite Hcount. fold density. rewrite ?E. reflexivity.
  - apply nth_error_None in Eb. rewrite E in Eb. cbn in Eb. lia.
Qed.

(** *** The counts in the metadata *)

(** What [generate] reports: as many branches as the string has F, at least
    one; and one leaf cluster if the leaf density (after [validate]) is
    positive and a single draw [u] falls below it, none otherwise. *)
Lemma generate_counts (g : TreeGenerator.t R) (env : Env) (P : TreeParameters.t) :
  let metadata := snd (output R M g env P) in
  let density := LeafParameters.density (TreeParameters.leaves (TreeParameters.validate P)) in
  0 < TreeMetadata.branch_count metadata
  /\ exists u : float,
       TreeMetadata.leaf_count metadata
       = if F32.leb density F32.zero then 0
         else if F32.ltb u density then 1 else 0.
Proof.
  unfold output, TreeGenerator.generate, TreeGenerator.generate_structure.
  pose proof (generate_string_count (TreeParameters.validate P)
                (Random.make R (TreeGenerator.actual_seed env P))) as HF.
  destruct (LSystemGenerator.generate_string R _ _) as [lstring rng1]. cbn [fst] in HF.
  pose proof (string_to_tree_shape R M (TreeParameters.validate P) lstring rng1)
    as (Hnone & Hparams & Hlen & Hchain).
  destruct (LSystemGenerator.string_to_tree R M lstring _ rng1) as [t rng2].
  cbn [fst] in *.
  pose proof (generate_leaf_clusters_count t _ rng2 Hchain Hnone) as Hleaves.
  assert (Hkeep : TreeStructure.all_branches (fst (TreeGenerator.generate_leaf_clusters R t rng2))
                  = TreeStructure.all_branches t).
  { unfold TreeGenerator.generate_leaf_clusters.
    destruct (F32.leb _ _); [reflexivity |].
    destruct (fold_left _ _ _). reflexivity. }
  destruct (TreeGenerator.generate_leaf_clusters R t rng2) as [t' rng3].
  cbn [fst snd] in *.
  destruct (calculate_bounding_box_keeps t') as [Hb Hl].
  cbn [TreeMetadata.branch_count TreeMetadata.leaf_count].
  unfold TreeStructure.branch_count, TreeStructure.leaf_cluster_count.
  rewrite Hb, Hl, Hkeep, Hlen, Hleaves, Hparams. split; [lia |].
  exists (fst (Random.next_float R rng2)).
  set (density := LeafParameters.density _).
  destruct (F32.leb density F32.zero); [reflexivity |].
  destruct (TreeStructure.all_branches t); [cbn in Hlen; lia |].
  destruct (F32.ltb _ density); reflexivity.
Qed.

(** *** The dead archetype *)

Lemma validate_density (P : TreeParameters.t) :
  TreeParameters.type P = Dead
  \/ is_zero (LeafParameters.density (TreeParameters.leaves P)) ->
  is_zero (LeafParameters.density (TreeParameters.leaves (TreeParameters.validate P))).
Proof.
  destruct P as [ty gs se cw ch os br [d sb sv cv bc av] tr wd ws af rs de].
  unfold TreeParameters.validate, TreeParameters.adjust_for_season,
    TreeParameters.adjust_for_growth, TreeParameters.adjust_for_type, is_zero.
  cbn. intros [-> | [[|] ->]]; [| destruct ty ..]; destruct se; cbn;
    eexists; reflexivity.
Qed.

Lemma density_zero_no_leaves (g : TreeGenerator.t R) (env : Env) (P : TreeParameters.t) :
  is_zero (LeafParameters.density (TreeParameters.leaves (TreeParameters.validate P))) ->
  TreeMetadata.leaf_count (snd (output R M g env P)) = 0.
Proof.
  intros [s Hs]. destruct (generate_counts g env P) as [_ [u Hu]].
  rewrite Hu, Hs. destruct s; reflexivity.
Qed.

(** C5: with the dead preset, whatever the seed, [generate] reports
    [leaf_count = 0]; and so it does for any parameter set whose leaf
    density has been set to 0. *)
Theorem dead_has_no_leaves (g : TreeGenerator.t R) (env : Env) :
  (forall seed : Z,
     TreeMetadata.leaf_count
       (snd (output R M g env (TreeParameters.set_random_seed seed TreePresets.dead))) = 0)
  /\ (forall P : TreeParameters.t,
        TreeMetadata.leaf_count
          (snd (output R M g env
                  (TreeParameters.set_leaves
                     (LeafParameters.set_density F32.zero (TreeParameters.leaves P)) P))) = 0).
Proof.
  split.
  - intros seed. apply density_zero_no_leaves, validate_density. left. reflexivity.
  - intros P. apply density_zero_no_leaves, validate_density. right.
    exists false. reflexivity.
Qed.
End Counts.

(* ================================================================== *)
(** * The rules of the branch graph on generated trees *)

Lemma depth_rule_decided (t : TreeStructure.t) (p : nat) :
  depth_rule t -> depth_rule_at t p = true.
Proof.
  intros H. unfold depth_rule_at, with_children.
  destruct (nth_error (TreeStructure.all_branches t) p) as [parent |] eqn:Ep; [| reflexivity].
  apply forallb_forall. intros c Hc.
  destruct (nth_error (TreeStructure.all_branches t) c) as [child |] eqn:Ec; [| reflexivity].
  apply Z.eqb_eq. exact (H p parent c child Ep Hc Ec).
Qed.

Lemma thickness_rule_decided (t : TreeStructure.t) (p : nat) :
  thickness_rule t -> thickness_rule_at t p = true.
Proof.
  intros H. unfold thickness_rule_at, with_children.
  destruct (nth_error (TreeStructure.all_branches t) p) as [parent |] eqn:Ep; [| reflexivity].
  apply forallb_forall. intros c Hc.
  destruct (nth_error (TreeStructure.all_branches t) c) as [child |] eqn:Ec; [| reflexivity].
  exact (H p parent c child Ep Hc Ec).
Qed.

(** C3, as stated, fails on the string one rewriting pass produces, "F"
    followed by the branching pattern: the second branch is the child of the
    first and lies three levels below it, since the push and the turn
    between them count as levels too.  This is the structure of
    [generate(palm)] with seed 1. *)
Lemma branching_pattern_depths :
  let t :=
    fst (LSystemGenerator.string_to_tree std_random ref_libm "F[+F][-F]"
           TreeParameters.default (Random.make std_random 1)) in
  map (fun b => (Branch.parent b, Branch.children b, Branch.depth_level b))
      (TreeStructure.all_branches t)
  = [(None, [1%nat], 0); (Some 0%nat, [2%nat], 3); (Some 1%nat, [], 4)]
  /\ ~ depth_rule t
  /\ fst (LSystemGenerator.generate_string std_random
            (TreeParameters.validate (seeded 1 TreePresets.palm))
            (Random.make std_random 1))
     = "F[+F][-F]"%string.
Proof.
  cbv zeta. split; [vm_compute; reflexivity |]. split; [| vm_compute; reflexivity].
  intros H. apply depth_rule_decided with (p := 0%nat) in H.
  vm_compute in H. discriminate.
Qed.

(** The branching pattern itself: the push and the turn lie between the two
    F, so the child is three levels down. *)
Lemma child_depth_level_witness :
  let t :=
    fst (LSystemGenerator.string_to_tree std_random ref_libm
           (EmptyString ++ String "F" ("[+" ++ String "F" "][-F]"))
           TreeParameters.default (Random.make std_random 1)) in
  exists parent child : Branch.t,
    nth_error (TreeStructure.all_branches t) (count "F" EmptyString) = Some parent
    /\ nth_error (TreeStructure.all_branches t) (S (count "F" EmptyString)) = Some child
    /\ Branch.children parent = [S (count "F" EmptyString)]
    /\ Branch.parent child = Some (count "F" EmptyString)
    /\ Branch.depth_level child
       = Branch.depth_level parent + 1 + Z.of_nat (String.length "[+")
    /\ Branch.thickness child
       = decayed (BranchParameters.thickness_decay
                    (TreeParameters.branches TreeParameters.default))
                 (S (String.length "[+")) (Branch.thickness parent).
Proof.
  apply (child_depth_level std_random ref_libm TreeParameters.default
           EmptyString "[+" "][-F]" (Random.make std_random 1)); reflexivity.
Defined.

(** C2 at a failing input: the string of two rewriting passes in which the
    first branch of the pattern branches again.  The last branch is created
    after two pops, with the thickness saved at the first push decayed
    twice (depth 4), and is linked as the child of the branch created just
    before it (depth 7): the child is thicker than its parent. *)
Theorem thicker_child :
  let t :=
    fst (LSystemGenerator.string_to_tree std_random ref_libm "F[+F[+F][-F]][-F]"
           TreeParameters.default (Random.make std_random 1)) in
  map (fun b => (Branch.parent b, Branch.children b, Branch.depth_level b,
                 Branch.thickness b))
      (TreeStructure.all_branches t)
  = [(None, [1%nat], 0, S754_finite false 8388608 (-22));
     (Some 0%nat, [2%nat], 3, S754_finite false 8589935 (-23));
     (Some 1%nat, [3%nat], 6, S754_finite false 8796094 (-24));
     (Some 2%nat, [4%nat], 7, S754_finite false 14073751 (-25));
     (Some 3%nat, [], 4, S754_finite false 13743896 (-24))]
  /\ thickness_rule_at t 3 = false
  /\ ~ thickness_rule t.
Proof.
  cbv zeta. split; [vm_compute; reflexivity |]. split; [vm_compute; reflexivity |].
  intros H. apply thickness_rule_decided with (p := 3%nat) in H.
  vm_compute in H. discriminate.
Qed.

(** The same on a generated tree: [generate(oak)] with seed 1, whatever the
    trigonometry, the generator and the environment. *)
Lemma thicker_child_generated (M : Libm) (g : TreeGenerator.t std_random) (env : Env) :
  ~ thickness_rule
      (fst (TreeGenerator.generate_structure std_random M g env (seeded 1 TreePresets.oak))).
Proof.
  intros H. apply thickness_rule_decided with (p := 5%nat) in H.
  vm_compute in H. discriminate.
Qed.

(** The rule does hold across the first two branches of that string: the
    default parameters (base thickness 2.0, decay 0.8) meet the conditions,
    and no pop lies between the first F and the second. *)
Lemma first_child_not_thicker :
  let t :=
    fst (LSystemGenerator.string_to_tree std_random ref_libm
           (EmptyString ++ String "F" ("[+" ++ String "F" "[+F][-F]][-F]"))
           TreeParameters.default (Random.make std_random 1)) in
  exists parent child : Branch.t,
    nth_error (TreeStructure.all_branches t) (count "F" EmptyString) = Some parent
    /\ nth_error (TreeStructure.all_branches t) (S (count "F" EmptyString)) = Some child
    /\ Branch.children parent = [S (count "F" EmptyString)]
    /\ Branch.parent child = Some (count "F" EmptyString)
    /\ F32.leb (Branch.thickness child) (Branch.thickness parent) = true.
Proof.
  apply (child_not_thicker_without_pop std_random ref_libm TreeParameters.default
           EmptyString "[+" "[+F][-F]][-F]" (Random.make std_random 1)).
  - right. exists 8388608%positive, (-22). split; reflexivity.
  - split; [| reflexivity].
    right. exists 13421773%positive, (-24). split; reflexivity.
  - reflexivity.
  - reflexivity.
Defined.

(** C4 at a failing input: the oak preset keeps the default
    [max_branches = 32], and with seed 1 the tree has 83 branches; no step
    of the pipeline reads [max_branches]. *)
Theorem max_branches_not_enforced (M : Libm) (g : TreeGenerator.t std_random) (env : Env) :
  let P := seeded 1 TreePresets.oak in
  BranchParameters.max_branches (TreeParameters.branches (TreeParameters.validate P)) = 32
  /\ TreeMetadata.branch_count (snd (output std_random M g env P)) = 83.
Proof.
  cbv zeta. split; vm_compute; reflexivity.
Qed.

(** C6 at failing inputs: the palm preset with seed 4 (the string stays "F";
    the one trial for the one branch draws 0.547 against a density of 0.4),
    the pine preset with seed 4 and the oak preset with seed 6 all give a
    tree without a leaf cluster. *)
Theorem presets_without_leaves (M : Libm) (g : TreeGenerator.t std_random) (env : Env) :
  let palm := snd (output std_random M g env (seeded 4 TreePresets.palm)) in
  let pine := snd (output std_random M g env (seeded 4 TreePresets.pine)) in
  let oak := snd (output std_random M g env (seeded 6 TreePresets.oak)) in
  (TreeMetadata.branch_count palm = 1 /\ TreeMetadata.leaf_count palm = 0)
  /\ (TreeMetadata.branch_count pine = 19 /\ TreeMetadata.leaf_count pine = 0)
  /\ (TreeMetadata.branch_count oak = 19 /\ TreeMetadata.leaf_count oak = 0).
Proof.
  cbv zeta. repeat split; vm_compute; reflexivity.
Qed.

(* ================================================================== *)
(** * The line loop ends *)

Section DrawLine.
Variables x1 y1 dx dy sx sy color : Z.
Hypothesis dx_nonneg : 0 <= dx.
Hypothesis dy_nonneg : 0 <= dy.
Hypothesis sx_unit : sx = 1 \/ sx = -1.
Hypothesis sy_unit : sy = 1 \/ sy = -1.

(** With [rx] steps left along x and [ry] along y, the error term is
    [dx - dy + rx * dy - ry * dx]; then a round that does not break always
    steps, and never past the end point.  So [rx + ry + 1] rounds reach the
    [break], and fuel beyond that changes nothing. *)
Lemma draw_line_loop_fuel (fuel : nat) :
  forall (extra : nat) (buffer : PixelBuffer.t) (x y err rx ry : Z),
    0 <= rx <= dx -> 0 <= ry <= dy ->
    x1 = x + sx * rx -> y1 = y + sy * ry ->
    err = dx - dy + rx * dy - ry * dx ->
    (Z.to_nat (rx + ry + 1) <= fuel)%nat ->
    TreeRenderer.draw_line_loop (fuel + extra) buffer x y err x1 y1 dx dy sx sy color
    = TreeRenderer.draw_line_loop fuel buffer x y err x1 y1 dx dy sx sy color.
Proof.
  induction fuel as [| fuel IH]; intros extra buffer x y err rx ry Hrx Hry Hx Hy Herr Hfuel;
    [lia |].
  cbn [Nat.add TreeRenderer.draw_line_loop].
  set (buffer' := if PixelBuffer.contains buffer x y
                  then PixelBuffer.set buffer x y color else buffer).
  destruct ((x =? x1) && (y =? y1)) eqn:Hend; [reflexivity |].
  assert (Hleft : 0 < rx + ry).
  { apply andb_false_iff in Hend.
    destruct Hend as [Hne | Hne]; apply Z.eqb_neq in Hne; nia. }
  destruct (- dy <? 2 * err) eqn:Hstepx; destruct (2 * err <? dx) eqn:Hstepy;
    try apply Z.ltb_lt in Hstepx; try apply Z.ltb_ge in Hstepx;
    try apply Z.ltb_lt in Hstepy; try apply Z.ltb_ge in Hstepy.
  - (* both steps *)
    assert (0 < rx) by nia. assert (0 < ry) by nia.
    apply (IH extra buffer' _ _ _ (rx - 1) (ry - 1)); nia.
  - (* x alone *)
    assert (0 < rx) by nia.
    apply (IH extra buffer' _ _ _ (rx - 1) ry); nia.
  - (* y alone *)
    assert (0 < ry) by nia.
    apply (IH extra buffer' _ _ _ rx (ry - 1)); nia.
  - (* no step: only at the end point *)
    nia.
Qed.
End DrawLine.

(** [draw_line] runs its loop to the [break]: any further fuel gives the
    same buffer. *)
Lemma draw_line_fuel (buffer : PixelBuffer.t) (x0 y0 x1 y1 color : Z) (extra : nat) :
  let dx := Z.abs (x1 - x0) in
  let dy := Z.abs (y1 - y0) in
  let sx := if x0 <? x1 then 1 else -1 in
  let sy := if y0 <? y1 then 1 else -1 in
  TreeRenderer.draw_line_loop (Z.to_nat (dx + dy + 1) + extra) buffer x0 y0 (dx - dy)
                              x1 y1 dx dy sx sy color
  = TreeRenderer.draw_line buffer x0 y0 x1 y1 color.
Proof.
  intros dx dy sx sy. unfold TreeRenderer.draw_line. fold dx dy sx sy.
  apply (draw_line_loop_fuel x1 y1 dx dy sx sy color) with (rx := dx) (ry := dy);
    subst dx dy sx sy; try lia.
  - destruct (x0 <? x1); auto.
  - destruct (y0 <? y1); auto.
  - destruct (Z.ltb_spec x0 x1); lia.
  - destruct (Z.ltb_spec y0 y1); lia.
Qed.

(* ================================================================== *)
(** * The bound the depth gives *)

Section Bounds.
Variable R : StdRandom.
Variable M : Libm.

Lemma rewrite_bound (probability : float) (s : string) :
  forall rng : Random.t R,
    (count "F" (fst (LSystemGenerator.rewrite R probability s rng)) <= 3 * count "F" s)%nat.
Proof.
  induction s as [| c s IH]; intros rng; cbn [LSystemGenerator.rewrite count fst]; [lia |].
  destruct (Ascii.eqb c "F") eqn:Ec.
  - destruct (Random.next_float R rng) as [u rng1].
    specialize (IH rng1).
    destruct (LSystemGenerator.rewrite R probability s rng1) as [next_result rng2].
    cbn [fst] in *. rewrite count_app.
    destruct (F32.ltb u probability); cbn; lia.
  - specialize (IH rng).
    destruct (LSystemGenerator.rewrite R probability s rng) as [next_result rng2].
    cbn [fst count] in *. rewrite Ec. lia.
Qed.

Lemma iterate_bound (probability : float) (iteration : nat) :
  forall (s : string) (rng : Random.t R),
    (count "F" (fst (LSystemGenerator.iterate R iteration probability s rng))
     <= 3 ^ iteration * count "F" s)%nat.
Proof.
  induction iteration as [| k IH]; intros s rng; cbn [LSystemGenerator.iterate fst].
  - cbn. lia.
  - pose proof (rewrite_bound probability s rng) as H1.
    destruct (LSystemGenerator.rewrite R probability s rng) as [next_result rng1].
    cbn [fst] in H1. specialize (IH next_result rng1).
    rewrite Nat.pow_succ_r'. nia.
Qed.

(** The branch count of a generated tree is the number of F in its string. *)
Lemma generate_branch_count (g : TreeGenerator.t R) (env : Env) (P : TreeParameters.t) :
  TreeMetadata.branch_count (snd (output R M g env P))
  = Z.of_nat (count "F" (fst (LSystemGenerator.generate_string R (TreeParameters.validate P)
                                (Random.make R (TreeGenerator.actual_seed env P))))).
Proof.
  unfold output, TreeGenerator.generate, TreeGenerator.generate_structure.
  destruct (LSystemGenerator.generate_string R _ _) as [lstring rng1]. cbn [fst].
  pose proof (string_to_tree_shape R M (TreeParameters.validate P) lstring rng1)
    as (_ & _ & Hlen & _).
  destruct (LSystemGenerator.string_to_tree R M lstring _ rng1) as [t rng2].
  cbn [fst] in *.
  assert (Hkeep : TreeStructure.all_branches (fst (TreeGenerator.generate_leaf_clusters R t rng2))
                  = TreeStructure.all_branches t).
  { unfold TreeGenerator.generate_leaf_clusters.
    destruct (F32.leb _ _); [reflexivity |].
    destruct (fold_left _ _ _). reflexivity. }
  destruct (TreeGenerator.generate_leaf_clusters R t rng2) as [t' rng3].
  cbn [fst snd] in *.
  destruct (calculate_bounding_box_keeps t') as [Hb _].
  cbn [TreeMetadata.branch_count]. unfold TreeStructure.branch_count.
  rewrite Hb, Hkeep, Hlen. reflexivity.
Qed.

(** The part of C4 that holds: the configured depth bounds the work.  Every
    pass at most triples the number of F, so a tree has at most
    [3 ^ max_depth] branches (59049 at the largest depth, 10). *)
Lemma branch_count_bound (g : TreeGenerator.t R) (env : Env) (P : TreeParameters.t) :
  let max_depth :=
    BranchParameters.max_depth (TreeParameters.branches (TreeParameters.validate P)) in
  0 <= max_depth ->
  TreeMetadata.branch_count (snd (output R M g env P)) <= 3 ^ max_depth.
Proof.
  intros max_depth Hdepth. rewrite generate_branch_count.
  unfold LSystemGenerator.generate_string. fold max_depth.
  pose proof (iterate_bound
                (BranchParameters.branch_probability
                   (TreeParameters.branches (TreeParameters.validate P)))
                (Z.to_nat max_depth) "F"
                (Random.make R (TreeGenerator.actual_seed env P))) as H.
  cbn [count Ascii.eqb Bool.eqb] in H.
  apply Nat2Z.inj_le in H.
  rewrite Nat2Z.inj_mul, Nat2Z.inj_pow, Z2Nat.id in H by exact Hdepth.
  cbn in H. lia.
Qed.

(** A generated tree has at most one leaf cluster. *)
Lemma leaf_count_at_most_one (g : TreeGenerator.t R) (env : Env) (P : TreeParameters.t) :
  0 <= TreeMetadata.leaf_count (snd (output R M g env P)) <= 1.
Proof.
  destruct (generate_counts R M g env P) as [_ [u Hu]]. rewrite Hu.
  destruct (F32.leb _ _); [lia |]. destruct (F32.ltb _ _); lia.
Qed.
End Bounds.

(* ================================================================== *)
(** * Further properties of the pixel buffer *)

Lemma nth_repeat_default (v : Z) (n i : nat) :
  (i < n)%nat -> nth i (repeat v n) 0 = v.
Proof.
  revert i. induction n as [| n IH]; intros [| i] H; cbn; try lia; auto.
  apply IH. lia.
Qed.

Lemma clear_well_formed (v : Z) (b : PixelBuffer.t) :
  0 <= PixelBuffer.width b -> 0 <= PixelBuffer.height b ->
  well_formed (PixelBuffer.clear v b).
Proof.
  intros Hw Hh. unfold well_formed, PixelBuffer.clear, PixelBuffer.size,
    PixelBuffer.width, PixelBuffer.height in *. cbn.
  rewrite repeat_length, Z2Nat.id by nia. auto.
Qed.

(** X1.  For dimensions whose product is below 2^64, so that the [size_t]
    product [width * height] does not wrap: [clear(value)] keeps the
    dimensions and leaves [value] in every pixel; the constructor
    [PixelBuffer(width, height)] gives a buffer of these dimensions whose
    pixels are all 0, and which is not [empty()] when it has a pixel. *)
Theorem clear_fills (b : PixelBuffer.t) (v x y : Z) :
  PixelBuffer.width b * PixelBuffer.height b < 2 ^ 64 ->
  0 <= x < PixelBuffer.width b -> 0 <= y < PixelBuffer.height b ->
  let c := PixelBuffer.clear v b in
  let n := PixelBuffer.make (PixelBuffer.width b) (PixelBuffer.height b) in
  (well_formed c /\ PixelBuffer.width c = PixelBuffer.width b
   /\ PixelBuffer.height c = PixelBuffer.height b
   /\ PixelBuffer.at_ c x y = Some v)
  /\ (well_formed n /\ PixelBuffer.width n = PixelBuffer.width b
      /\ PixelBuffer.height n = PixelBuffer.height b
      /\ PixelBuffer.at_ n x y = Some 0 /\ PixelBuffer.empty n = false).
Proof.
  intros _ Hx Hy c n.
  assert (Hidx : (Z.to_nat (y * PixelBuffer.width b + x)
                  < Z.to_nat (PixelBuffer.width b * PixelBuffer.height b))%nat)
    by (apply Z2Nat.inj_lt; nia).
  assert (Hat : forall u, PixelBuffer.at_ (PixelBuffer.clear u b) x y = Some u).
  { intros u. unfold PixelBuffer.at_, PixelBuffer.clear, PixelBuffer.size,
      PixelBuffer.width, PixelBuffer.height in *. cbn.
    replace (PixelBuffer.width_ b <=? x) with false by (symmetry; apply Z.leb_gt; lia).
    replace (PixelBuffer.height_ b <=? y) with false by (symmetry; apply Z.leb_gt; lia).
    cbn. rewrite nth_repeat_default by exact Hidx. reflexivity. }
  split.
  - split; [apply clear_well_formed; lia |]. repeat split. apply Hat.
  - subst n. unfold PixelBuffer.make.
    split; [apply clear_well_formed; cbn; lia |]. repeat split.
    + unfold PixelBuffer.at_, PixelBuffer.clear, PixelBuffer.size,
        PixelBuffer.width, PixelBuffer.height in *. cbn.
      replace (PixelBuffer.width_ b <=? x) with false by (symmetry; apply Z.leb_gt; lia).
      replace (PixelBuffer.height_ b <=? y) with false by (symmetry; apply Z.leb_gt; lia).
      cbn. rewrite nth_repeat_default by exact Hidx. reflexivity.
    + unfold PixelBuffer.empty, PixelBuffer.clear, PixelBuffer.size,
        PixelBuffer.width, PixelBuffer.height in *. cbn.
      apply Z.eqb_neq. nia.
Qed.

Lemma clear_fills_witness :
  let b := PixelBuffer.mk [1; 2; 3; 4; 5; 6] 3 2 in
  let c := PixelBuffer.clear 9 b in
  let n := PixelBuffer.make (PixelBuffer.width b) (PixelBuffer.height b) in
  (well_formed c /\ PixelBuffer.width c = PixelBuffer.width b
   /\ PixelBuffer.height c = PixelBuffer.height b
   /\ PixelBuffer.at_ c 2 1 = Some 9)
  /\ (well_formed n /\ PixelBuffer.width n = PixelBuffer.width b
      /\ PixelBuffer.height n = PixelBuffer.height b
      /\ PixelBuffer.at_ n 2 1 = Some 0 /\ PixelBuffer.empty n = false).
Proof.
  apply (clear_fills (PixelBuffer.mk [1; 2; 3; 4; 5; 6] 3 2) 9 2 1); cbn; lia.
Defined.

(** X2.  Writing a pixel through [operator()] and reading back: the pixel
    written holds the value, every other pixel is as before, and the
    dimensions stay. *)
Theorem pixel_write_read (b : PixelBuffer.t) (x y v x' y' : Z) :
  well_formed b ->
  0 <= x < PixelBuffer.width b -> 0 <= y < PixelBuffer.height b ->
  0 <= x' < PixelBuffer.width b -> 0 <= y' < PixelBuffer.height b ->
  let b' := PixelBuffer.set b x y v in
  PixelBuffer.get b' x' y' = (if (x' =? x) && (y' =? y) then v else PixelBuffer.get b x' y')
  /\ PixelBuffer.at_ b' x' y'
     = Some (if (x' =? x) && (y' =? y) then v else PixelBuffer.get b x' y')
  /\ well_formed b'
  /\ PixelBuffer.width b' = PixelBuffer.width b
  /\ PixelBuffer.height b' = PixelBuffer.height b.
Proof.
  intros Hwf Hx Hy Hx' Hy' b'.
  assert (Hget : PixelBuffer.get b' x' y'
                 = if (x' =? x) && (y' =? y) then v else PixelBuffer.get b x' y').
  { subst b'. destruct (Z.eqb_spec x' x) as [-> | Hnx];
      [destruct (Z.eqb_spec y' y) as [-> | Hny] |]; cbn [andb].
    - apply get_set_same; assumption.
    - apply get_set_other; try lia. intros E. inversion E. lia.
    - apply get_set_other; try lia. intros E. inversion E. lia. }
  split; [exact Hget |]. split.
  - unfold PixelBuffer.at_. subst b'. cbn [PixelBuffer.set PixelBuffer.width_ PixelBuffer.height_].
    unfold PixelBuffer.width, PixelBuffer.height in *.
    replace (PixelBuffer.width_ b <=? x') with false by (symmetry; apply Z.leb_gt; lia).
    replace (PixelBuffer.height_ b <=? y') with false by (symmetry; apply Z.leb_gt; lia).
    cbn [orb]. f_equal. exact Hget.
  - split; [apply set_well_formed, Hwf |]. split; reflexivity.
Qed.

Lemma pixel_write_read_witness :
  let b := PixelBuffer.make 5 5 in
  let b' := PixelBuffer.set b 2 3 0xFF0000FF in
  PixelBuffer.get b' 2 3
  = (if (2 =? 2) && (3 =? 3) then 0xFF0000FF else PixelBuffer.get b 2 3)
  /\ PixelBuffer.at_ b' 2 3
     = Some (if (2 =? 2) && (3 =? 3) then 0xFF0000FF else PixelBuffer.get b 2 3)
  /\ well_formed b'
  /\ PixelBuffer.width b' = PixelBuffer.width b
  /\ PixelBuffer.height b' = PixelBuffer.height b.
Proof.
  apply (pixel_write_read (PixelBuffer.make 5 5) 2 3 0xFF0000FF 2 3);
    try (cbn; lia).
  unfold well_formed. cbn. repeat split; lia.
Defined.

Lemma firstn_skipn_same_length {A : Type} (l l' : list A) :
  List.length l = List.length l' ->
  firstn (List.length l) l ++ skipn (List.length l) l' = l.
Proof.
  intros H. rewrite firstn_all, H, skipn_all. apply app_nil_r.
Qed.

(** X4.  [clone()] of a buffer is an equal buffer: same dimensions, same
    pixels. *)
Theorem clone_equal (b : PixelBuffer.t) :
  well_formed b -> PixelBuffer.clone b = b.
Proof.
  intros (Hw & Hh & Hlen). unfold PixelBuffer.clone, PixelBuffer.make, PixelBuffer.clear.
  unfold PixelBuffer.size, PixelBuffer.width, PixelBuffer.height in *. cbn.
  replace (Z.to_nat (PixelBuffer.width_ b * PixelBuffer.height_ b))
    with (List.length (PixelBuffer.data_ b)) by lia.
  rewrite firstn_skipn_same_length by (rewrite repeat_length; reflexivity).
  destruct b; reflexivity.
Qed.

Lemma clone_equal_witness :
  PixelBuffer.clone (PixelBuffer.mk [1; 2; 3; 4; 5; 6] 3 2) = PixelBuffer.mk [1; 2; 3; 4; 5; 6] 3 2.
Proof.
  apply clone_equal. unfold well_formed. cbn. repeat split; lia.
Defined.

(** ** What a blit leaves in every pixel *)

Lemma covered_true (p : Point2Di.t) (S : PixelBuffer.t) (x y : Z) :
  covered p S x y = true <->
  (Point2Di.x p <= x < Point2Di.x p + PixelBuffer.width S
   /\ Point2Di.y p <= y < Point2Di.y p + PixelBuffer.height S).
Proof.
  unfold covered. rewrite !andb_true_iff, !Z.leb_le, !Z.ltb_lt. tauto.
Qed.



Section BlitPixel.
Variables D S : PixelBuffer.t.
Variable p : Point2Di.t.
Variable combine : Z -> Z -> Z.
Variables x y : Z.

Hypothesis D_wf : well_formed D.
Hypothesis S_wf : well_formed S.
Hypothesis p_x_int : F32.INT_MIN <= Point2Di.x p <= F32.INT_MAX.
Hypothesis p_y_int : F32.INT_MIN <= Point2Di.y p <= F32.INT_MAX.
Hypothesis x_inside : 0 <= x < PixelBuffer.width D.
Hypothesis y_inside : 0 <= y < PixelBuffer.height D.

End BlitPixel.






(* ================================================================== *)
(** * Colours *)

Lemma testbit_255 (n : Z) : Z.testbit 255 n = (0 <=? n) && (n <? 8).
Proof.
  change 255 with (Z.ones 8).
  destruct (Z.leb_spec 0 n) as [Hn | Hn].
  - rewrite Z.testbit_ones_nonneg by lia. reflexivity.
  - rewrite Z.testbit_neg_r by lia. reflexivity.
Qed.

Lemma byte_high_bits (c n : Z) : byte c -> 8 <= n -> Z.testbit c n = false.
Proof.
  intros [Hlo Hhi] Hn.
  destruct (Z.eq_dec c 0) as [-> | Hc]; [apply Z.bits_0 |].
  apply Z.bits_above_log2; [lia |].
  assert (Z.log2 c < 8) by (apply Z.log2_lt_pow2; lia). lia.
Qed.

Lemma word_high_bits (v n : Z) : 0 <= v < 2 ^ 32 -> 32 <= n -> Z.testbit v n = false.
Proof.
  intros [Hlo Hhi] Hn.
  destruct (Z.eq_dec v 0) as [-> | Hc]; [apply Z.bits_0 |].
  apply Z.bits_above_log2; [lia |].
  assert (Z.log2 v < 32) by (apply Z.log2_lt_pow2; lia). lia.
Qed.

Lemma channel_of_rgba (r g b a : Z) (k : Z) :
  byte r -> byte g -> byte b -> byte a ->
  k = 0 \/ k = 8 \/ k = 16 \/ k = 24 ->
  Z.land (Z.shiftr (Color.to_rgba (Color.mk r g b a)) k) 0xFF
  = if k =? 24 then r else if k =? 16 then g else if k =? 8 then b else a.
Proof.
  intros Hr Hg Hb Ha Hk. unfold Color.to_rgba. cbn [Color.r Color.g Color.b Color.a].
  change 0xFF with 255. apply Z.bits_inj'; intros n Hn;
    repeat first
      [ rewrite Z.lor_spec | rewrite Z.land_spec | rewrite testbit_255
      | rewrite Z.shiftr_spec by lia | rewrite Z.shiftl_spec by lia ].
  destruct (Z.leb_spec 0 n) as [_ | ]; [| lia]. cbn [andb].
  destruct (Z.ltb_spec n 8) as [Hlt | Hge].
  - rewrite andb_true_r.
    destruct Hk as [-> | [-> | [-> | ->]]]; cbn [Z.eqb].
    + rewrite !Z.add_0_r.
      rewrite (Z.testbit_neg_r r), (Z.testbit_neg_r g), (Z.testbit_neg_r b) by lia.
      reflexivity.
    + rewrite (Z.testbit_neg_r r), (Z.testbit_neg_r g) by lia.
      replace (n + 8 - 8) with n by lia.
      rewrite (byte_high_bits a) by (auto; lia). cbn. apply orb_false_r.
    + rewrite (Z.testbit_neg_r r) by lia.
      replace (n + 16 - 16) with n by lia.
      rewrite (byte_high_bits b), (byte_high_bits a) by (auto; lia).
      cbn. rewrite !orb_false_r. reflexivity.
    + replace (n + 24 - 24) with n by lia.
      rewrite (byte_high_bits g), (byte_high_bits b), (byte_high_bits a) by (auto; lia).
      rewrite !orb_false_r. reflexivity.
  - rewrite andb_false_r. symmetry.
    destruct Hk as [-> | [-> | [-> | ->]]]; cbn [Z.eqb]; apply byte_high_bits; auto.
Qed.

(** X7.  The 32-bit encoding of a colour and back: [from_rgba(to_rgba(c))]
    is [c] for every colour, and [to_rgba(from_rgba(v))] is [v] for every
    32-bit value; the encoding stays below 2^32 and the decoded channels
    are bytes. *)
Theorem color_rgba_round_trip :
  (forall c : Color.t, valid_color c ->
     Color.from_rgba (Color.to_rgba c) = c /\ 0 <= Color.to_rgba c < 2 ^ 32)
  /\ (forall v : Z, 0 <= v < 2 ^ 32 ->
        Color.to_rgba (Color.from_rgba v) = v /\ valid_color (Color.from_rgba v)).
Proof.
  split.
  - intros [r g b a] (Hr & Hg & Hb & Ha). cbn in Hr, Hg, Hb, Ha. split.
    + unfold Color.from_rgba.
      rewrite <- (Z.shiftr_0_r (Color.to_rgba (Color.mk r g b a))) at 4.
      rewrite !channel_of_rgba by auto. reflexivity.
    + unfold Color.to_rgba. cbn [Color.r Color.g Color.b Color.a].
      unfold byte in *. rewrite !Z.shiftl_mul_pow2 by lia.
      split.
      * repeat (apply Z.lor_nonneg; split); lia.
      * assert (Hlog : forall z, 0 <= z < 2 ^ 32 -> z = 0 \/ Z.log2 z < 32).
        { intros z Hz. destruct (Z.eq_dec z 0); [left; assumption | right].
          apply Z.log2_lt_pow2; lia. }
        set (w := Z.lor _ a).
        assert (Hw : 0 <= w) by (unfold w; repeat (apply Z.lor_nonneg; split); lia).
        destruct (Z.eq_dec w 0) as [-> | Hnz]; [lia |].
        apply Z.log2_lt_pow2; [lia |]. unfold w.
        repeat (rewrite Z.log2_lor by (repeat (apply Z.lor_nonneg; split); lia)).
        assert (Z.log2 (r * 2 ^ 24) < 32)
          by (destruct (Hlog (r * 2 ^ 24)) as [-> | ?]; [lia | cbn; lia | assumption]).
        assert (Z.log2 (g * 2 ^ 16) < 32)
          by (destruct (Hlog (g * 2 ^ 16)) as [-> | ?]; [lia | cbn; lia | assumption]).
        assert (Z.log2 (b * 2 ^ 8) < 32)
          by (destruct (Hlog (b * 2 ^ 8)) as [-> | ?]; [lia | cbn; lia | assumption]).
        assert (Z.log2 a < 32)
          by (destruct (Hlog a) as [-> | ?]; [lia | cbn; lia | assumption]).
        lia.
  - intros v Hv. split.
    + unfold Color.to_rgba, Color.from_rgba. cbn [Color.r Color.g Color.b Color.a].
      change 0xFF with 255. apply Z.bits_inj'; intros n Hn;
    repeat first
      [ rewrite Z.lor_spec | rewrite Z.land_spec | rewrite testbit_255
      | rewrite Z.shiftr_spec by lia | rewrite Z.shiftl_spec by lia ].
      destruct (Z.leb_spec 0 (n - 24)); destruct (Z.leb_spec 0 (n - 16));
        destruct (Z.leb_spec 0 (n - 8)); destruct (Z.leb_spec 0 n); try lia;
        destruct (Z.ltb_spec (n - 24) 8); destruct (Z.ltb_spec (n - 16) 8);
        destruct (Z.ltb_spec (n - 8) 8); destruct (Z.ltb_spec n 8); try lia;
        cbn [andb orb]; rewrite ?andb_true_r, ?andb_false_r, ?orb_false_r;
        cbn [andb orb];
        repeat rewrite Z.shiftr_spec by lia;
        repeat match goal with
               | |- context [Z.testbit v (?a - ?k + ?k)] =>
                   replace (a - k + k) with a by lia
               end;
        try reflexivity.
      symmetry. apply word_high_bits; [exact Hv | lia].
    + unfold valid_color, byte, Color.from_rgba. cbn [Color.r Color.g Color.b Color.a].
      change 0xFF with (Z.ones 8). rewrite !Z.land_ones by lia.
      change (2 ^ 8) with 256.
      pose proof (Z.mod_pos_bound (Z.shiftr v 24) 256 ltac:(lia)).
      pose proof (Z.mod_pos_bound (Z.shiftr v 16) 256 ltac:(lia)).
      pose proof (Z.mod_pos_bound (Z.shiftr v 8) 256 ltac:(lia)).
      pose proof (Z.mod_pos_bound v 256 ltac:(lia)).
      change (Z.ones 8) with 255. lia.
Qed.

Lemma color_rgba_round_trip_witness :
  (Color.from_rgba (Color.to_rgba (Color.rgb 101 67 33)) = Color.rgb 101 67 33
   /\ 0 <= Color.to_rgba (Color.rgb 101 67 33) < 2 ^ 32)
  /\ (Color.to_rgba (Color.from_rgba 0x654321FF) = 0x654321FF
      /\ valid_color (Color.from_rgba 0x654321FF)).
Proof.
  split.
  - apply (proj1 color_rgba_round_trip (Color.rgb 101 67 33)).
    unfold valid_color, byte. cbn. lia.
  - apply (proj2 color_rgba_round_trip 0x654321FF). lia.
Defined.

(** ** Interpolation *)

Lemma byte_in_bytes (c : Z) : byte c -> In c bytes.
Proof.
  intros [Hlo Hhi]. unfold bytes. apply in_map_iff. exists (Z.to_nat c).
  split; [lia |]. apply in_seq. lia.
Qed.

Lemma lerp_channel_ends (c other : Z) :
  byte c -> byte other ->
  Color.lerp_channel c other (F32.sub (F32.of_Z 1) F32.zero) F32.zero = c
  /\ Color.lerp_channel c other (F32.sub (F32.of_Z 1) F32.one) F32.one = other.
Proof.
  intros Hc Ho.
  assert (Hmul1 : forall v, byte v -> F32.mul (F32.of_Z v) F32.one = F32.of_Z v).
  { intros v Hv. apply byte_in_bytes in Hv. revert v Hv. apply map_ext_in_iff.
    vm_compute. reflexivity. }
  assert (Hmul0 : forall v, byte v -> F32.mul (F32.of_Z v) F32.zero = F32.zero).
  { intros v Hv. apply byte_in_bytes in Hv. revert v Hv. apply map_ext_in_iff.
    vm_compute. reflexivity. }
  assert (Hadd : forall v, byte v ->
            F32.to_uint8 (F32.add (F32.of_Z v) F32.zero) = v).
  { intros v Hv. apply byte_in_bytes in Hv. revert v Hv.
    apply (proj1 (@map_ext_in_iff Z Z (fun v => F32.to_uint8 (F32.add (F32.of_Z v) F32.zero))
                                 (fun v => v) bytes)).
    vm_compute. reflexivity. }
  assert (Hadd' : forall v, byte v ->
            F32.to_uint8 (F32.add F32.zero (F32.of_Z v)) = v).
  { intros v Hv. apply byte_in_bytes in Hv. revert v Hv.
    apply (proj1 (@map_ext_in_iff Z Z (fun v => F32.to_uint8 (F32.add F32.zero (F32.of_Z v)))
                                 (fun v => v) bytes)).
    vm_compute. reflexivity. }
  unfold Color.lerp_channel.
  change (F32.sub (F32.of_Z 1) F32.zero) with F32.one.
  change (F32.sub (F32.of_Z 1) F32.one) with F32.zero.
  rewrite !Hmul1, !Hmul0 by assumption.
  split; [apply Hadd | apply Hadd']; assumption.
Qed.

(** X8.  [lerp] at its ends: [c.lerp(other, 0)] is [c] and
    [c.lerp(other, 1)] is [other], channel by channel and without rounding
    loss. *)
Theorem lerp_ends (c other : Color.t) :
  valid_color c -> valid_color other ->
  Color.lerp c other F32.zero = c /\ Color.lerp c other F32.one = other.
Proof.
  intros (Hr & Hg & Hb & Ha) (Hr' & Hg' & Hb' & Ha').
  unfold Color.lerp. cbv zeta.
  destruct (lerp_channel_ends _ _ Hr Hr') as [-> ->].
  destruct (lerp_channel_ends _ _ Hg Hg') as [-> ->].
  destruct (lerp_channel_ends _ _ Hb Hb') as [-> ->].
  destruct (lerp_channel_ends _ _ Ha Ha') as [-> ->].
  destruct c, other. split; reflexivity.
Qed.

Lemma lerp_ends_witness :
  Color.lerp (Color.rgb 34 139 34) (Color.rgb 255 140 0) F32.zero = Color.rgb 34 139 34
  /\ Color.lerp (Color.rgb 34 139 34) (Color.rgb 255 140 0) F32.one = Color.rgb 255 140 0.
Proof.
  apply (lerp_ends (Color.rgb 34 139 34) (Color.rgb 255 140 0));
    unfold valid_color, byte; cbn; lia.
Defined.

(* ================================================================== *)
(** * The order of [float] *)

(** Comparison follows the rank of the two numbers. *)
Lemma leb_rank (a b : float) :
  number a -> number b -> (SFleb a b = true <-> lex_le (rank a) (rank b)).
Proof.
  intros Ha Hb. unfold number in *.
  destruct a as [sa | sa | | sa ma ea]; try congruence;
    destruct b as [sb | sb | | sb mb eb]; try congruence;
    unfold SFleb, SFcompare, rank, lex_le;
    try destruct sa; try destruct sb;
    try (split; intros H; [lia | reflexivity]);
    try (split; intros H; [discriminate | lia]).
  - destruct (Z.compare_spec ea eb) as [E | E | E];
      [change (Pos.compare_cont Eq ma mb) with (Pos.compare ma mb);
       destruct (Pos.compare_spec ma mb) as [F | F | F] | |]; cbn [CompOpp];
      split; intros H; try reflexivity; try discriminate; try lia.
  - destruct (Z.compare_spec ea eb) as [E | E | E];
      [change (Pos.compare_cont Eq ma mb) with (Pos.compare ma mb);
       destruct (Pos.compare_spec ma mb) as [F | F | F] | |];
      split; intros H; try reflexivity; try discriminate; try lia.
Qed.

Lemma ltb_rank (a b : float) :
  number a -> number b -> (SFltb a b = false <-> lex_le (rank b) (rank a)).
Proof.
  intros Ha Hb. unfold number in *.
  destruct a as [sa | sa | | sa ma ea]; try congruence;
    destruct b as [sb | sb | | sb mb eb]; try congruence;
    unfold SFltb, SFcompare, rank, lex_le;
    try destruct sa; try destruct sb;
    try (split; intros H; [lia | reflexivity]);
    try (split; intros H; [discriminate | lia]).
  - destruct (Z.compare_spec ea eb) as [E | E | E];
      [change (Pos.compare_cont Eq ma mb) with (Pos.compare ma mb);
       destruct (Pos.compare_spec ma mb) as [F | F | F] | |]; cbn [CompOpp];
      split; intros H; try reflexivity; try discriminate; try lia.
  - destruct (Z.compare_spec ea eb) as [E | E | E];
      [change (Pos.compare_cont Eq ma mb) with (Pos.compare ma mb);
       destruct (Pos.compare_spec ma mb) as [F | F | F] | |];
      split; intros H; try reflexivity; try discriminate; try lia.
Qed.

Lemma lex_le_refl (a : Z * Z * Z) : lex_le a a.
Proof. destruct a as [[c e] m]. unfold lex_le. lia. Qed.

Lemma lex_le_trans (a b c : Z * Z * Z) : lex_le a b -> lex_le b c -> lex_le a c.
Proof.
  destruct a as [[c1 e1] m1], b as [[c2 e2] m2], c as [[c3 e3] m3].
  unfold lex_le. lia.
Qed.

Lemma lex_le_total (a b : Z * Z * Z) : lex_le a b \/ lex_le b a.
Proof.
  destruct a as [[c1 e1] m1], b as [[c2 e2] m2]. unfold lex_le. lia.
Qed.

Lemma nan_compares_false (v : float) :
  SFltb S754_nan v = false /\ SFltb v S754_nan = false
  /\ SFleb S754_nan v = false /\ SFleb v S754_nan = false.
Proof. destruct v as [s | s | | s m e]; repeat split; reflexivity. Qed.

(** [std::clamp] on numbers with [lo <= hi]. *)
Lemma clamp_range (v lo hi : float) :
  number v -> number lo -> number hi -> F32.leb lo hi = true ->
  number (F32.clamp v lo hi)
  /\ F32.leb lo (F32.clamp v lo hi) = true
  /\ F32.leb (F32.clamp v lo hi) hi = true.
Proof.
  intros Hv Hlo Hhi Hle. unfold F32.clamp, F32.ltb, F32.leb in *.
  apply leb_rank in Hle; try assumption.
  destruct (SFltb v lo) eqn:E1; [| destruct (SFltb hi v) eqn:E2].
  - split; [assumption |]. split; [| apply leb_rank; assumption].
    apply leb_rank; try assumption. apply lex_le_refl.
  - split; [assumption |]. split; [apply leb_rank; assumption |].
    apply leb_rank; try assumption. apply lex_le_refl.
  - apply ltb_rank in E1, E2; try assumption.
    split; [assumption |]. split; apply leb_rank; assumption.
Qed.

(** X9.  A [BoundedValue] holds a value between its bounds: an [int] one
    always does, and a value already inside is stored as it is; a [float]
    one does for every number, infinities included, but a NaN is stored as
    NaN, since every comparison [std::clamp] makes with it is false. *)
Theorem bounded_value_range :
  (forall lo hi v : Z, lo <= hi ->
     lo <= BoundedInt lo hi v <= hi /\ (lo <= v <= hi -> BoundedInt lo hi v = v))
  /\ (forall v : float, number v ->
        (F32.leb F32.zero (BoundedFloat01 v) = true
         /\ F32.leb (BoundedFloat01 v) F32.one = true)
        /\ (F32.leb (F32.lit 1 10) (BoundedFloat10 v) = true
            /\ F32.leb (BoundedFloat10 v) (F32.of_Z 10) = true)
        /\ (F32.leb F32.zero (BoundedAngle v) = true
            /\ F32.leb (BoundedAngle v) (F32.of_Z 360) = true))
  /\ (BoundedFloat01 S754_nan = S754_nan
      /\ BoundedFloat10 S754_nan = S754_nan
      /\ BoundedAngle S754_nan = S754_nan).
Proof.
  split; [| split].
  - intros lo hi v Hle. unfold BoundedInt, clampZ.
    destruct (Z.ltb_spec v lo); [lia |]. destruct (Z.ltb_spec hi v); lia.
  - intros v Hv. unfold BoundedFloat01, BoundedFloat10, BoundedAngle.
    split; [| split].
    + apply (clamp_range v F32.zero F32.one); try assumption; try discriminate; reflexivity.
    + apply (clamp_range v (F32.lit 1 10) (F32.of_Z 10)); try assumption;
        try discriminate; reflexivity.
    + apply (clamp_range v F32.zero (F32.of_Z 360)); try assumption;
        try discriminate; reflexivity.
  - repeat split.
Qed.

(* ================================================================== *)
(** * The pixel operations of simd_utils.hpp *)

Lemma for_loop_app {A : Type} (body : Z -> A -> A) (n m : nat) :
  forall (i : Z) (acc : A),
    for_loop (n + m) i body acc = for_loop m (i + Z.of_nat n) body (for_loop n i body acc).
Proof.
  induction n as [| n IH]; intros i acc; cbn [Nat.add for_loop].
  - replace (i + Z.of_nat 0) with i by lia. reflexivity.
  - rewrite IH. f_equal. lia.
Qed.

Lemma for_loop_shift {A : Type} (body : Z -> A -> A) (k : Z) (n : nat) :
  forall (i : Z) (acc : A),
    for_loop n i (fun j => body (k + j)) acc = for_loop n (k + i) body acc.
Proof.
  induction n as [| n IH]; intros i acc; cbn [for_loop]; [reflexivity |].
  rewrite IH. f_equal. lia.
Qed.

Lemma for_int_split {A : Type} (body : Z -> A -> A) (a b c : Z) (acc : A) :
  a <= b <= c -> for_int a c body acc = for_int b c body (for_int a b body acc).
Proof.
  intros H. unfold for_int.
  replace (Z.to_nat (c - a)) with (Z.to_nat (b - a) + Z.to_nat (c - b))%nat by lia.
  rewrite for_loop_app. f_equal. lia.
Qed.

(** A loop over blocks of [lanes] elements is the loop over the
    elements. *)
Lemma for_int_blocks {A : Type} (body : Z -> A -> A) (lanes : Z) (n : nat) :
  0 <= lanes ->
  forall acc : A,
    for_loop n 0 (fun i acc => for_int 0 lanes (fun j acc => body (i * lanes + j) acc) acc) acc
    = for_int 0 (Z.of_nat n * lanes) body acc.
Proof.
  intros Hl acc.
  enough (H : forall (m : nat) (i : Z) (acc : A),
             0 <= i ->
             for_loop m i
               (fun i acc => for_int 0 lanes (fun j acc => body (i * lanes + j) acc) acc) acc
             = for_int (i * lanes) ((i + Z.of_nat m) * lanes) body acc).
  { rewrite (H n 0 acc) by lia. reflexivity. }
  clear acc. induction m as [| m IH]; intros i acc Hi; cbn [for_loop].
  - unfold for_int. replace (Z.to_nat _) with O by lia. reflexivity.
  - rewrite IH by lia.
    rewrite (for_int_split body (i * lanes) ((i + 1) * lanes) ((i + Z.of_nat (S m)) * lanes))
      by nia.
    replace ((i + 1 + Z.of_nat m) * lanes) with ((i + Z.of_nat (S m)) * lanes) by lia.
    f_equal. unfold for_int.
    replace (Z.to_nat ((i + 1) * lanes - i * lanes)) with (Z.to_nat (lanes - 0)) by lia.
    rewrite (for_loop_shift body (i * lanes)). f_equal. lia.
Qed.

Lemma lanes_loop {A : Type} (body : Z -> A -> A) (lanes count : Z) (acc : A) :
  0 < lanes -> 0 <= count ->
  for_int (count / lanes * lanes) count body
    (for_int 0 (count / lanes)
       (fun i acc => for_int 0 lanes (fun j acc => body (i * lanes + j) acc) acc) acc)
  = for_int 0 count body acc.
Proof.
  intros Hl Hc.
  assert (Hq : 0 <= count / lanes) by (apply Z.div_pos; lia).
  assert (Hle : count / lanes * lanes <= count)
    by (rewrite Z.mul_comm; apply Z.mul_div_le; lia).
  unfold for_int at 2. rewrite Z.sub_0_r.
  rewrite for_int_blocks by lia. rewrite Z2Nat.id by lia.
  symmetry. apply for_int_split. nia.
Qed.

(** X10.  [clear_buffer] and [alpha_blend] do the same whichever of the
    three implementations the build selects: the SSE2 and the AVX2 paths,
    blocks of 4 and of 8 pixels followed by the remainder, give the result
    of the scalar loop, for every count. *)
Theorem simd_paths_agree (data src : list Z) (count value : Z) :
  0 <= count ->
  PixelOperations.clear_buffer_sse2 data count value
  = PixelOperations.clear_buffer_scalar data count value
  /\ PixelOperations.clear_buffer_avx2 data count value
     = PixelOperations.clear_buffer_scalar data count value
  /\ PixelOperations.alpha_blend_sse2 data src count
     = PixelOperations.alpha_blend_scalar data src count
  /\ PixelOperations.alpha_blend_avx2 data src count
     = PixelOperations.alpha_blend_scalar data src count.
Proof.
  intros Hc.
  unfold PixelOperations.clear_buffer_sse2, PixelOperations.clear_buffer_avx2,
    PixelOperations.alpha_blend_sse2, PixelOperations.alpha_blend_avx2,
    PixelOperations.clear_buffer_lanes, PixelOperations.alpha_blend_lanes,
    PixelOperations.clear_buffer_scalar, PixelOperations.alpha_blend_scalar.
  repeat split.
  - apply (lanes_loop (fun i data => PixelOperations.store i value data)); lia.
  - apply (lanes_loop (fun i data => PixelOperations.store i value data)); lia.
  - apply (lanes_loop (fun i dest => PixelOperations.blend_at src i dest)); lia.
  - apply (lanes_loop (fun i dest => PixelOperations.blend_at src i dest)); lia.
Qed.

Lemma simd_paths_agree_witness :
  PixelOperations.clear_buffer_sse2 [1; 2; 3; 4; 5; 6; 7; 8; 9; 10; 11] 10 0
  = PixelOperations.clear_buffer_scalar [1; 2; 3; 4; 5; 6; 7; 8; 9; 10; 11] 10 0
  /\ PixelOperations.clear_buffer_avx2 [1; 2; 3; 4; 5; 6; 7; 8; 9; 10; 11] 10 0
     = PixelOperations.clear_buffer_scalar [1; 2; 3; 4; 5; 6; 7; 8; 9; 10; 11] 10 0
  /\ PixelOperations.alpha_blend_sse2 [1; 2; 3; 4; 5; 6; 7; 8; 9; 10; 11]
       [0xFF; 0; 0xFF; 0; 0xFF; 0; 0xFF; 0; 0xFF; 0; 0xFF] 10
     = PixelOperations.alpha_blend_scalar [1; 2; 3; 4; 5; 6; 7; 8; 9; 10; 11]
         [0xFF; 0; 0xFF; 0; 0xFF; 0; 0xFF; 0; 0xFF; 0; 0xFF] 10
  /\ PixelOperations.alpha_blend_avx2 [1; 2; 3; 4; 5; 6; 7; 8; 9; 10; 11]
       [0xFF; 0; 0xFF; 0; 0xFF; 0; 0xFF; 0; 0xFF; 0; 0xFF] 10
     = PixelOperations.alpha_blend_scalar [1; 2; 3; 4; 5; 6; 7; 8; 9; 10; 11]
         [0xFF; 0; 0xFF; 0; 0xFF; 0; 0xFF; 0; 0xFF; 0; 0xFF] 10.
Proof.
  apply (simd_paths_agree [1; 2; 3; 4; 5; 6; 7; 8; 9; 10; 11]
           [0xFF; 0; 0xFF; 0; 0xFF; 0; 0xFF; 0; 0xFF; 0; 0xFF] 10 0).
  lia.
Defined.

(** ** What the scalar loops leave in every element *)

Section Elementwise.
Variable f : Z -> Z -> Z.   (* the new value of element [i], from the old one *)
Variable data : list Z.
Variable count : Z.
Hypothesis count_range : 0 <= count <= Z.of_nat (List.length data).

Lemma elementwise_loop :
  let out :=
    for_int 0 count (fun i acc => update_nth (Z.to_nat i) (f i) acc) data in
  List.length out = List.length data
  /\ forall i : nat,
       nth i out 0 = if Z.of_nat i <? count then f (Z.of_nat i) (nth i data 0)
                     else nth i data 0.
Proof.
  cbv zeta. unfold for_int. rewrite Z.sub_0_r.
  assert (H : let k := 0 + Z.of_nat (Z.to_nat count) in
              let out := for_loop (Z.to_nat count) 0
                           (fun i acc => update_nth (Z.to_nat i) (f i) acc) data in
              List.length out = List.length data
              /\ forall i : nat,
                   nth i out 0 = if Z.of_nat i <? k then f (Z.of_nat i) (nth i data 0)
                                 else nth i data 0).
  { apply (for_loop_ind
             (fun k out =>
                List.length out = List.length data
                /\ forall i : nat,
                     nth i out 0 = if Z.of_nat i <? k then f (Z.of_nat i) (nth i data 0)
                                   else nth i data 0)).
    - split; [reflexivity |]. intros i.
      replace (Z.of_nat i <? 0) with false by (symmetry; apply Z.ltb_ge; lia). reflexivity.
    - intros k out Hk [Hlen Hnth]. split; [rewrite update_nth_length; exact Hlen |].
      intros i. destruct (Nat.eq_dec i (Z.to_nat k)) as [-> | Hne].
      + rewrite nth_update_nth_eq by lia. rewrite Hnth, Z2Nat.id by lia.
        replace (k <? k) with false by (symmetry; apply Z.ltb_ge; lia).
        replace (k <? k + 1) with true by (symmetry; apply Z.ltb_lt; lia).
        reflexivity.
      + rewrite nth_update_nth_neq by auto. rewrite Hnth.
        destruct (Z.ltb_spec (Z.of_nat i) k); destruct (Z.ltb_spec (Z.of_nat i) (k + 1));
          try lia; reflexivity. }
  cbv zeta in H. replace (0 + Z.of_nat (Z.to_nat count)) with count in H by lia.
  exact H.
Qed.
End Elementwise.

(** X11.  The scalar loops, element by element, for a count within the
    arrays: [clear_buffer] leaves the value in the first [count] elements,
    [alpha_blend] leaves there the blend of the destination element with
    the source element, computed as [PixelBuffer::blend_pixels] computes
    it; the elements from [count] on are untouched. *)
Theorem scalar_loops_elementwise (dest src : list Z) (count value : Z) (i : nat) :
  0 <= count <= Z.of_nat (List.length dest) ->
  let cleared := PixelOperations.clear_buffer_scalar dest count value in
  let blended := PixelOperations.alpha_blend_scalar dest src count in
  List.length cleared = List.length dest
  /\ List.length blended = List.length dest
  /\ nth i cleared 0 = (if Z.of_nat i <? count then value else nth i dest 0)
  /\ nth i blended 0
     = (if Z.of_nat i <? count
        then PixelBuffer.blend_pixels (nth i dest 0) (nth i src 0)
        else nth i dest 0).
Proof.
  intros Hc cleared blended.
  destruct (elementwise_loop (fun _ _ => value) dest count Hc) as [Hl1 Hn1].
  destruct (elementwise_loop
              (fun k d => PixelOperations.blend_pixel_scalar d (nth (Z.to_nat k) src 0))
              dest count Hc) as [Hl2 Hn2].
  split; [exact Hl1 |]. split; [exact Hl2 |]. split; [apply Hn1 |].
  subst blended. unfold PixelOperations.alpha_blend_scalar, PixelOperations.blend_at.
  rewrite Hn2, Nat2Z.id. reflexivity.
Qed.

Lemma scalar_loops_elementwise_witness :
  let dest := [0x000000FF; 0x000000FF; 0x000000FF] in
  let src := [0x11223300; 0x112233FF; 0x11223380] in
  let cleared := PixelOperations.clear_buffer_scalar dest 2 7 in
  let blended := PixelOperations.alpha_blend_scalar dest src 2 in
  List.length cleared = List.length dest
  /\ List.length blended = List.length dest
  /\ nth 1 cleared 0 = (if Z.of_nat 1 <? 2 then 7 else nth 1 dest 0)
  /\ nth 1 blended 0
     = (if Z.of_nat 1 <? 2
        then PixelBuffer.blend_pixels (nth 1 dest 0) (nth 1 src 0)
        else nth 1 dest 0).
Proof.
  apply (scalar_loops_elementwise [0x000000FF; 0x000000FF; 0x000000FF]
           [0x11223300; 0x112233FF; 0x11223380] 2 7 1).
  cbn. lia.
Defined.

(* ================================================================== *)
(** * The strings [generate_string] produces *)

Lemma string_length_app (a b : string) :
  String.length (a ++ b) = (String.length a + String.length b)%nat.
Proof. induction a as [| c a IH]; cbn; [reflexivity | rewrite IH; reflexivity]. Qed.

Lemma nesting_app (a b : string) :
  forall open : nat,
    nesting (a ++ b) open
    = match nesting a open with
      | Some open' => nesting b open'
      | None => None
      end.
Proof.
  induction a as [| c a IH]; intros open; cbn [append nesting]; [reflexivity |].
  destruct (Ascii.eqb c "["); [apply IH |].
  destruct (Ascii.eqb c "]"); [destruct open; [reflexivity | apply IH] | apply IH].
Qed.

Section Strings.
Variable R : StdRandom.
Variable M : Libm.

(** One pass puts [j] branching patterns into the string, and nothing
    else. *)
Lemma rewrite_grows (probability : float) (s : string) :
  forall rng : Random.t R,
    let s' := fst (LSystemGenerator.rewrite R probability s rng) in
    (exists j : nat,
       (forall c : ascii, count c s' = (count c s + j * count c "[+F][-F]")%nat)
       /\ String.length s' = (String.length s + 8 * j)%nat)
    /\ (forall open : nat, nesting s' open = nesting s open).
Proof.
  induction s as [| c s IH]; intros rng; cbn [LSystemGenerator.rewrite fst].
  - split; [exists O; split; [intros c; cbn; lia | reflexivity] | reflexivity].
  - destruct (Ascii.eqb c "F") eqn:Ec.
    + apply Ascii.eqb_eq in Ec. subst c.
      destruct (Random.next_float R rng) as [u rng1].
      destruct (IH rng1) as [(j & Hcount & Hlen) Hnest].
      destruct (LSystemGenerator.rewrite R probability s rng1) as [next_result rng2].
      cbn [fst] in *.
      destruct (F32.ltb u probability); split.
      * exists (S j). split.
        -- intros c. rewrite count_app, Hcount.
           change "F[+F][-F]"%string with (String "F" "[+F][-F]").
           cbn [count]. lia.
        -- rewrite string_length_app, Hlen. cbn. lia.
      * intros open. rewrite nesting_app. cbn. apply Hnest.
      * exists j. split.
        -- intros c. rewrite count_app, Hcount. cbn [count]. lia.
        -- rewrite string_length_app, Hlen. cbn. lia.
      * intros open. rewrite nesting_app. cbn. apply Hnest.
    + destruct (IH rng) as [(j & Hcount & Hlen) Hnest].
      destruct (LSystemGenerator.rewrite R probability s rng) as [next_result rng2].
      cbn [fst] in *. split.
      * exists j. split.
        -- intros c'. cbn [count]. rewrite Hcount. cbn [count]. lia.
        -- cbn [String.length]. rewrite Hlen. lia.
      * intros open. cbn [nesting]. rewrite !Hnest.
        destruct open; [reflexivity | rewrite Hnest; reflexivity].
Qed.

Lemma iterate_grows (probability : float) (iteration : nat) :
  forall (s : string) (rng : Random.t R),
    let s' := fst (LSystemGenerator.iterate R iteration probability s rng) in
    (exists j : nat,
       (forall c : ascii, count c s' = (count c s + j * count c "[+F][-F]")%nat)
       /\ String.length s' = (String.length s + 8 * j)%nat)
    /\ (forall open : nat, nesting s' open = nesting s open).
Proof.
  induction iteration as [| n IH]; intros s rng; cbn [LSystemGenerator.iterate fst].
  - split; [exists O; split; [intros c; lia | lia] | reflexivity].
  - destruct (rewrite_grows probability s rng) as [(j1 & Hc1 & Hl1) Hn1].
    destruct (LSystemGenerator.rewrite R probability s rng) as [next_result rng1].
    cbn [fst] in *.
    destruct (IH next_result rng1) as [(j2 & Hc2 & Hl2) Hn2].
    split.
    + exists (j1 + j2)%nat. split.
      * intros c. rewrite Hc2, Hc1. lia.
      * rewrite Hl2, Hl1. lia.
    + intros open. rewrite Hn2. apply Hn1.
Qed.

(** X12.  The string [generate_string] returns is the first F with some
    number [k] of branching patterns worked in: [2k + 1] F, [2k] pushes and
    as many pops, [k] turns each way, [8k + 1] symbols in all and no other
    symbol. *)
Theorem generate_string_symbols (params : TreeParameters.t) (rng : Random.t R) :
  exists k : nat, grown k (fst (LSystemGenerator.generate_string R params rng)).
Proof.
  unfold LSystemGenerator.generate_string.
  destruct (iterate_grows
              (BranchParameters.branch_probability (TreeParameters.branches params))
              (Z.to_nat (BranchParameters.max_depth (TreeParameters.branches params)))
              "F" rng) as [(j & Hcount & Hlen) _].
  exists j. unfold grown. rewrite !Hcount, Hlen. cbn. lia.
Qed.

(** ** The stack of [string_to_tree] *)

Local Abbreviation interp := (LSystemGenerator.interp R).
Local Abbreviation state_stack := (LSystemGenerator.state_stack R).

Lemma step_stack (params : TreeParameters.t) (c : ascii) (i : interp) :
  List.length (state_stack (LSystemGenerator.step R M params c i))
  = if Ascii.eqb c "[" then S (List.length (state_stack i))
    else if Ascii.eqb c "]" then Nat.pred (List.length (state_stack i))
    else List.length (state_stack i).
Proof.
  unfold LSystemGenerator.step, LSystemGenerator.decay. cbn [LSystemGenerator.state_stack].
  unfold LSystemGenerator.interpret.
  destruct (Ascii.eqb c "F") eqn:EF.
  { apply Ascii.eqb_eq in EF. subst c. cbn [Ascii.eqb Bool.eqb].
    destruct (TreeStructure.root _); [destruct (LSystemGenerator.current_branch R i) |];
      reflexivity. }
  destruct (Ascii.eqb c "["); [reflexivity |].
  destruct (Ascii.eqb c "]");
    [destruct (state_stack i) eqn:E; cbn; rewrite ?E; reflexivity |].
  destruct (Ascii.eqb c "+"); [destruct (Random.next_float_in R _ _ _); reflexivity |].
  destruct (Ascii.eqb c "-"); [destruct (Random.next_float_in R _ _ _); reflexivity |].
  reflexivity.
Qed.

Lemma run_stack (params : TreeParameters.t) (s : string) :
  forall (i : interp) (n : nat),
    nesting s (List.length (state_stack i)) = Some n ->
    List.length (state_stack (LSystemGenerator.run R M params s i)) = n.
Proof.
  induction s as [| c s IH]; intros i n H; cbn [LSystemGenerator.run nesting] in *.
  - congruence.
  - apply IH. rewrite step_stack.
    destruct (Ascii.eqb c "["); [exact H |].
    destruct (Ascii.eqb c "]"); [| exact H].
    destruct (List.length (state_stack i)); [discriminate | exact H].
Qed.

(** X13.  The pushes and pops of a generated string are well nested; so
    when [string_to_tree] interprets it, every pop finds a saved state on
    the stack (the guard [!state_stack.empty()] never fails), and the stack
    is empty again at the end. *)
Theorem generated_string_nested (P params : TreeParameters.t)
  (rng rng' : Random.t R) :
  let s := fst (LSystemGenerator.generate_string R P rng) in
  let start := LSystemGenerator.start R params rng' in
  nesting s 0 = Some O
  /\ (forall pre post : string,
        s = (pre ++ String "]" post)%string ->
        state_stack (LSystemGenerator.run R M params pre start) <> [])
  /\ state_stack (LSystemGenerator.run R M params s start) = [].
Proof.
  intros s start.
  assert (Hs : nesting s 0 = Some O).
  { subst s. unfold LSystemGenerator.generate_string.
    destruct (iterate_grows
                (BranchParameters.branch_probability (TreeParameters.branches P))
                (Z.to_nat (BranchParameters.max_depth (TreeParameters.branches P)))
                "F" rng) as [_ Hnest].
    cbv zeta in Hnest. rewrite Hnest. reflexivity. }
  split; [exact Hs |]. split.
  - intros pre post E. rewrite E, nesting_app in Hs.
    destruct (nesting pre 0) as [d |] eqn:Hpre; [| discriminate].
    cbn [nesting Ascii.eqb Bool.eqb] in Hs.
    destruct d as [| d]; [discriminate |].
    pose proof (run_stack params pre start (S d) Hpre) as Hlen.
    intros Hnil. rewrite Hnil in Hlen. discriminate.
  - pose proof (run_stack params s start O Hs) as Hlen.
    destruct (state_stack _); [reflexivity | discriminate].
Qed.
End Strings.

(* ================================================================== *)
(** * The tree structure *)

Section TreeLinks.
Variable R : StdRandom.
Variable M : Libm.

(** X14.  The graph [string_to_tree] builds, for any string: one branch
    per F, the first of them the root; the parent of every other branch is
    the branch created just before it, whatever was pushed and popped in
    between, so no branch has two children and the last branch is the only
    leaf branch.  A string without F gives no branch and a null root. *)
Theorem string_to_tree_links (lstring : string) (params : TreeParameters.t)
  (rng : Random.t R) :
  let t := fst (LSystemGenerator.string_to_tree R M lstring params rng) in
  let n := count "F" lstring in
  List.length (TreeStructure.all_branches t) = n
  /\ TreeStructure.root t = match n with O => None | S _ => Some O end
  /\ (forall k b, nth_error (TreeStructure.all_branches t) k = Some b ->
        Branch.parent b = previous k
        /\ Branch.children b = if (S k <? n)%nat then [S k] else [])
  /\ TreeStructure.get_leaf_branches t = match n with O => [] | S m => [m] end.
Proof.
  intros t n.
  destruct (string_to_tree_shape R M params lstring rng) as (_ & _ & Hlen & Hchain).
  fold t n in Hlen, Hchain.
  pose proof (get_leaf_branches_chain t _ Hchain) as Hleaf.
  destruct Hchain as (Hroot & _ & Hlink).
  split; [exact Hlen |]. split; [| split].
  - rewrite Hroot. destruct (TreeStructure.all_branches t); cbn in Hlen; rewrite <- Hlen;
      reflexivity.
  - intros k b Hk. destruct (Hlink k b Hk) as [Hp Hc]. rewrite Hlen in Hc. auto.
  - rewrite Hleaf. destruct (TreeStructure.all_branches t) as [| h l]; cbn in Hlen;
      rewrite <- Hlen; [reflexivity |].
    cbn [List.length]. rewrite Nat.sub_1_r. reflexivity.
Qed.
End TreeLinks.

(** ** [max_depth] *)

Lemma fold_max_spec (bs : list Branch.t) :
  forall start : Z,
    let m := fold_left (fun max_d b => Z.max max_d (Branch.depth_level b)) bs start in
    start <= m
    /\ (forall b, In b bs -> Branch.depth_level b <= m)
    /\ (m = start \/ exists b, In b bs /\ Branch.depth_level b = m).
Proof.
  induction bs as [| h bs IH]; intros start; cbn [fold_left].
  - repeat split; [lia | intros b [] | left; reflexivity].
  - destruct (IH (Z.max start (Branch.depth_level h))) as (Hge & Hall & Hatt).
    cbv zeta in *. repeat split.
    + lia.
    + intros b [<- | Hb]; [lia | apply Hall, Hb].
    + destruct Hatt as [E | (b & Hb & E)].
      * destruct (Z.max_spec start (Branch.depth_level h)) as [[_ E'] | [_ E']].
        -- right. exists h. split; [left; reflexivity | congruence].
        -- left. congruence.
      * right. exists b. split; [right; exact Hb | exact E].
Qed.

(** X15.  [max_depth()] of any tree structure: never negative, at least
    the depth level of every branch, and either 0 or the depth level of one
    of the branches; in particular 0 for a structure without branches or
    with negative levels only. *)
Theorem max_depth_spec (t : TreeStructure.t) :
  0 <= TreeStructure.max_depth t
  /\ (forall b, In b (TreeStructure.all_branches t) ->
        Branch.depth_level b <= TreeStructure.max_depth t)
  /\ (TreeStructure.max_depth t = 0
      \/ exists b, In b (TreeStructure.all_branches t)
                   /\ Branch.depth_level b = TreeStructure.max_depth t).
Proof.
  unfold TreeStructure.max_depth. apply (fold_max_spec (TreeStructure.all_branches t) 0).
Qed.

(** ** The bounding box *)

Lemma min_spec (a b : float) :
  number a -> number b ->
  number (F32.min a b)
  /\ F32.leb (F32.min a b) a = true /\ F32.leb (F32.min a b) b = true.
Proof.
  intros Ha Hb. unfold F32.min, F32.ltb, F32.leb.
  destruct (SFltb b a) eqn:E.
  - split; [assumption |]. split; apply leb_rank; try assumption; [| apply lex_le_refl].
    destruct (lex_le_total (rank b) (rank a)) as [H | H]; [exact H |].
    apply ltb_rank in H; try assumption. congruence.
  - apply ltb_rank in E; try assumption.
    split; [assumption |]. split; apply leb_rank; try assumption. apply lex_le_refl.
Qed.

Lemma max_spec (a b : float) :
  number a -> number b ->
  number (F32.max a b)
  /\ F32.leb a (F32.max a b) = true /\ F32.leb b (F32.max a b) = true.
Proof.
  intros Ha Hb. unfold F32.max, F32.ltb, F32.leb.
  destruct (SFltb a b) eqn:E.
  - split; [assumption |]. split; apply leb_rank; try assumption; [| apply lex_le_refl].
    destruct (lex_le_total (rank a) (rank b)) as [H | H]; [exact H |].
    apply ltb_rank in H; try assumption. congruence.
  - apply ltb_rank in E; try assumption.
    split; [assumption |]. split; apply leb_rank; try assumption. apply lex_le_refl.
Qed.

Lemma number_leb_trans (a b c : float) :
  number a -> number b -> number c ->
  F32.leb a b = true -> F32.leb b c = true -> F32.leb a c = true.
Proof.
  unfold F32.leb. intros Ha Hb Hc Hab Hbc.
  apply leb_rank in Hab, Hbc; try assumption.
  apply leb_rank; try assumption. eapply lex_le_trans; eassumption.
Qed.

Lemma encloses_trans (a b c : Rect2Df.t) :
  rect_numbers a -> rect_numbers b -> rect_numbers c ->
  encloses a b -> encloses b c -> encloses a c.
Proof.
  intros (A1 & A2 & A3 & A4) (B1 & B2 & B3 & B4) (C1 & C2 & C3 & C4)
         (H1 & H2 & H3 & H4) (K1 & K2 & K3 & K4).
  unfold encloses.
  split; [exact (number_leb_trans _ _ _ A1 B1 C1 H1 K1) |].
  split; [exact (number_leb_trans _ _ _ A2 B2 C2 H2 K2) |].
  split; [exact (number_leb_trans _ _ _ C3 B3 A3 K3 H3) |].
  exact (number_leb_trans _ _ _ C4 B4 A4 K4 H4).
Qed.

Lemma expand_spec (bb box : Rect2Df.t) :
  rect_numbers bb -> rect_numbers box ->
  rect_numbers (TreeStructure.expand bb box)
  /\ encloses (TreeStructure.expand bb box) bb
  /\ encloses (TreeStructure.expand bb box) box.
Proof.
  intros (A1 & A2 & A3 & A4) (B1 & B2 & B3 & B4).
  unfold TreeStructure.expand, rect_numbers, encloses.
  cbn [Rect2Df.min Rect2Df.max Point2Df.x Point2Df.y].
  destruct (min_spec _ _ A1 B1) as (? & ? & ?).
  destruct (min_spec _ _ A2 B2) as (? & ? & ?).
  destruct (max_spec _ _ A3 B3) as (? & ? & ?).
  destruct (max_spec _ _ A4 B4) as (? & ? & ?).
  repeat split; assumption.
Qed.

Lemma expand_all {A : Type} (box : A -> Rect2Df.t) (l : list A) :
  (forall x, In x l -> rect_numbers (box x)) ->
  forall acc : Rect2Df.t,
    rect_numbers acc ->
    let r := fold_left (fun acc x => TreeStructure.expand acc (box x)) l acc in
    rect_numbers r /\ encloses r acc /\ (forall x, In x l -> encloses r (box x)).
Proof.
  induction l as [| h l IH]; intros Hl acc Hacc; cbn [fold_left].
  - split; [exact Hacc |]. split; [| intros x []].
    destruct Hacc as (A1 & A2 & A3 & A4).
    repeat split; apply leb_rank; try assumption; apply lex_le_refl.
  - assert (Hh : rect_numbers (box h)) by (apply Hl; left; reflexivity).
    destruct (expand_spec acc (box h) Hacc Hh) as (Hn & Hacc' & Hbox).
    destruct (IH (fun x Hx => Hl x (or_intror Hx)) _ Hn) as (Hr & Hr_acc & Hr_all).
    cbv zeta in *. split; [exact Hr |]. split.
    + eapply encloses_trans; [exact Hr | exact Hn | exact Hacc | exact Hr_acc | exact Hacc'].
    + intros x [<- | Hx]; [| apply Hr_all, Hx].
      eapply encloses_trans; [exact Hr | exact Hn | exact Hh | exact Hr_acc | exact Hbox].
Qed.

(** X16.  [calculate_bounding_box]: when no coordinate of a branch box or
    of a leaf cluster box is a NaN, the box it stores reaches at least as
    far as every one of them on all four sides.  Without branches it stores
    the zero rectangle, whatever the leaf clusters. *)
Theorem bounding_box_encloses (t : TreeStructure.t) :
  (forall b, In b (TreeStructure.all_branches t) -> rect_numbers (Branch.bounding_box b)) ->
  (forall c, In c (TreeStructure.leaf_clusters t) ->
     rect_numbers (LeafCluster.bounding_box c)) ->
  let bb := TreeStructure.bounding_box (TreeStructure.calculate_bounding_box t) in
  match TreeStructure.all_branches t with
  | [] => bb = TreeStructure.zero_rect
  | _ :: _ =>
      (forall b, In b (TreeStructure.all_branches t) -> encloses bb (Branch.bounding_box b))
      /\ (forall c, In c (TreeStructure.leaf_clusters t) ->
            encloses bb (LeafCluster.bounding_box c))
  end.
Proof.
  intros Hb Hc bb. subst bb. unfold TreeStructure.calculate_bounding_box.
  destruct (TreeStructure.all_branches t) as [| first rest] eqn:E; [reflexivity |].
  cbn [TreeStructure.bounding_box TreeStructure.set_bounding_box].
  assert (Hfirst : rect_numbers (Branch.bounding_box first)) by (apply Hb; left; reflexivity).
  destruct (expand_all Branch.bounding_box (first :: rest) Hb _ Hfirst)
    as (Hn1 & _ & Hall1).
  destruct (expand_all LeafCluster.bounding_box (TreeStructure.leaf_clusters t) Hc _ Hn1)
    as (Hn2 & Hacc2 & Hall2).
  cbv zeta in *. split.
  - intros b Hin.
    eapply encloses_trans; [exact Hn2 | exact Hn1 | apply Hb, Hin | exact Hacc2 |].
    apply Hall1, Hin.
  - exact Hall2.
Qed.

(** ** Leaf branches of any structure *)

Lemma get_leaf_branches_from_sound (arena : list Branch.t) (fuel : nat) :
  forall r i : nat,
    In i (TreeStructure.get_leaf_branches_from fuel arena r) ->
    exists b, nth_error arena i = Some b /\ Branch.is_leaf b = true.
Proof.
  induction fuel as [| fuel IH]; intros r i Hin; cbn [TreeStructure.get_leaf_branches_from] in Hin;
    [destruct Hin |].
  destruct (nth_error arena r) as [b |] eqn:Er; [| destruct Hin].
  destruct (Branch.is_leaf b) eqn:Eleaf.
  - destruct Hin as [<- | []]. exists b. auto.
  - apply in_flat_map in Hin. destruct Hin as (c & _ & Hc). apply (IH c i Hc).
Qed.

(** X17.  [get_leaf_branches] of any structure, however its branches are
    linked: every branch it returns is a branch of the structure without
    children; a structure with a null root has none, and a root without
    children is the one leaf branch. *)
Theorem get_leaf_branches_sound (t : TreeStructure.t) :
  (forall i, In i (TreeStructure.get_leaf_branches t) ->
     exists b, nth_error (TreeStructure.all_branches t) i = Some b
               /\ Branch.children b = [])
  /\ (TreeStructure.root t = None -> TreeStructure.get_leaf_branches t = [])
  /\ (forall r b, TreeStructure.root t = Some r ->
        nth_error (TreeStructure.all_branches t) r = Some b -> Branch.children b = [] ->
        TreeStructure.get_leaf_branches t = [r]).
Proof.
  unfold TreeStructure.get_leaf_branches. split; [| split].
  - intros i Hin. destruct (TreeStructure.root t) as [r |]; [| destruct Hin].
    destruct (get_leaf_branches_from_sound _ _ _ _ Hin) as (b & Hb & Hleaf).
    exists b. split; [exact Hb |]. unfold Branch.is_leaf in Hleaf.
    destruct (Branch.children b); [reflexivity | discriminate].
  - intros ->. reflexivity.
  - intros r b -> Hb Hc.
    destruct (TreeStructure.all_branches t) as [| h l] eqn:E;
      [destruct r; discriminate |].
    cbn [List.length TreeStructure.get_leaf_branches_from]. rewrite Hb.
    unfold Branch.is_leaf. rewrite Hc. reflexivity.
Qed.

(* ================================================================== *)
(** * The renderer *)

Lemma same_shape_refl (b : PixelBuffer.t) : well_formed b -> same_shape b b.
Proof. unfold same_shape. auto. Qed.

Lemma contains_same_shape (b0 b : PixelBuffer.t) (x y : Z) :
  same_shape b0 b -> PixelBuffer.contains b x y = PixelBuffer.contains b0 x y.
Proof.
  intros (_ & Hw & Hh). unfold PixelBuffer.contains, PixelBuffer.width, PixelBuffer.height in *.
  rewrite Hw, Hh. reflexivity.
Qed.

Lemma update_nth_Forall {A : Type} (P : A -> Prop) (f : A -> A) :
  forall (l : list A) (i : nat),
    Forall P l -> (forall a, P a -> P (f a)) -> Forall P (update_nth i f l).
Proof.
  induction l as [| h t IH]; intros [| i] Hl Hf; cbn; auto;
    inversion Hl; subst; constructor; auto.
Qed.

(** One plot: shape and palette stay, the pixel plotted holds the colour,
    every other pixel holds what it held. *)
Lemma plot_spec (b0 b : PixelBuffer.t) (x y color : Z) :
  same_shape b0 b ->
  same_shape b0 (plot b x y color)
  /\ (forall colors, painted_from colors b -> In color colors ->
        painted_from colors (plot b x y color))
  /\ (PixelBuffer.contains b0 x y = true -> PixelBuffer.get (plot b x y color) x y = color)
  /\ (forall X Y, 0 <= X < PixelBuffer.width b0 -> 0 <= Y < PixelBuffer.height b0 ->
        (X, Y) <> (x, y) ->
        PixelBuffer.get (plot b x y color) X Y = PixelBuffer.get b X Y)
  /\ (forall X Y, 0 <= X < PixelBuffer.width b0 -> 0 <= Y < PixelBuffer.height b0 ->
        PixelBuffer.get (plot b x y color) X Y = PixelBuffer.get b X Y
        \/ PixelBuffer.get (plot b x y color) X Y = color).
Proof.
  intros Hs. pose proof Hs as (Hwf & Hw & Hh). unfold plot.
  rewrite (contains_same_shape b0 b x y Hs).
  destruct (PixelBuffer.contains b0 x y) eqn:Hc.
  - rewrite <- (contains_same_shape b0 b x y Hs) in Hc.
    pose proof Hwf as (Hw0 & Hh0 & _).
    apply contains_sound in Hc; try assumption. destruct Hc as [Hx Hy].
    split; [| split; [| split; [| split]]].
    + split; [apply set_well_formed, Hwf |]. rewrite set_width, set_height. auto.
    + intros colors Hp Hin. unfold painted_from, PixelBuffer.set. cbn.
      apply update_nth_Forall; auto.
    + intros _. apply get_set_same; assumption.
    + intros X Y HX HY Hne. apply get_set_other; try lia.
      intros E. apply Hne. inversion E. reflexivity.
    + intros X Y HX HY.
      destruct (Z.eq_dec X x) as [-> | Hnx]; [destruct (Z.eq_dec Y y) as [-> | Hny] |].
      * right. apply get_set_same; assumption.
      * left. apply get_set_other; try lia. intros E. inversion E. lia.
      * left. apply get_set_other; try lia. intros E. inversion E. lia.
  - split; [exact Hs |]. split; [auto |]. split; [discriminate |]. split; auto.
Qed.

Lemma plot_shape (b0 b : PixelBuffer.t) (x y color : Z) :
  same_shape b0 b -> same_shape b0 (plot b x y color).
Proof. intros Hs. apply (plot_spec b0 b x y color Hs). Qed.

Lemma plot_painted (colors : list Z) (b : PixelBuffer.t) (x y color : Z) :
  painted_from colors b -> In color colors -> painted_from colors (plot b x y color).
Proof.
  intros Hp Hin. unfold plot. destruct (PixelBuffer.contains b x y); [| exact Hp].
  unfold painted_from, PixelBuffer.set. cbn. apply update_nth_Forall; auto.
Qed.

(** ** Shape and palette through the drawing loops *)

Section Drawing.
Variable b0 : PixelBuffer.t.
Variable colors : list Z.

Local Abbreviation kept := (kept b0 colors).

Lemma draw_line_loop_kept (color : Z) (fuel : nat) :
  In color colors ->
  forall (b : PixelBuffer.t) (x y err x1 y1 dx dy sx sy : Z),
    kept b -> kept (TreeRenderer.draw_line_loop fuel b x y err x1 y1 dx dy sx sy color).
Proof.
  intros Hin. induction fuel as [| fuel IH]; intros b x y err x1 y1 dx dy sx sy Hb;
    cbn [TreeRenderer.draw_line_loop]; [exact Hb |].
  fold (plot b x y color).
  assert (Hb' : kept (plot b x y color))
    by (destruct Hb; split; [apply plot_shape | apply plot_painted]; assumption).
  destruct ((x =? x1) && (y =? y1)); [exact Hb' |].
  destruct (- dy <? 2 * err); destruct (2 * err <? dx); apply IH; exact Hb'.
Qed.

Lemma draw_line_kept (color : Z) (b : PixelBuffer.t) (x0 y0 x1 y1 : Z) :
  In color colors -> kept b -> kept (TreeRenderer.draw_line b x0 y0 x1 y1 color).
Proof. intros Hin Hb. apply draw_line_loop_kept; assumption. Qed.

Lemma draw_thick_line_kept (color : Z) (b : PixelBuffer.t) (start end_ : Point2Df.t)
  (thickness : float) :
  In color colors -> kept b -> kept (TreeRenderer.draw_thick_line b start end_ thickness color).
Proof.
  intros Hin Hb. unfold TreeRenderer.draw_thick_line.
  apply for_int_inv; [exact Hb |].
  intros offset b' _ Hb'. apply draw_line_kept; [exact Hin |].
  apply draw_line_kept; assumption.
Qed.

Lemma draw_leaf_cluster_kept (b : PixelBuffer.t) (cluster : LeafCluster.t) :
  In (Color.to_rgba (LeafCluster.color cluster)) colors ->
  kept b -> kept (TreeRenderer.draw_leaf_cluster b cluster).
Proof.
  intros Hin Hb. unfold TreeRenderer.draw_leaf_cluster.
  apply for_int_inv; [exact Hb |].
  intros y b1 _ Hb1. apply for_int_inv; [exact Hb1 |].
  intros x b2 _ Hb2.
  destruct (x * x + y * y <=? _); [| exact Hb2].
  match goal with |- kept (if PixelBuffer.contains ?b ?px ?py then _ else _) =>
    fold (plot b px py (Color.to_rgba (LeafCluster.color cluster))) end.
  destruct Hb2; split; [apply plot_shape | apply plot_painted]; assumption.
Qed.
End Drawing.

Lemma fold_left_kept {A : Type} (P : PixelBuffer.t -> Prop)
  (f : PixelBuffer.t -> A -> PixelBuffer.t) (l : list A) :
  (forall b a, In a l -> P b -> P (f b a)) ->
  forall b : PixelBuffer.t, P b -> P (fold_left f l b).
Proof.
  induction l as [| h l IH]; intros Hf b Hb; cbn [fold_left]; [exact Hb |].
  apply IH; [intros b' a Ha; apply Hf; right; exact Ha |].
  apply Hf; [left; reflexivity | exact Hb].
Qed.

Lemma render_kept (t : TreeStructure.t) :
  let params := TreeStructure.parameters t in
  0 <= TreeParameters.canvas_width params -> 0 <= TreeParameters.canvas_height params ->
  kept (PixelBuffer.make (TreeParameters.canvas_width params)
                         (TreeParameters.canvas_height params))
       (palette t) (TreeRenderer.render t).
Proof.
  intros params Hw Hh. unfold TreeRenderer.render. fold params.
  set (blank := PixelBuffer.make _ _).
  assert (Hblank : kept blank (palette t) (PixelBuffer.clear 0 blank)).
  { split.
    - split; [apply clear_well_formed; cbn; lia |]. split; reflexivity.
    - unfold painted_from, PixelBuffer.clear. cbn [PixelBuffer.data_].
      apply Forall_forall. intros v Hv. apply repeat_spec in Hv. subst v.
      left. reflexivity. }
  unfold TreeRenderer.render_leaves, TreeRenderer.render_branches.
  apply fold_left_kept.
  - intros b c Hc Hb. apply draw_leaf_cluster_kept; [| exact Hb].
    unfold palette. right. apply in_or_app. right.
    apply (in_map (fun c => Color.to_rgba (LeafCluster.color c))). exact Hc.
  - apply fold_left_kept; [| exact Hblank].
    intros b br Hbr Hb. apply draw_thick_line_kept; [| exact Hb].
    unfold palette. right. apply in_or_app. left.
    apply (in_map (fun b => Color.to_rgba (Branch.color b))). exact Hbr.
Qed.

Lemma painted_at (colors : list Z) (b : PixelBuffer.t) (x y v : Z) :
  In 0 colors -> painted_from colors b ->
  PixelBuffer.at_ b x y = Some v -> In v colors.
Proof.
  intros H0 Hp Hat. unfold PixelBuffer.at_ in Hat.
  destruct (_ || _); [discriminate |]. injection Hat as <-.
  destruct (nth_in_or_default (Z.to_nat (y * PixelBuffer.width_ b + x))
                              (PixelBuffer.data_ b) 0) as [Hin | ->].
  - unfold painted_from in Hp. rewrite Forall_forall in Hp. apply Hp, Hin.
  - exact H0.
Qed.

(** X18.  [render] returns a buffer of the canvas size of the tree's
    parameters, and every pixel of it holds 0 (nothing drawn), the colour
    of one of the branches or the colour of one of the leaf clusters. *)
Theorem render_canvas (t : TreeStructure.t) :
  let params := TreeStructure.parameters t in
  0 <= TreeParameters.canvas_width params -> 0 <= TreeParameters.canvas_height params ->
  let b := TreeRenderer.render t in
  well_formed b
  /\ PixelBuffer.width b = TreeParameters.canvas_width params
  /\ PixelBuffer.height b = TreeParameters.canvas_height params
  /\ (forall x y v, PixelBuffer.at_ b x y = Some v -> In v (palette t)).
Proof.
  intros params Hw Hh b.
  destruct (render_kept t Hw Hh) as [(Hwf & Hbw & Hbh) Hp].
  fold params b in Hwf, Hbw, Hbh, Hp.
  split; [exact Hwf |]. split; [exact Hbw |]. split; [exact Hbh |].
  intros x y v Hat. apply (painted_at (palette t) b x y v); [| exact Hp | exact Hat].
  left. reflexivity.
Qed.

(** ** The line *)

Section DrawLineSpec.
Variable b0 : PixelBuffer.t.
Variables x1 y1 dx dy sx sy color : Z.
Hypothesis dx_nonneg : 0 <= dx.
Hypothesis dy_nonneg : 0 <= dy.
Hypothesis sx_unit : sx = 1 \/ sx = -1.
Hypothesis sy_unit : sy = 1 \/ sy = -1.

Local Abbreviation inside X Y :=
  (0 <= X < PixelBuffer.width b0 /\ 0 <= Y < PixelBuffer.height b0).

End DrawLineSpec.



(** ** The leaf cluster *)

Lemma disc_bound (r a b : Z) :
  0 <= r -> a * a + b * b <= r * r -> - r <= a <= r /\ - r <= b <= r.
Proof.
  intros Hr H.
  assert (0 <= a * a) by nia. assert (0 <= b * b) by nia.
  repeat split.
  - destruct (Z_lt_le_dec a (- r)); [nia | lia].
  - destruct (Z_lt_le_dec r a); [nia | lia].
  - destruct (Z_lt_le_dec b (- r)); [nia | lia].
  - destruct (Z_lt_le_dec r b); [nia | lia].
Qed.

Section Disc.
Variable b0 : PixelBuffer.t.
Variables cx cy radius color : Z.
Variables X Y : Z.

Hypothesis b0_wf : well_formed b0.
Hypothesis XY_contained : PixelBuffer.contains b0 X Y = true.
Hypothesis X_inside : 0 <= X < PixelBuffer.width b0.
Hypothesis Y_inside : 0 <= Y < PixelBuffer.height b0.

Local Abbreviation in_disc :=
  ((0 <=? radius)
   && ((X - cx) * (X - cx) + (Y - cy) * (Y - cy) <=? radius * radius)).

Local Abbreviation reached x y :=
  (((Y - cy <? y) || ((Y - cy =? y) && (X - cx <? x))) && in_disc).

Local Abbreviation at_turn x y b :=
  (same_shape b0 b
   /\ PixelBuffer.get b X Y = if reached x y then color else PixelBuffer.get b0 X Y).

Local Abbreviation dot x y b :=
  (if x * x + y * y <=? radius * radius then plot b (cx + x) (cy + y) color else b).

Lemma disc_dot (x y : Z) (b : PixelBuffer.t) :
  0 <= radius -> at_turn x y b -> at_turn (x + 1) y (dot x y b).
Proof.
  intros Hr [Hs Hget].
  assert (Hs' : same_shape b0 (dot x y b))
    by (destruct (x * x + y * y <=? radius * radius); [apply plot_shape |]; exact Hs).
  split; [exact Hs' |].
  destruct (Z.eq_dec (X - cx) x) as [Ex | Nx];
    [destruct (Z.eq_dec (Y - cy) y) as [Ey | Ny] |].
  - (* the turn of (X, Y) *)
    replace (cx + x) with X by lia. replace (cy + y) with Y by lia.
    replace (Y - cy <? y) with false in * by (symmetry; apply Z.ltb_ge; lia).
    replace (Y - cy =? y) with true in * by (symmetry; apply Z.eqb_eq; lia).
    replace (X - cx <? x) with false in Hget by (symmetry; apply Z.ltb_ge; lia).
    replace (X - cx <? x + 1) with true by (symmetry; apply Z.ltb_lt; lia).
    replace (0 <=? radius) with true by (symmetry; apply Z.leb_le; lia).
    cbn [orb andb] in *. rewrite Ex, Ey.
    destruct (x * x + y * y <=? radius * radius); [| exact Hget].
    apply (plot_spec b0 b X Y color Hs). exact XY_contained.
  - replace (Y - cy =? y) with false in * by (symmetry; apply Z.eqb_neq; lia).
    rewrite andb_false_l in *. rewrite <- Hget.
    destruct (x * x + y * y <=? radius * radius); [| reflexivity].
    apply (plot_spec b0 b (cx + x) (cy + y) color Hs); try assumption.
    intros E. inversion E. lia.
  - replace (X - cx <? x + 1) with (X - cx <? x)
      by (destruct (Z.ltb_spec (X - cx) x); symmetry;
          [apply Z.ltb_lt | apply Z.ltb_ge]; lia).
    rewrite <- Hget.
    destruct (x * x + y * y <=? radius * radius); [| reflexivity].
    apply (plot_spec b0 b (cx + x) (cy + y) color Hs); try assumption.
    intros E. inversion E. lia.
Qed.

Lemma disc_pixel :
  let b' :=
    for_int (- radius) (radius + 1) (fun y b =>
      for_int (- radius) (radius + 1) (fun x b => dot x y b) b) b0 in
  same_shape b0 b'
  /\ PixelBuffer.get b' X Y = if in_disc then color else PixelBuffer.get b0 X Y.
Proof.
  cbv zeta. unfold for_int.
  set (n := Z.to_nat (radius + 1 - - radius)).
  assert (Hrows : at_turn (- radius) (- radius + Z.of_nat n)
            (for_loop n (- radius)
               (fun y b => for_loop n (- radius) (fun x b => dot x y b) b) b0)).
  { apply (for_loop_ind (fun y b => at_turn (- radius) y b)).
    - split; [apply same_shape_refl, b0_wf |].
      destruct (Z.leb_spec 0 radius) as [Hr | Hr]; [| rewrite andb_false_r; reflexivity].
      destruct (_ <=? radius * radius) eqn:Hd;
        [| rewrite andb_false_r; reflexivity].
      apply Z.leb_le in Hd. apply disc_bound in Hd; [| lia].
      replace (Y - cy <? - radius) with false by (symmetry; apply Z.ltb_ge; lia).
      replace (X - cx <? - radius) with false by (symmetry; apply Z.ltb_ge; lia).
      rewrite andb_false_r. reflexivity.
    - intros y b Hy Hb.
      assert (Hr : 0 <= radius) by lia.
      assert (Hn : - radius + Z.of_nat n = radius + 1) by lia.
      assert (Hcols : at_turn (- radius + Z.of_nat n) y
                (for_loop n (- radius) (fun x b => dot x y b) b)).
      { apply (for_loop_ind (fun x b => at_turn x y b)); [exact Hb |].
        intros x b1 _ Hb1. apply disc_dot; assumption. }
      destruct Hcols as [Hs Hget]. split; [exact Hs |].
      rewrite Hget, Hn.
      destruct (Z.leb_spec 0 radius) as [_ | ]; [| lia].
      destruct (_ <=? radius * radius) eqn:Hd;
        [| rewrite !andb_false_r; reflexivity].
      apply Z.leb_le in Hd. apply disc_bound in Hd; [| lia]. cbn [andb].
      replace (X - cx <? radius + 1) with true by (symmetry; apply Z.ltb_lt; lia).
      replace (X - cx <? - radius) with false by (symmetry; apply Z.ltb_ge; lia).
      rewrite !andb_true_r, !andb_false_r, !orb_false_r.
      destruct (Z.ltb_spec (Y - cy) y); destruct (Z.eqb_spec (Y - cy) y);
        destruct (Z.ltb_spec (Y - cy) (y + 1)); try lia; reflexivity. }
  destruct Hrows as [Hs Hget]. split; [exact Hs |].
  rewrite Hget.
  destruct (Z.leb_spec 0 radius) as [Hr | Hr]; [| rewrite andb_false_r; reflexivity].
  destruct (_ <=? radius * radius) eqn:Hd; [| rewrite andb_false_r; reflexivity].
  apply Z.leb_le in Hd. apply disc_bound in Hd; [| lia].
  replace (Y - cy <? - radius + Z.of_nat n) with true
    by (symmetry; apply Z.ltb_lt; lia).
  reflexivity.
Qed.
End Disc.


(** A pixel [contains] refuses keeps its value through the disc. *)
Lemma plot_refused (b0 b : PixelBuffer.t) (x y color X Y : Z) :
  same_shape b0 b ->
  0 <= X < PixelBuffer.width b0 -> 0 <= Y < PixelBuffer.height b0 ->
  PixelBuffer.contains b0 X Y = false ->
  PixelBuffer.get (plot b x y color) X Y = PixelBuffer.get b X Y.
Proof.
  intros Hs HX HY Hno.
  destruct (Z.eq_dec X x) as [-> | Hnx]; [destruct (Z.eq_dec Y y) as [-> | Hny] |].
  - unfold plot. rewrite (contains_same_shape b0 b x y Hs), Hno. reflexivity.
  - apply (plot_spec b0 b x y color Hs); try assumption. intros E. inversion E. lia.
  - apply (plot_spec b0 b x y color Hs); try assumption. intros E. inversion E. lia.
Qed.

Lemma disc_refused (b0 : PixelBuffer.t) (cx cy radius color X Y : Z) :
  well_formed b0 ->
  0 <= X < PixelBuffer.width b0 -> 0 <= Y < PixelBuffer.height b0 ->
  PixelBuffer.contains b0 X Y = false ->
  let b' :=
    for_int (- radius) (radius + 1) (fun y b =>
      for_int (- radius) (radius + 1) (fun x b =>
        if x * x + y * y <=? radius * radius then plot b (cx + x) (cy + y) color else b)
        b) b0 in
  same_shape b0 b' /\ PixelBuffer.get b' X Y = PixelBuffer.get b0 X Y.
Proof.
  intros Hwf HX HY Hno. cbv zeta.
  apply (for_int_inv (fun b => same_shape b0 b
                               /\ PixelBuffer.get b X Y = PixelBuffer.get b0 X Y)).
  - split; [apply same_shape_refl, Hwf | reflexivity].
  - intros y b _ Hb.
    apply (for_int_inv (fun b => same_shape b0 b
                                 /\ PixelBuffer.get b X Y = PixelBuffer.get b0 X Y));
      [exact Hb |].
    intros x b1 _ [Hs Hget].
    destruct (x * x + y * y <=? radius * radius); [| auto].
    split; [apply plot_shape, Hs |].
    rewrite (plot_refused b0 b1 (cx + x) (cy + y) color X Y Hs HX HY Hno). exact Hget.
Qed.

(** X20.  [draw_leaf_cluster] paints a filled disc, on a buffer of any
    size: with [r] the cluster size rounded up, at most 32767, and
    [(cx, cy)] its position rounded, at most 2^26 in size, a pixel of the
    buffer holds the cluster's colour afterwards when [contains] accepts it
    and it is within [r] of the centre ([dx * dx + dy * dy <= r * r]), and
    what it held before otherwise; a negative [r] paints nothing.
    [contains] accepts every pixel of a buffer whose width and height are
    at most [INT_MAX]. *)
Theorem draw_leaf_cluster_disc (b : PixelBuffer.t) (cluster : LeafCluster.t) (X Y : Z) :
  well_formed b ->
  0 <= X < PixelBuffer.width b -> 0 <= Y < PixelBuffer.height b ->
  let cx := F32.round_to_int (Point2Df.x (LeafCluster.position cluster)) in
  let cy := F32.round_to_int (Point2Df.y (LeafCluster.position cluster)) in
  let r := F32.ceil_to_int (LeafCluster.size cluster) in
  small cx -> small cy -> r <= 32767 ->
  let b' := TreeRenderer.draw_leaf_cluster b cluster in
  same_shape b b'
  /\ PixelBuffer.get b' X Y
     = (if (0 <=? r) && ((X - cx) * (X - cx) + (Y - cy) * (Y - cy) <=? r * r)
           && PixelBuffer.contains b X Y
        then Color.to_rgba (LeafCluster.color cluster)
        else PixelBuffer.get b X Y)
  /\ (PixelBuffer.width b <= F32.INT_MAX -> PixelBuffer.height b <= F32.INT_MAX ->
      PixelBuffer.contains b X Y = true).
Proof.
  intros Hwf HX HY cx cy r _ _ _ b'.
  assert (Hmain : same_shape b b'
                  /\ PixelBuffer.get b' X Y
                     = (if (0 <=? r)
                           && ((X - cx) * (X - cx) + (Y - cy) * (Y - cy) <=? r * r)
                           && PixelBuffer.contains b X Y
                        then Color.to_rgba (LeafCluster.color cluster)
                        else PixelBuffer.get b X Y)).
  { destruct (PixelBuffer.contains b X Y) eqn:Hc.
    - rewrite andb_true_r.
      exact (disc_pixel b cx cy r (Color.to_rgba (LeafCluster.color cluster)) X Y
                         Hwf Hc HX HY).
    - rewrite andb_false_r.
      exact (disc_refused b cx cy r (Color.to_rgba (LeafCluster.color cluster)) X Y
                          Hwf HX HY Hc). }
  destruct Hmain as [Hs Hget]. split; [exact Hs |]. split; [exact Hget |].
  intros Hw Hh. apply contains_inside; assumption.
Qed.

Lemma draw_leaf_cluster_disc_witness :
  let b := PixelBuffer.make 16 16 in
  let cluster :=
    LeafCluster.make (Point2Df.mk (F32.of_Z 5) (F32.of_Z 6)) (F32.lit 25 10)
                     (Color.rgb 34 139 34) in
  let cx := F32.round_to_int (Point2Df.x (LeafCluster.position cluster)) in
  let cy := F32.round_to_int (Point2Df.y (LeafCluster.position cluster)) in
  let r := F32.ceil_to_int (LeafCluster.size cluster) in
  let b' := TreeRenderer.draw_leaf_cluster b cluster in
  same_shape b b'
  /\ PixelBuffer.get b' 7 8
     = (if (0 <=? r) && ((7 - cx) * (7 - cx) + (8 - cy) * (8 - cy) <=? r * r)
           && PixelBuffer.contains b 7 8
        then Color.to_rgba (LeafCluster.color cluster)
        else PixelBuffer.get b 7 8)
  /\ (PixelBuffer.width b <= F32.INT_MAX -> PixelBuffer.height b <= F32.INT_MAX ->
      PixelBuffer.contains b 7 8 = true).
Proof.
  apply (draw_leaf_cluster_disc (PixelBuffer.make 16 16)
           (LeafCluster.make (Point2Df.mk (F32.of_Z 5) (F32.of_Z 6)) (F32.lit 25 10)
                             (Color.rgb 34 139 34)) 7 8);
    try (vm_compute; repeat split; discriminate);
    unfold well_formed, F32.INT_MAX; cbn; repeat split; lia.
Defined.

(* ================================================================== *)
(** * Further properties of the generator *)

Section Generator.
Variable R : StdRandom.
Variable M : Libm.

(** ** What [validate] keeps *)

Lemma validate_keeps (P : TreeParameters.t) :
  TreeParameters.canvas_width (TreeParameters.validate P) = TreeParameters.canvas_width P
  /\ TreeParameters.canvas_height (TreeParameters.validate P) = TreeParameters.canvas_height P
  /\ TrunkParameters.base_color (TreeParameters.trunk (TreeParameters.validate P))
     = TrunkParameters.base_color (TreeParameters.trunk P)
  /\ TreeParameters.type (TreeParameters.validate P) = TreeParameters.type P
  /\ BranchParameters.max_depth (TreeParameters.branches (TreeParameters.validate P))
     = match TreeParameters.type P with
       | Palm => BoundedInt 1 10
                   (Z.min (BranchParameters.max_depth (TreeParameters.branches P)) 3)
       | _ => BranchParameters.max_depth (TreeParameters.branches P)
       end.
Proof.
  unfold TreeParameters.validate, TreeParameters.adjust_for_season,
    TreeParameters.adjust_for_growth, TreeParameters.adjust_for_type.
  destruct P as [type gs season cw ch sc br lv tr wd ws af seed det].
  destruct type; destruct season; cbn; repeat split; reflexivity.
Qed.

(** The structure [generate] renders, and what it reports of it. *)
Lemma generate_renders (g : TreeGenerator.t R) (env : Env) (P : TreeParameters.t) :
  let t := fst (TreeGenerator.generate_structure R M g env P) in
  let r := fst (TreeGenerator.generate R M g env P) in
  fst r = TreeRenderer.render t
  /\ TreeMetadata.branch_count (snd r) = TreeStructure.branch_count t
  /\ TreeMetadata.leaf_count (snd r) = TreeStructure.leaf_cluster_count t
  /\ TreeMetadata.max_depth (snd r) = TreeStructure.max_depth t
  /\ TreeMetadata.random_seed (snd r) = TreeGenerator.actual_seed env P.
Proof.
  unfold TreeGenerator.generate.
  destruct (TreeGenerator.generate_structure R M g env P) as [t g'].
  cbn. repeat split; reflexivity.
Qed.

(** The structure [generate_structure] returns, in terms of the string. *)
Lemma generate_structure_parts (g : TreeGenerator.t R) (env : Env) (P : TreeParameters.t) :
  let P' := TreeParameters.validate P in
  let rng0 := Random.make R (TreeGenerator.actual_seed env P) in
  let s := LSystemGenerator.generate_string R P' rng0 in
  let t0 := LSystemGenerator.string_to_tree R M (fst s) P' (snd s) in
  let t := fst (TreeGenerator.generate_structure R M g env P) in
  TreeStructure.all_branches t = TreeStructure.all_branches (fst t0)
  /\ TreeStructure.parameters t = P'
  /\ TreeStructure.leaf_clusters t
     = TreeStructure.leaf_clusters
         (fst (TreeGenerator.generate_leaf_clusters R (fst t0) (snd t0))).
Proof.
  intros P' rng0 s t0 t. subst t. unfold TreeGenerator.generate_structure.
  fold P' rng0. fold s. destruct s as [lstring rng1]. cbn [fst snd] in *.
  fold t0.
  pose proof (string_to_tree_shape R M P' lstring rng1) as (_ & Hpar & _).
  fold t0 in Hpar. destruct t0 as [t0 rng2]. cbn [fst snd] in *.
  assert (Hkeep : TreeStructure.all_branches (fst (TreeGenerator.generate_leaf_clusters R t0 rng2))
                  = TreeStructure.all_branches t0
                  /\ TreeStructure.parameters (fst (TreeGenerator.generate_leaf_clusters R t0 rng2))
                     = TreeStructure.parameters t0).
  { unfold TreeGenerator.generate_leaf_clusters.
    destruct (F32.leb _ _); [split; reflexivity |].
    destruct (fold_left _ _ _). split; reflexivity. }
  destruct (TreeGenerator.generate_leaf_clusters R t0 rng2) as [t1 rng3].
  cbn [fst snd] in *. destruct Hkeep as [Hb Hp].
  destruct (calculate_bounding_box_keeps t1) as [Hb' Hc'].
  split; [rewrite Hb'; exact Hb |]. split; [| exact Hc'].
  unfold TreeStructure.calculate_bounding_box.
  destruct (TreeStructure.all_branches t1); cbn; congruence.
Qed.

(** ** The branch colour *)

Lemma step_one_color (params : TreeParameters.t) (c : ascii) (color : Color.t)
  (i : LSystemGenerator.interp R) :
  one_color R color i -> one_color R color (LSystemGenerator.step R M params c i).
Proof.
  intros (Hcur & Hstack & Hbr).
  unfold LSystemGenerator.step, LSystemGenerator.decay, one_color.
  cbn [LSystemGenerator.current_state LSystemGenerator.state_stack LSystemGenerator.tree
       LSystemState.color].
  unfold LSystemGenerator.interpret.
  destruct (Ascii.eqb c "F").
  { destruct (TreeStructure.root (LSystemGenerator.tree R i)) eqn:Er;
      [destruct (LSystemGenerator.current_branch R i) eqn:Ec |];
      cbn; (split; [exact Hcur |]); (split; [exact Hstack |]);
      apply Forall_app; (split; [| repeat constructor; exact Hcur]);
      try exact Hbr.
    apply update_nth_Forall; [exact Hbr | intros b Hb; exact Hb]. }
  destruct (Ascii.eqb c "[").
  { cbn. split; [exact Hcur |]. split; [constructor; assumption | exact Hbr]. }
  destruct (Ascii.eqb c "]").
  { destruct (LSystemGenerator.state_stack R i) as [| top rest] eqn:E.
    - rewrite E. auto.
    - inversion Hstack; subst. cbn. auto. }
  destruct (Ascii.eqb c "+"); [destruct (Random.next_float_in R _ _ _); cbn; auto |].
  destruct (Ascii.eqb c "-"); [destruct (Random.next_float_in R _ _ _); cbn; auto |].
  auto.
Qed.

Lemma run_one_color (params : TreeParameters.t) (color : Color.t) (s : string) :
  forall i : LSystemGenerator.interp R,
    one_color R color i -> one_color R color (LSystemGenerator.run R M params s i).
Proof.
  induction s as [| c s IH]; intros i Hi; cbn [LSystemGenerator.run];
    [exact Hi | apply IH, step_one_color, Hi].
Qed.

Lemma string_to_tree_color (lstring : string) (params : TreeParameters.t)
  (rng : Random.t R) :
  Forall (fun b => Branch.color b
                   = TrunkParameters.base_color (TreeParameters.trunk params))
         (TreeStructure.all_branches
            (fst (LSystemGenerator.string_to_tree R M lstring params rng))).
Proof.
  unfold LSystemGenerator.string_to_tree. cbn [fst].
  apply (run_one_color params _ lstring (LSystemGenerator.start R params rng)).
  repeat split; constructor.
Qed.

(** X21.  The image [generate] returns has the canvas size of the
    parameters it was given, and each of its pixels holds 0 (transparent,
    nothing drawn), the trunk colour of the parameters, or the colour of a
    leaf cluster of the structure. *)
Theorem generated_image (g : TreeGenerator.t R) (env : Env) (P : TreeParameters.t) :
  0 <= TreeParameters.canvas_width P -> 0 <= TreeParameters.canvas_height P ->
  let t := fst (TreeGenerator.generate_structure R M g env P) in
  let b := fst (fst (TreeGenerator.generate R M g env P)) in
  well_formed b
  /\ PixelBuffer.width b = TreeParameters.canvas_width P
  /\ PixelBuffer.height b = TreeParameters.canvas_height P
  /\ (forall x y v, PixelBuffer.at_ b x y = Some v ->
        v = 0
        \/ v = Color.to_rgba (TrunkParameters.base_color (TreeParameters.trunk P))
        \/ exists c, In c (TreeStructure.leaf_clusters t)
                     /\ v = Color.to_rgba (LeafCluster.color c)).
Proof.
  intros Hw Hh t b.
  destruct (generate_renders g env P) as (Hb & _). fold t b in Hb.
  destruct (generate_structure_parts g env P) as (Hbr & Hpar & _). fold t in Hbr, Hpar.
  destruct (validate_keeps P) as (Hcw & Hch & Hcol & _).
  assert (Hw' : 0 <= TreeParameters.canvas_width (TreeStructure.parameters t))
    by (rewrite Hpar, Hcw; exact Hw).
  assert (Hh' : 0 <= TreeParameters.canvas_height (TreeStructure.parameters t))
    by (rewrite Hpar, Hch; exact Hh).
  destruct (render_kept t Hw' Hh') as [(Hwf & Hbw & Hbh) Hpal].
  rewrite <- Hb in Hwf, Hbw, Hbh, Hpal.
  split; [exact Hwf |].
  split; [rewrite <- Hcw, <- Hpar; exact Hbw |].
  split; [rewrite <- Hch, <- Hpar; exact Hbh |].
  intros x y v Hat.
  apply (painted_at (palette t)) in Hat; [| left; reflexivity | exact Hpal].
  destruct Hat as [E | Hin]; [left; auto |].
  apply in_app_or in Hin. destruct Hin as [Hin | Hin]; apply in_map_iff in Hin;
    destruct Hin as (z & Ez & Hz).
  - right. left. rewrite <- Ez, <- Hcol. f_equal.
    rewrite Hbr in Hz.
    pose proof (string_to_tree_color
                  (fst (LSystemGenerator.generate_string R (TreeParameters.validate P)
                          (Random.make R (TreeGenerator.actual_seed env P))))
                  (TreeParameters.validate P)
                  (snd (LSystemGenerator.generate_string R (TreeParameters.validate P)
                          (Random.make R (TreeGenerator.actual_seed env P))))) as Hall.
    rewrite Forall_forall in Hall. apply Hall, Hz.
  - right. right. exists z. split; [exact Hz | symmetry; exact Ez].
Qed.

(** X22.  A palm never has more than 27 branches: [validate] brings the
    depth of a palm down to 3 at most, and [generate] validates before it
    grows the string. *)
Theorem palm_branch_bound (g : TreeGenerator.t R) (env : Env) (P : TreeParameters.t) :
  TreeParameters.type P = Palm ->
  1 <= BranchParameters.max_depth (TreeParameters.branches (TreeParameters.validate P)) <= 3
  /\ 1 <= TreeMetadata.branch_count (snd (output R M g env P)) <= 27.
Proof.
  intros Hpalm.
  destruct (validate_keeps P) as (_ & _ & _ & _ & Hd). rewrite Hpalm in Hd.
  assert (Hrange : 1 <= BranchParameters.max_depth
                          (TreeParameters.branches (TreeParameters.validate P)) <= 3).
  { rewrite Hd. unfold BoundedInt, clampZ.
    destruct (Z.ltb_spec (Z.min (BranchParameters.max_depth (TreeParameters.branches P)) 3) 1);
      [lia |].
    destruct (Z.ltb_spec 10 (Z.min (BranchParameters.max_depth (TreeParameters.branches P)) 3));
      lia. }
  split; [exact Hrange |].
  pose proof (branch_count_bound R M g env P) as Hbound. cbv zeta in Hbound.
  pose proof (generate_counts R M g env P) as [Hpos _]. cbv zeta in Hpos.
  split; [lia |].
  eapply Z.le_trans; [apply Hbound; lia |].
  change 27 with (3 ^ 3). apply Z.pow_le_mono_r; lia.
Qed.

(** X23.  The seed given to the constructor of the generator, and so the
    seed argument of [generate_oak_tree], [generate_pine_tree] and
    [generate_palm_tree], never reaches the result: [generate] seeds its
    engine anew from the parameters (or, when their seed is 0, as here,
    from the random device) before it draws from it. *)
Theorem constructor_seed_unused (seed1 seed2 : Z) (env1 env2 env : Env) :
  (forall P : TreeParameters.t,
     fst (TreeGenerator.generate R M (TreeGenerator.make R seed1 env1) env P)
     = fst (TreeGenerator.generate R M (TreeGenerator.make R seed2 env2) env P))
  /\ (forall (preset : TreeParameters.t) (width height : Z),
        fst (generate_preset R M preset width height seed1 env1 env)
        = fst (generate_preset R M preset width height seed2 env2 env))
  /\ (forall (width height : Z) (env' : Env),
        random_device env' = random_device env ->
        same_output (fst (generate_oak_tree R M width height seed1 env1 env))
                    (fst (generate_oak_tree R M width height seed2 env2 env'))).
Proof.
  assert (H : forall (g1 g2 : TreeGenerator.t R) (P : TreeParameters.t),
            fst (TreeGenerator.generate R M g1 env P)
            = fst (TreeGenerator.generate R M g2 env P)).
  { intros g1 g2 P. unfold TreeGenerator.generate.
    rewrite (generate_structure_seeded R M g1 g2 env env P eq_refl).
    destruct (TreeGenerator.generate_structure R M g2 env P). reflexivity. }
  split; [intros P; apply H |]. split; [intros preset width height; apply H |].
  intros width height env' Hdev.
  apply (output_same_seed R M). unfold TreeGenerator.actual_seed. rewrite Hdev. reflexivity.
Qed.

(** ** The depth the metadata reports *)

Lemma rewrite_sprouted (probability : float) (s : string) (rng : Random.t R) :
  sprouted s -> sprouted (fst (LSystemGenerator.rewrite R probability s rng)).
Proof.
  intros [-> | [rest ->]].
  - cbn [LSystemGenerator.rewrite Ascii.eqb Bool.eqb].
    destruct (Random.next_float R rng) as [u rng1].
    destruct (F32.ltb u probability); cbn; [right; exists "][-F]"%string | left]; reflexivity.
  - change ("F[+F" ++ rest)%string with (String "F" (String "[" (String "+" (String "F" rest)))).
    cbn [LSystemGenerator.rewrite Ascii.eqb Bool.eqb].
    destruct (Random.next_float R rng) as [u rng1].
    destruct (Random.next_float R rng1) as [u2 rng2].
    destruct (LSystemGenerator.rewrite R probability rest rng2) as [next rng3].
    right. destruct (F32.ltb u probability); destruct (F32.ltb u2 probability); cbn;
      eexists; reflexivity.
Qed.

Lemma generate_string_sprouted (P : TreeParameters.t) (rng : Random.t R) :
  sprouted (fst (LSystemGenerator.generate_string R P rng)).
Proof.
  unfold LSystemGenerator.generate_string.
  generalize (Z.to_nat (BranchParameters.max_depth (TreeParameters.branches P))) as n.
  assert (H : sprouted "F") by (left; reflexivity). revert H.
  generalize "F"%string as s. revert rng.
  intros rng s Hs n. revert s rng Hs.
  induction n as [| n IH]; intros s rng Hs; cbn [LSystemGenerator.iterate]; [exact Hs |].
  pose proof (rewrite_sprouted
                (BranchParameters.branch_probability (TreeParameters.branches P)) s rng Hs) as H.
  destruct (LSystemGenerator.rewrite R _ s rng) as [next rng1]. cbn [fst] in H.
  apply IH, H.
Qed.

Lemma sprouted_depths (s : string) (params : TreeParameters.t) (rng : Random.t R) :
  sprouted s ->
  let t := fst (LSystemGenerator.string_to_tree R M s params rng) in
  (List.length (TreeStructure.all_branches t) = 1%nat /\ TreeStructure.max_depth t = 0)
  \/ ((1 < List.length (TreeStructure.all_branches t))%nat /\ 3 <= TreeStructure.max_depth t).
Proof.
  intros Hs t.
  pose proof (start_chain R params rng) as Hstart. cbv zeta in Hstart.
  destruct (step_grow_new R M params _ Hstart) as (b0 & Hb0 & _ & Hd0 & _).
  set (start := LSystemGenerator.start R params rng) in *.
  change (List.length (TreeStructure.all_branches (LSystemGenerator.tree R start)))
    with O in Hb0.
  change (LSystemState.depth (LSystemGenerator.current_state R start)) with 0 in Hd0.
  destruct Hs as [-> | [rest ->]].
  - left. subst t. unfold LSystemGenerator.string_to_tree. cbn [fst LSystemGenerator.run].
    fold start.
    pose proof (step_length R M params "F" start) as Hlen.
    change (List.length (TreeStructure.all_branches (LSystemGenerator.tree R start)))
      with O in Hlen.
    cbn [Ascii.eqb Bool.eqb Nat.add] in Hlen.
    unfold TreeStructure.max_depth.
    destruct (TreeStructure.all_branches
                (LSystemGenerator.tree R (LSystemGenerator.step R M params "F" start)))
      as [| b [| b' l]]; try discriminate.
    cbn in Hb0. injection Hb0 as ->.
    split; [reflexivity |]. cbn [fold_left]. lia.
  - right.
    destruct (child_after_stretch R M params EmptyString "[+" rest rng eq_refl eq_refl)
      as (parent & child & Hp & Hc & _ & _ & Hdepth & _).
    assert (Hp' : nth_error (TreeStructure.all_branches t) 0 = Some parent) by exact Hp.
    assert (Hc' : nth_error (TreeStructure.all_branches t) 1 = Some child) by exact Hc.
    assert (Hdepth' : Branch.depth_level child = Branch.depth_level parent + 1 + 2)
      by exact Hdepth.
    clear Hp Hc Hdepth.
    assert (Hparent : Branch.depth_level parent = 0).
    { assert (H0 : exists b', nth_error (TreeStructure.all_branches t) 0 = Some b'
                              /\ Branch.depth_level b' = 0).
      { subst t. unfold LSystemGenerator.string_to_tree. cbn [fst].
        change ("F[+F" ++ rest)%string with (String "F" ("[+F" ++ rest)).
        cbn [LSystemGenerator.run]. fold start.
        destruct (run_keeps R M params ("[+F" ++ rest) _ _ _ Hb0) as (b' & Hb' & _ & Hd' & _).
        exists b'. split; [exact Hb' | congruence]. }
      destruct H0 as (b' & Hb' & Hd'). congruence. }
    destruct (fold_max_spec (TreeStructure.all_branches t) 0) as (_ & Hall & _).
    fold (TreeStructure.max_depth t) in Hall.
    split.
    + apply nth_error_Some. rewrite Hc'. discriminate.
    + specialize (Hall child (nth_error_In _ _ Hc')). lia.
Qed.

(** X24.  The depth in the metadata counts symbols, not branchings: it is
    0 exactly for a tree of one branch, and at least 3 for every other
    tree, whose second branch follows the push and the turn of the first
    branching pattern. *)
Theorem generated_max_depth (g : TreeGenerator.t R) (env : Env) (P : TreeParameters.t) :
  let metadata := snd (output R M g env P) in
  (TreeMetadata.branch_count metadata = 1 /\ TreeMetadata.max_depth metadata = 0)
  \/ (1 < TreeMetadata.branch_count metadata /\ 3 <= TreeMetadata.max_depth metadata).
Proof.
  intros metadata. subst metadata. unfold output.
  destruct (generate_renders g env P) as (_ & Hbc & _ & Hmd & _).
  rewrite Hbc, Hmd.
  destruct (generate_structure_parts g env P) as (Hbr & _).
  unfold TreeStructure.branch_count, TreeStructure.max_depth. rewrite Hbr.
  set (s := LSystemGenerator.generate_string R _ _).
  destruct (sprouted_depths (fst s) (TreeParameters.validate P) (snd s)
              (generate_string_sprouted _ _)) as [[Hlen Hd] | [Hlen Hd]].
  - left. split; [rewrite Hlen; reflexivity | exact Hd].
  - right. split; [lia | exact Hd].
Qed.

(** X25.  The counts in the metadata: the number of branches is odd (one
    trunk and two branches for every branching pattern), at least 1 and at
    most [3 ^ max_depth]; the number of leaf clusters is 0 or 1. *)
Theorem generated_counts (g : TreeGenerator.t R) (env : Env) (P : TreeParameters.t) :
  let metadata := snd (output R M g env P) in
  let max_depth :=
    BranchParameters.max_depth (TreeParameters.branches (TreeParameters.validate P)) in
  (exists k : nat, TreeMetadata.branch_count metadata = 2 * Z.of_nat k + 1)
  /\ (0 <= max_depth -> TreeMetadata.branch_count metadata <= 3 ^ max_depth)
  /\ 0 <= TreeMetadata.leaf_count metadata <= 1.
Proof.
  intros metadata max_depth. subst metadata. split; [| split].
  - rewrite (generate_branch_count R M).
    unfold LSystemGenerator.generate_string.
    destruct (iterate_grows R
                (BranchParameters.branch_probability
                   (TreeParameters.branches (TreeParameters.validate P)))
                (Z.to_nat (BranchParameters.max_depth
                             (TreeParameters.branches (TreeParameters.validate P))))
                "F" (Random.make R (TreeGenerator.actual_seed env P)))
      as [(k & Hcount & _) _].
    exists k. rewrite Hcount.
    change (count "F" "F") with 1%nat. change (count "F" "[+F][-F]") with 2%nat. lia.
  - apply (branch_count_bound R M).
  - apply (leaf_count_at_most_one R M).
Qed.
End Generator.

(** ** Generating again from the seed in the metadata *)

Section Reseed.
Variable R : StdRandom.
Variable M : Libm.
Variable seed : Z.

Local Abbreviation reseeded := (TreeParameters.set_random_seed seed).

Lemma validate_reseed (P : TreeParameters.t) :
  TreeParameters.validate (reseeded P) = reseeded (TreeParameters.validate P).
Proof.
  unfold TreeParameters.validate, TreeParameters.adjust_for_season,
    TreeParameters.adjust_for_growth, TreeParameters.adjust_for_type.
  destruct P as [type gs season cw ch sc br lv tr wd ws af sd det].
  destruct type; destruct season; reflexivity.
Qed.

Lemma step_reseed (Q : TreeParameters.t) (c : ascii) (i : LSystemGenerator.interp R) :
  LSystemGenerator.step R M (reseeded Q) c (reseed_interp R seed i)
  = reseed_interp R seed (LSystemGenerator.step R M Q c i).
Proof.
  unfold LSystemGenerator.step, LSystemGenerator.decay, LSystemGenerator.interpret,
    reseed_interp.
  cbn [LSystemGenerator.tree LSystemGenerator.state_stack LSystemGenerator.current_state
       LSystemGenerator.current_branch LSystemGenerator.rng_].
  destruct (Ascii.eqb c "F").
  { destruct (TreeStructure.root (LSystemGenerator.tree R i)) eqn:Er;
      [destruct (LSystemGenerator.current_branch R i) eqn:Ec |];
      cbn; rewrite ?Er, ?Ec; reflexivity. }
  destruct (Ascii.eqb c "["); [reflexivity |].
  destruct (Ascii.eqb c "]");
    [destruct (LSystemGenerator.state_stack R i) eqn:E; cbn; rewrite ?E; reflexivity |].
  destruct (Ascii.eqb c "+"); [cbn; destruct (Random.next_float_in R _ _ _); reflexivity |].
  destruct (Ascii.eqb c "-"); [cbn; destruct (Random.next_float_in R _ _ _); reflexivity |].
  reflexivity.
Qed.

Lemma run_reseed (Q : TreeParameters.t) (s : string) :
  forall i : LSystemGenerator.interp R,
    LSystemGenerator.run R M (reseeded Q) s (reseed_interp R seed i)
    = reseed_interp R seed (LSystemGenerator.run R M Q s i).
Proof.
  induction s as [| c s IH]; intros i; cbn [LSystemGenerator.run]; [reflexivity |].
  rewrite step_reseed. apply IH.
Qed.

Lemma string_to_tree_reseed (Q : TreeParameters.t) (s : string) (rng : Random.t R) :
  LSystemGenerator.string_to_tree R M s (reseeded Q) rng
  = (reseed seed (fst (LSystemGenerator.string_to_tree R M s Q rng)),
     snd (LSystemGenerator.string_to_tree R M s Q rng)).
Proof.
  unfold LSystemGenerator.string_to_tree.
  change (LSystemGenerator.start R (reseeded Q) rng)
    with (reseed_interp R seed (LSystemGenerator.start R Q rng)).
  rewrite run_reseed. reflexivity.
Qed.

Lemma generate_leaf_clusters_reseed (t : TreeStructure.t) (rng : Random.t R) :
  TreeGenerator.generate_leaf_clusters R (reseed seed t) rng
  = (reseed seed (fst (TreeGenerator.generate_leaf_clusters R t rng)),
     snd (TreeGenerator.generate_leaf_clusters R t rng)).
Proof.
  unfold TreeGenerator.generate_leaf_clusters.
  change (TreeParameters.leaves (TreeStructure.parameters (reseed seed t)))
    with (TreeParameters.leaves (TreeStructure.parameters t)).
  destruct (F32.leb _ _); [reflexivity |].
  change (TreeStructure.get_leaf_branches (reseed seed t))
    with (TreeStructure.get_leaf_branches t).
  change (TreeStructure.all_branches (reseed seed t)) with (TreeStructure.all_branches t).
  change (TreeStructure.leaf_clusters (reseed seed t)) with (TreeStructure.leaf_clusters t).
  assert (E : forall (l : list nat) (acc : list LeafCluster.t * Random.t R),
            fold_left (fun acc id =>
                         match nth_error (TreeStructure.all_branches t) id with
                         | Some branch => TreeGenerator.leaf_cluster_for R (reseed seed t) branch acc
                         | None => acc
                         end) l acc
            = fold_left (fun acc id =>
                           match nth_error (TreeStructure.all_branches t) id with
                           | Some branch => TreeGenerator.leaf_cluster_for R t branch acc
                           | None => acc
                           end) l acc).
  { induction l as [| id l IH]; intros acc; cbn [fold_left]; [reflexivity |].
    rewrite IH. reflexivity. }
  rewrite E. destruct (fold_left _ _ _). reflexivity.
Qed.

Lemma calculate_bounding_box_reseed (t : TreeStructure.t) :
  TreeStructure.calculate_bounding_box (reseed seed t)
  = reseed seed (TreeStructure.calculate_bounding_box t).
Proof.
  unfold TreeStructure.calculate_bounding_box.
  change (TreeStructure.all_branches (reseed seed t)) with (TreeStructure.all_branches t).
  destruct (TreeStructure.all_branches t); reflexivity.
Qed.

Lemma generate_structure_reseed (g1 g2 : TreeGenerator.t R) (env1 env2 : Env)
  (P : TreeParameters.t) :
  TreeGenerator.actual_seed env2 (reseeded P) = TreeGenerator.actual_seed env1 P ->
  fst (TreeGenerator.generate_structure R M g2 env2 (reseeded P))
  = reseed seed (fst (TreeGenerator.generate_structure R M g1 env1 P)).
Proof.
  intros Hseed. unfold TreeGenerator.generate_structure.
  rewrite Hseed, validate_reseed.
  change (LSystemGenerator.generate_string R (reseeded (TreeParameters.validate P)))
    with (LSystemGenerator.generate_string R (TreeParameters.validate P)).
  destruct (LSystemGenerator.generate_string R _ _) as [lstring rng1].
  rewrite string_to_tree_reseed.
  destruct (LSystemGenerator.string_to_tree R M lstring _ rng1) as [t0 rng2].
  cbn [fst snd]. rewrite generate_leaf_clusters_reseed.
  destruct (TreeGenerator.generate_leaf_clusters R t0 rng2) as [t1 rng3].
  cbn [fst snd]. apply calculate_bounding_box_reseed.
Qed.
End Reseed.

Section Reproduce.
Variable R : StdRandom.
Variable M : Libm.

(** X26.  The seed in the metadata reproduces the tree: a call of
    [generate] with the same parameters and [random_seed] set to the seed
    the metadata reports gives the same pixels and the same metadata (the
    elapsed time apart), from any generator and whatever the random device
    gives then; this needs the reported seed not to be 0, which the random
    device may return. *)
Theorem metadata_seed_reproduces (g1 g2 : TreeGenerator.t R) (env1 env2 : Env)
  (P : TreeParameters.t) :
  let r := output R M g1 env1 P in
  let seed := TreeMetadata.random_seed (snd r) in
  0 < seed < 2 ^ 32 ->
  same_output r (output R M g2 env2 (TreeParameters.set_random_seed seed P)).
Proof.
  intros r seed Hseed.
  destruct (generate_renders R M g1 env1 P) as (Hb1 & Hbc1 & Hlc1 & Hmd1 & Hs1).
  fold (output R M g1 env1 P) in Hb1, Hbc1, Hlc1, Hmd1, Hs1. fold r in Hb1, Hbc1, Hlc1, Hmd1, Hs1.
  fold seed in Hs1.
  set (P' := TreeParameters.set_random_seed seed P).
  destruct (generate_renders R M g2 env2 P') as (Hb2 & Hbc2 & Hlc2 & Hmd2 & Hs2).
  fold (output R M g2 env2 P') in Hb2, Hbc2, Hlc2, Hmd2, Hs2.
  assert (Hact : TreeGenerator.actual_seed env2 P' = TreeGenerator.actual_seed env1 P).
  { rewrite <- Hs1. unfold TreeGenerator.actual_seed, P'.
    cbn [TreeParameters.random_seed TreeParameters.set_random_seed].
    rewrite Z.mod_small by lia.
    destruct (Z.eqb_spec seed 0); [lia | reflexivity]. }
  pose proof (generate_structure_reseed R M seed g1 g2 env1 env2 P Hact) as Ht.
  fold P' in Ht.
  unfold same_output.
  assert (Hgid : TreeMetadata.generation_id (snd r)
                 = TreeMetadata.generation_id (snd (output R M g2 env2 P'))
                 /\ TreeMetadata.bounding_box (snd r)
                    = TreeMetadata.bounding_box (snd (output R M g2 env2 P'))).
  { subst r. unfold output, TreeGenerator.generate.
    destruct (TreeGenerator.generate_structure R M g1 env1 P) as [t1 g1'].
    destruct (TreeGenerator.generate_structure R M g2 env2 P') as [t2 g2'].
    cbn [fst snd] in *. subst t2. split; reflexivity. }
  destruct Hgid as [Hgid Hbb].
  rewrite Hb1, Hb2, Hbc1, Hbc2, Hlc1, Hlc2, Hmd1, Hmd2, Hs2, Hact, Ht.
  repeat split; try assumption; try reflexivity.
Qed.
End Reproduce.

Lemma metadata_seed_reproduces_witness :
  let g := TreeGenerator.make std_random 0 (Build_Env 5 0 0) in
  let r := output std_random ref_libm g (Build_Env 12345 10 20) TreePresets.palm in
  same_output r
    (output std_random ref_libm g (Build_Env 99 30 50)
       (TreeParameters.set_random_seed (TreeMetadata.random_seed (snd r)) TreePresets.palm)).
Proof.
  apply (metadata_seed_reproduces std_random ref_libm
           (TreeGenerator.make std_random 0 (Build_Env 5 0 0))
           (TreeGenerator.make std_random 0 (Build_Env 5 0 0))
           (Build_Env 12345 10 20) (Build_Env 99 30 50) TreePresets.palm).
  unfold output, TreeGenerator.generate.
  destruct (TreeGenerator.generate_structure _ _ _ _ _) as [t g'].
  cbn. lia.
Defined.

(* ================================================================== *)
(** * Leaf clusters *)

Section Leaves.
Variable R : StdRandom.
Variable M : Libm.

Lemma generate_leaves_loop_spec (n : nat) :
  forall (c : LeafCluster.t) (rng : Random.t R),
    let c' := fst (LeafCluster.generate_leaves_loop R M n c rng) in
    same_cluster c c'
    /\ List.length (LeafCluster.leaf_positions c')
       = (List.length (LeafCluster.leaf_positions c) + n)%nat.
Proof.
  induction n as [| n IH]; intros c rng; cbn [LeafCluster.generate_leaves_loop].
  - cbn [fst]. split; [repeat split | lia].
  - destruct (LeafCluster.leaf_offset R M c rng) as [leaf_pos rng1].
    destruct (IH (LeafCluster.set_leaf_positions
                    (LeafCluster.leaf_positions c
                     ++ [Point2Df.add (LeafCluster.position c) leaf_pos]) c) rng1)
      as [(H1 & H2 & H3 & H4) Hlen].
    cbv zeta in *. split; [repeat split; assumption |].
    rewrite Hlen. cbn [LeafCluster.leaf_positions LeafCluster.set_leaf_positions].
    rewrite length_app. cbn. lia.
Qed.

(** X27.  [generate_leaves(rng, leaf_count)] replaces the leaf positions
    of a cluster by exactly [leaf_count] new ones, whatever it held before
    and whatever its shape, and leaves position, size, colour and shape
    alone; a negative [leaf_count] makes [reserve] throw
    [std::length_error]. *)
Theorem generate_leaves_count (c : LeafCluster.t) (rng : Random.t R) (leaf_count : Z) :
  (leaf_count < 0 -> LeafCluster.generate_leaves R M c rng leaf_count = None)
  /\ (0 <= leaf_count ->
      exists (c' : LeafCluster.t) (rng' : Random.t R),
        LeafCluster.generate_leaves R M c rng leaf_count = Some (c', rng')
        /\ Z.of_nat (List.length (LeafCluster.leaf_positions c')) = leaf_count
        /\ same_cluster c c').
Proof.
  unfold LeafCluster.generate_leaves. split; intros H.
  - replace (leaf_count <? 0) with true by (symmetry; apply Z.ltb_lt; lia). reflexivity.
  - replace (leaf_count <? 0) with false by (symmetry; apply Z.ltb_ge; lia).
    destruct (generate_leaves_loop_spec (Z.to_nat leaf_count)
                (LeafCluster.set_leaf_positions [] c) rng) as [Hsame Hlen].
    destruct (LeafCluster.generate_leaves_loop R M (Z.to_nat leaf_count)
                (LeafCluster.set_leaf_positions [] c) rng) as [c' rng'].
    cbn [fst] in *. exists c', rng'. split; [reflexivity |]. split.
    + rewrite Hlen. cbn. lia.
    + exact Hsame.
Qed.

(** ** The leaf cluster of a generated tree *)

Lemma leaf_cluster_for_spec (t : TreeStructure.t) (b : Branch.t)
  (clusters : list LeafCluster.t) (rng : Random.t R) :
  let out := fst (TreeGenerator.leaf_cluster_for R t b (clusters, rng)) in
  out = clusters
  \/ exists c : LeafCluster.t,
       out = clusters ++ [c]
       /\ LeafCluster.position c = Branch.end_point b
       /\ LeafCluster.leaf_positions c = []
       /\ LeafCluster.shape c
          = TreeGenerator.cluster_shape (TreeParameters.type (TreeStructure.parameters t)).
Proof.
  unfold TreeGenerator.leaf_cluster_for.
  destruct (Random.next_float R rng) as [u rng1]. cbn [fst].
  destruct (F32.ltb u _); cbn [fst]; [| left; reflexivity].
  destruct (Random.next_float_in R _ _ rng1) as [j rng2].
  destruct (Random.next_int R 0 3 rng2) as [k rng3].
  destruct (TreeGenerator.jitter_channel R _ _ rng3) as [cr rng4].
  destruct (TreeGenerator.jitter_channel R _ _ rng4) as [cg rng5].
  destruct (TreeGenerator.jitter_channel R _ _ rng5) as [cb rng6].
  cbn [fst]. right. eexists. split; [reflexivity |]. repeat split.
Qed.

(** X28.  The leaf cluster of a generated tree, if it has one, sits at the
    end point of the branch created last, whichever branch of the drawing
    that is; its shape follows the tree type, and it holds no leaf
    positions, since [generate_leaves] is never called. *)
Theorem generated_leaf_cluster (g : TreeGenerator.t R) (env : Env) (P : TreeParameters.t) :
  let t := fst (TreeGenerator.generate_structure R M g env P) in
  forall c : LeafCluster.t,
    In c (TreeStructure.leaf_clusters t) ->
    TreeStructure.leaf_clusters t = [c]
    /\ (exists last : Branch.t,
          nth_error (TreeStructure.all_branches t)
                    (List.length (TreeStructure.all_branches t) - 1) = Some last
          /\ LeafCluster.position c = Branch.end_point last)
    /\ LeafCluster.leaf_positions c = []
    /\ LeafCluster.shape c = TreeGenerator.cluster_shape (TreeParameters.type P).
Proof.
  intros t c Hin.
  destruct (generate_structure_parts R M g env P) as (Hbr & _ & Hcl).
  fold t in Hbr, Hcl. rewrite Hcl in Hin |- *. rewrite Hbr. clear Hbr Hcl.
  set (s := LSystemGenerator.generate_string R _ _) in *.
  destruct (string_to_tree_shape R M (TreeParameters.validate P) (fst s) (snd s))
    as (Hnone & Hpar & _ & Hchain).
  destruct (LSystemGenerator.string_to_tree R M (fst s) _ (snd s)) as [t0 rng2].
  cbn [fst snd] in *.
  destruct (validate_keeps P) as (_ & _ & _ & Htype & _).
  unfold TreeGenerator.generate_leaf_clusters in *.
  destruct (F32.leb _ _); cbn [fst] in *; [rewrite Hnone in Hin; destruct Hin |].
  rewrite (get_leaf_branches_chain t0 _ Hchain), Hnone in *.
  destruct (TreeStructure.all_branches t0) as [| h bs] eqn:E; [destruct Hin |].
  rewrite <- E in *. cbn [fold_left] in *.
  destruct (nth_error (TreeStructure.all_branches t0)
              (List.length (TreeStructure.all_branches t0) - 1)) as [b |] eqn:Eb.
  - pose proof (leaf_cluster_for_spec t0 b [] rng2) as Hspec. cbv zeta in Hspec.
    destruct (TreeGenerator.leaf_cluster_for R t0 b ([], rng2)) as [clusters rng'].
    cbn [fst TreeStructure.leaf_clusters TreeStructure.set_leaf_clusters] in *.
    destruct Hspec as [-> | (c0 & -> & Hpos & Hlp & Hsh)]; [destruct Hin |].
    cbn [app] in *. destruct Hin as [<- | []].
    split; [reflexivity |]. split; [exists b; split; [reflexivity | exact Hpos] |].
    split; [exact Hlp |]. rewrite Hsh, Hpar. f_equal. exact Htype.
  - apply nth_error_None in Eb. rewrite E in Eb. cbn in Eb. lia.
Qed.
End Leaves.

(* ================================================================== *)
(** * Instances *)

(** A trunk and a leaf cluster at its tip. *)
Lemma bounding_box_encloses_witness :
  let trunk :=
    Branch.make (Point2Df.mk (F32.of_Z 64) (F32.of_Z 115))
                (Point2Df.mk (F32.of_Z 64) (F32.of_Z 100)) (F32.of_Z 2) 0 in
  let crown :=
    LeafCluster.make (Point2Df.mk (F32.of_Z 64) (F32.of_Z 100)) (F32.of_Z 4)
                     (Color.rgb 34 139 34) in
  let t :=
    TreeStructure.set_leaf_clusters [crown]
      (TreeStructure.set_all_branches [trunk] (TreeStructure.make TreeParameters.default)) in
  let bb := TreeStructure.bounding_box (TreeStructure.calculate_bounding_box t) in
  (forall b, In b (TreeStructure.all_branches t) -> encloses bb (Branch.bounding_box b))
  /\ (forall c, In c (TreeStructure.leaf_clusters t) ->
        encloses bb (LeafCluster.bounding_box c)).
Proof.
  cbv zeta.
  apply (bounding_box_encloses
           (TreeStructure.set_leaf_clusters
              [LeafCluster.make (Point2Df.mk (F32.of_Z 64) (F32.of_Z 100)) (F32.of_Z 4)
                                (Color.rgb 34 139 34)]
              (TreeStructure.set_all_branches
                 [Branch.make (Point2Df.mk (F32.of_Z 64) (F32.of_Z 115))
                              (Point2Df.mk (F32.of_Z 64) (F32.of_Z 100)) (F32.of_Z 2) 0]
                 (TreeStructure.make TreeParameters.default)))).
  - intros b [<- | []]. vm_compute. repeat split; discriminate.
  - intros c [<- | []]. vm_compute. repeat split; discriminate.
Defined.

Lemma render_canvas_witness :
  let t :=
    fst (LSystemGenerator.string_to_tree std_random ref_libm "F[+F][-F]"
           TreeParameters.default (Random.make std_random 1)) in
  let params := TreeStructure.parameters t in
  let b := TreeRenderer.render t in
  well_formed b
  /\ PixelBuffer.width b = TreeParameters.canvas_width params
  /\ PixelBuffer.height b = TreeParameters.canvas_height params
  /\ (forall x y v, PixelBuffer.at_ b x y = Some v -> In v (palette t)).
Proof.
  apply (render_canvas
           (fst (LSystemGenerator.string_to_tree std_random ref_libm "F[+F][-F]"
                   TreeParameters.default (Random.make std_random 1)))).
  - vm_compute. discriminate.
  - vm_compute. discriminate.
Defined.

Lemma generated_image_witness :
  let g := TreeGenerator.make std_random 1 (Build_Env 1 0 0) in
  let env := Build_Env 1 0 0 in
  let P := seeded 1 TreePresets.palm in
  let t := fst (TreeGenerator.generate_structure std_random ref_libm g env P) in
  let b := fst (fst (TreeGenerator.generate std_random ref_libm g env P)) in
  well_formed b
  /\ PixelBuffer.width b = TreeParameters.canvas_width P
  /\ PixelBuffer.height b = TreeParameters.canvas_height P
  /\ (forall x y v, PixelBuffer.at_ b x y = Some v ->
        v = 0
        \/ v = Color.to_rgba (TrunkParameters.base_color (TreeParameters.trunk P))
        \/ exists c, In c (TreeStructure.leaf_clusters t)
                     /\ v = Color.to_rgba (LeafCluster.color c)).
Proof.
  apply (generated_image std_random ref_libm
           (TreeGenerator.make std_random 1 (Build_Env 1 0 0)) (Build_Env 1 0 0)
           (seeded 1 TreePresets.palm)).
  - vm_compute. discriminate.
  - vm_compute. discriminate.
Defined.

Lemma palm_branch_bound_witness :
  let g := TreeGenerator.make std_random 1 (Build_Env 1 0 0) in
  let P := seeded 1 TreePresets.palm in
  1 <= BranchParameters.max_depth (TreeParameters.branches (TreeParameters.validate P)) <= 3
  /\ 1 <= TreeMetadata.branch_count (snd (output std_random ref_libm g (Build_Env 1 0 0) P))
     <= 27.
Proof.
  apply (palm_branch_bound std_random ref_libm
           (TreeGenerator.make std_random 1 (Build_Env 1 0 0)) (Build_Env 1 0 0)
           (seeded 1 TreePresets.palm)).
  reflexivity.
Defined.

Lemma generated_leaf_cluster_witness :
  let g := TreeGenerator.make std_random 1 (Build_Env 1 0 0) in
  let P := seeded 1 TreePresets.palm in
  let t := fst (TreeGenerator.generate_structure std_random ref_libm g (Build_Env 1 0 0) P) in
  let c := nth 0 (TreeStructure.leaf_clusters t)
               (LeafCluster.make (Point2Df.mk F32.zero F32.zero) F32.zero (Color.rgb 0 0 0)) in
  TreeStructure.leaf_clusters t = [c]
  /\ (exists last : Branch.t,
        nth_error (TreeStructure.all_branches t)
                  (List.length (TreeStructure.all_branches t) - 1) = Some last
        /\ LeafCluster.position c = Branch.end_point last)
  /\ LeafCluster.leaf_positions c = []
  /\ LeafCluster.shape c = TreeGenerator.cluster_shape (TreeParameters.type P).
Proof.
  apply (generated_leaf_cluster std_random ref_libm
           (TreeGenerator.make std_random 1 (Build_Env 1 0 0)) (Build_Env 1 0 0)
           (seeded 1 TreePresets.palm)).
  apply nth_In. vm_compute. lia.
Defined.
